(** * subprocess: process spawning, pipe wiring and process lifecycle

    A shallow embedding of the C++ sources of the subprocess library
    (pipe.cpp, pipevar.hpp, basic_types.hpp, builder.h, builder.cpp,
    builder_windows.cpp, and of shellutils.cpp and environ.cpp the
    resolution of programs and the pure functions) and the properties of
    its specification settled on that embedding, followed by further
    properties of the same code.

    Conventions of the embedding.
    - Native handles, identifiers and integers are [Z]; a [DWORD] is a [Z]
      reduced modulo 2^32 where the code converts to it.
    - [std::string] is [string] (a sequence of 8-bit characters), so captured
      output is binary safe as in the source.
    - A [double] number of seconds is the rational it denotes ([Q]); the
      result of an operation on [double]s is rounded to the nearest
      [double] ([binary64]).
    - The native layer is a [World]: a table of open handles with the kernel
      pipes behind them, the answers the operating system gives to the native
      calls the library makes (one queue per native function, consumed in call
      order), and what the library did (the trace of native calls, the text
      printed on std::cout, the detached threads it started).
    - Code that can throw, block for ever or call std::terminate returns a
      [Res]; state is threaded explicitly. *)

From Stdlib Require Import ZArith String Ascii List Lia Bool.
From Stdlib Require QArith Qround Sorted.
From stdpp Require Import base gmap strings list pretty.

Open Scope Z_scope.

Abbreviation Q := QArith_base.Q.

(** ** basic_types.hpp *)

(** The two native models the sources are compiled for ([_WIN32] or not). *)
Inductive Platform := Win32 | Posix.

Definition kIsWin32 (pf : Platform) : bool :=
  match pf with Win32 => true | Posix => false end.

Abbreviation CommandLine := (list string).

(** [kBadPipeValue] is [nullptr] on Windows and [(PipeHandle)-1] elsewhere. *)
Definition kBadPipeValue (pf : Platform) : Z :=
  match pf with Win32 => 0 | Posix => -1 end.

Definition kBadReturnCode : Z := -1000.

Definition dword (z : Z) : Z := z mod 2 ^ 32.

(** [enum class SigNum]: the enumerators and their numeric values.  [SIGINT],
    [SIGILL], [SIGABRT], [SIGFPE], [SIGSEGV] and [SIGTERM] are the macros of
    <csignal>; only [SIGABRT] differs between the platforms. *)
Inductive SigNum :=
| PSIGHUP | PSIGINT | PSIGQUIT | PSIGILL | PSIGTRAP | PSIGABRT | PSIGIOT
| PSIGBUS | PSIGFPE | PSIGKILL | PSIGUSR1 | PSIGSEGV | PSIGUSR2 | PSIGPIPE
| PSIGALRM | PSIGTERM | PSIGSTKFLT | PSIGCHLD | PSIGCONT | PSIGSTOP
| PSIGTSTP | PSIGTTIN | PSIGTTOU | PSIGURG | PSIGXCPU | PSIGXFSZ
| PSIGVTALRM | PSIGPROF | PSIGWINCH | PSIGIO.

Definition SigNum_value (pf : Platform) (s : SigNum) : Z :=
  match s with
  | PSIGHUP => 1 | PSIGINT => 2 | PSIGQUIT => 3 | PSIGILL => 4
  | PSIGTRAP => 5
  | PSIGABRT => match pf with Win32 => 22 | Posix => 6 end
  | PSIGIOT => 6 | PSIGBUS => 7 | PSIGFPE => 8 | PSIGKILL => 9
  | PSIGUSR1 => 10 | PSIGSEGV => 11 | PSIGUSR2 => 12 | PSIGPIPE => 13
  | PSIGALRM => 14 | PSIGTERM => 15 | PSIGSTKFLT => 16 | PSIGCHLD => 17
  | PSIGCONT => 18 | PSIGSTOP => 19 | PSIGTSTP => 20 | PSIGTTIN => 21
  | PSIGTTOU => 22 | PSIGURG => 23 | PSIGXCPU => 24 | PSIGXFSZ => 25
  | PSIGVTALRM => 26 | PSIGPROF => 27 | PSIGWINCH => 28 | PSIGIO => 29
  end.

(** Comparison of two enumerators is comparison of their values. *)
Definition SigNum_eqb (pf : Platform) (a b : SigNum) : bool :=
  SigNum_value pf a =? SigNum_value pf b.

Inductive PipeOption :=
| PO_inherit | PO_cout | PO_cerr | PO_specific | PO_pipe | PO_close | PO_none.

Definition PipeOption_eqb (a b : PipeOption) : bool :=
  match a, b with
  | PO_inherit, PO_inherit | PO_cout, PO_cout | PO_cerr, PO_cerr
  | PO_specific, PO_specific | PO_pipe, PO_pipe | PO_close, PO_close
  | PO_none, PO_none => true
  | _, _ => false
  end.

(** The exception types of the library, and the three of the standard
    library the code throws.  [TimeoutExpired] and [CalledProcessError]
    also inherit the message-only constructor; built that way the command
    and the captured output are empty and the [double] member is left
    uninitialised ([None]). *)
Inductive Exn :=
| OSError (msg : string)
| CommandNotFoundError (msg : string)
| SpawnError (msg : string)
| TimeoutExpired (msg : string) (cmd : CommandLine) (timeout : option Q)
    (cout cerr : string)
| CalledProcessError (msg : string) (cmd : CommandLine) (returncode : Z)
    (cout cerr : string)
| invalid_argument (msg : string)
| domain_error (msg : string)
| bad_variant_access.

Definition is_TimeoutExpired (e : Exn) : bool :=
  match e with TimeoutExpired _ _ _ _ _ => true | _ => false end.

Record CompletedProcess := mkCompleted {
  cp_args : CommandLine;
  cp_returncode : Z;
  cp_cout : string;
  cp_cerr : string
}.

Definition CompletedProcess_default : CompletedProcess :=
  mkCompleted [] (-1) "" "".

(** [explicit operator bool] of [CompletedProcess]. *)
Definition CompletedProcess_bool (c : CompletedProcess) : bool :=
  cp_returncode c =? 0.

(** ** pipevar.hpp *)

Inductive PipeVarIndex :=
| PVI_option | PVI_string | PVI_handle | PVI_istream | PVI_ostream | PVI_file.

(** [std::variant<PipeOption, std::string, PipeHandle, std::istream*,
    std::ostream*, FILE*>]; stream and file pointers are addresses. *)
Inductive PipeVar :=
| PV_option (o : PipeOption)
| PV_string (s : string)
| PV_handle (h : Z)
| PV_istream (ptr : Z)
| PV_ostream (ptr : Z)
| PV_file (ptr : Z).

Definition PipeVar_index (v : PipeVar) : PipeVarIndex :=
  match v with
  | PV_option _ => PVI_option
  | PV_string _ => PVI_string
  | PV_handle _ => PVI_handle
  | PV_istream _ => PVI_istream
  | PV_ostream _ => PVI_ostream
  | PV_file _ => PVI_file
  end.

Definition get_pipe_option (option : PipeVar) : PipeOption :=
  match PipeVar_index option with
  | PVI_option =>
      match option with PV_option o => o | _ => PO_pipe end
  | PVI_handle => PO_specific
  | _ => PO_pipe
  end.

(** ** The native layer *)

(** A kernel pipe seen from its read end: the writes its reader has not
    read yet, oldest first, and whether the writers close their end once
    these are written.  Reads block, so the reader cannot tell bytes that
    are already in the pipe from bytes the peer writes later: the chunks
    stand for both, and [p_writer_closed] for "the peer eventually closes".
    On Windows a zero-byte [WriteFile] is a write of its own (an empty
    chunk). *)
Record Pipe := mkPipe {
  p_chunks : list string;
  p_writer_closed : bool
}.

Inductive KObj := K_read (p : Pipe) | K_write | K_other.

(** An entry of the handle table: the object and the inherit flag
    ([HANDLE_FLAG_INHERIT], or the absence of [FD_CLOEXEC]). *)
Record Handle := mkHandle {
  h_obj : KObj;
  h_inherit : bool
}.

Record PROCESS_INFORMATION := mkProcInfo {
  hProcess : Z;
  hThread : Z;
  dwProcessId : Z;
  dwThreadId : Z
}.

Definition PROCESS_INFORMATION_zero : PROCESS_INFORMATION :=
  mkProcInfo 0 0 0 0.

(** What [CreateProcess] is called with. *)
Record CreateProcessArgs := mkCreateProcessArgs {
  cpa_program : string;
  cpa_args : string;
  cpa_flags : Z;
  cpa_env : option (list Z);
  cpa_cwd : option string;
  cpa_hStdInput : Z;
  cpa_hStdOutput : Z;
  cpa_hStdError : Z
}.

(** The native calls the library makes, as they appear in the trace. *)
Inductive NativeCall :=
| N_find_program_in_path (name : string)
| N_GetStartupInfo
| N_CreatePipe (inheritable : bool)
| N_pipe
| N_SetHandleInformation (h : Z) (flags : Z)
| N_fcntl_GETFD (h : Z)
| N_fcntl_SETFD (h : Z) (cloexec : bool)
| N_CreateProcess (a : CreateProcessArgs)
| N_CloseHandle (h : Z)
| N_close (h : Z)
| N_ReadFile (h : Z) (size : Z)
| N_read (h : Z) (size : Z)
| N_WaitForSingleObject (h : Z) (ms : Z)
| N_GetExitCodeProcess (h : Z)
| N_GetLastError
| N_FormatMessage (code : Z)
| N_CreateToolhelp32Snapshot
| N_Process32First (h : Z)
| N_Process32Next (h : Z)
| N_OpenProcess (pid : Z)
| N_TerminateProcess (h : Z) (code : Z)
| N_GenerateConsoleCtrlEvent (event : Z) (group : Z).

(** The detached threads the library starts; their bodies are the pump
    loops of builder.cpp and pipe.cpp. *)
Inductive Thread :=
| T_pipe_to_ostream (input : Z) (output : Z)
| T_pipe_to_file (input : Z) (output : Z)
| T_file_to_pipe (input : Z) (output : Z) (bautoclose : bool)
| T_string_to_pipe (input : string) (output : Z) (bautoclose : bool)
| T_istream_to_pipe (input : Z) (output : Z) (bautoclose : bool)
| T_ignore_and_close (handle : Z).

Record World := mkWorld {
  (* kernel state *)
  w_handles : gmap Z Handle;
  w_terminated : option Z;            (* the exit code a successful
                                         TerminateProcess gave the child *)
  (* answers of the operating system, one queue per native function *)
  w_wait : list Z;                    (* WaitForSingleObject *)
  w_exitcode : list (Z * Z);          (* GetExitCodeProcess: result, code *)
  w_terminate : list bool;            (* TerminateProcess on hProcess *)
  w_ctrl : list bool;                 (* GenerateConsoleCtrlEvent *)
  w_createpipe : list (option (Z * Z * Pipe));
                                      (* CreatePipe, pipe: the read handle,
                                         the write handle, and what will be
                                         written to the new pipe *)
  w_createprocess : list (bool * PROCESS_INFORMATION);
  (* answers that do not depend on the call order *)
  w_find_program : string -> string;
  w_escape_shell_arg : string -> string;
  w_create_env_block : gmap string string -> list Z;
  w_std_handle : Z -> Z;              (* GetStdHandle *)
  w_snapshot : option (Z * list (Z * Z));
                                      (* CreateToolhelp32Snapshot: the handle
                                         and the entries (pid, parent pid);
                                         none when it fails *)
  w_open_process : Z -> Z;            (* OpenProcess, 0 when it fails *)
  w_last_error : Z;                   (* GetLastError *)
  w_last_error_string : string;       (* the text FormatMessage gives *)
  (* what the library did *)
  w_trace : list NativeCall;
  w_cout : list string;
  w_threads : list Thread
}.

Definition set_handles (f : gmap Z Handle -> gmap Z Handle) (w : World) : World :=
  mkWorld (f (w_handles w)) (w_terminated w) (w_wait w) (w_exitcode w) (w_terminate w)
    (w_ctrl w) (w_createpipe w) (w_createprocess w) (w_find_program w)
    (w_escape_shell_arg w) (w_create_env_block w) (w_std_handle w)
    (w_snapshot w) (w_open_process w) (w_last_error w)
    (w_last_error_string w) (w_trace w) (w_cout w) (w_threads w).

Definition set_terminated (t : option Z) (w : World) : World :=
  mkWorld (w_handles w) t (w_wait w) (w_exitcode w) (w_terminate w)
    (w_ctrl w) (w_createpipe w) (w_createprocess w) (w_find_program w)
    (w_escape_shell_arg w) (w_create_env_block w) (w_std_handle w)
    (w_snapshot w) (w_open_process w) (w_last_error w)
    (w_last_error_string w) (w_trace w) (w_cout w) (w_threads w).

Definition set_wait (q : list Z) (w : World) : World :=
  mkWorld (w_handles w) (w_terminated w) q (w_exitcode w) (w_terminate w)
    (w_ctrl w) (w_createpipe w) (w_createprocess w) (w_find_program w)
    (w_escape_shell_arg w) (w_create_env_block w) (w_std_handle w)
    (w_snapshot w) (w_open_process w) (w_last_error w)
    (w_last_error_string w) (w_trace w) (w_cout w) (w_threads w).

Definition set_exitcode (q : list (Z * Z)) (w : World) : World :=
  mkWorld (w_handles w) (w_terminated w) (w_wait w) q (w_terminate w)
    (w_ctrl w) (w_createpipe w) (w_createprocess w) (w_find_program w)
    (w_escape_shell_arg w) (w_create_env_block w) (w_std_handle w)
    (w_snapshot w) (w_open_process w) (w_last_error w)
    (w_last_error_string w) (w_trace w) (w_cout w) (w_threads w).

Definition set_terminate (q : list bool) (w : World) : World :=
  mkWorld (w_handles w) (w_terminated w) (w_wait w) (w_exitcode w) q
    (w_ctrl w) (w_createpipe w) (w_createprocess w) (w_find_program w)
    (w_escape_shell_arg w) (w_create_env_block w) (w_std_handle w)
    (w_snapshot w) (w_open_process w) (w_last_error w)
    (w_last_error_string w) (w_trace w) (w_cout w) (w_threads w).

Definition set_ctrl (q : list bool) (w : World) : World :=
  mkWorld (w_handles w) (w_terminated w) (w_wait w) (w_exitcode w) (w_terminate w)
    q (w_createpipe w) (w_createprocess w) (w_find_program w)
    (w_escape_shell_arg w) (w_create_env_block w) (w_std_handle w)
    (w_snapshot w) (w_open_process w) (w_last_error w)
    (w_last_error_string w) (w_trace w) (w_cout w) (w_threads w).

Definition set_createpipe (q : list (option (Z * Z * Pipe))) (w : World)
    : World :=
  mkWorld (w_handles w) (w_terminated w) (w_wait w) (w_exitcode w) (w_terminate w)
    (w_ctrl w) q (w_createprocess w) (w_find_program w)
    (w_escape_shell_arg w) (w_create_env_block w) (w_std_handle w)
    (w_snapshot w) (w_open_process w) (w_last_error w)
    (w_last_error_string w) (w_trace w) (w_cout w) (w_threads w).

Definition set_createprocess (q : list (bool * PROCESS_INFORMATION))
    (w : World) : World :=
  mkWorld (w_handles w) (w_terminated w) (w_wait w) (w_exitcode w) (w_terminate w)
    (w_ctrl w) (w_createpipe w) q (w_find_program w)
    (w_escape_shell_arg w) (w_create_env_block w) (w_std_handle w)
    (w_snapshot w) (w_open_process w) (w_last_error w)
    (w_last_error_string w) (w_trace w) (w_cout w) (w_threads w).

Definition log (c : NativeCall) (w : World) : World :=
  mkWorld (w_handles w) (w_terminated w) (w_wait w) (w_exitcode w) (w_terminate w)
    (w_ctrl w) (w_createpipe w) (w_createprocess w) (w_find_program w)
    (w_escape_shell_arg w) (w_create_env_block w) (w_std_handle w)
    (w_snapshot w) (w_open_process w) (w_last_error w)
    (w_last_error_string w) (w_trace w ++ [c]) (w_cout w) (w_threads w).

Definition print (s : string) (w : World) : World :=
  mkWorld (w_handles w) (w_terminated w) (w_wait w) (w_exitcode w) (w_terminate w)
    (w_ctrl w) (w_createpipe w) (w_createprocess w) (w_find_program w)
    (w_escape_shell_arg w) (w_create_env_block w) (w_std_handle w)
    (w_snapshot w) (w_open_process w) (w_last_error w)
    (w_last_error_string w) (w_trace w) (w_cout w ++ [s]) (w_threads w).

Definition detach (t : Thread) (w : World) : World :=
  mkWorld (w_handles w) (w_terminated w) (w_wait w) (w_exitcode w) (w_terminate w)
    (w_ctrl w) (w_createpipe w) (w_createprocess w) (w_find_program w)
    (w_escape_shell_arg w) (w_create_env_block w) (w_std_handle w)
    (w_snapshot w) (w_open_process w) (w_last_error w)
    (w_last_error_string w) (w_trace w) (w_cout w) (w_threads w ++ [t]).

(** ** Results and the state monad *)

(** What a call can end in: a value, a C++ exception, blocking for ever in
    a native call, or [std::terminate] (an exception escaping a [noexcept]
    function or a destructor). *)
Inductive Res (A : Type) :=
| Val (a : A)
| Exc (e : Exn)
| Hang
| Abort.
Arguments Val {A} a.
Arguments Exc {A} e.
Arguments Hang {A}.
Arguments Abort {A}.

Definition M (S A : Type) : Type := S -> Res A * S.

Definition ret {S A} (a : A) : M S A := fun s => (Val a, s).

Definition bind {S A B} (m : M S A) (k : A -> M S B) : M S B :=
  fun s =>
    match m s with
    | (Val a, s') => k a s'
    | (Exc e, s') => (Exc e, s')
    | (Hang, s') => (Hang, s')
    | (Abort, s') => (Abort, s')
    end.

Definition throw {S A} (e : Exn) : M S A := fun s => (Exc e, s).

Definition hang {S A} : M S A := fun s => (Hang, s).

Definition get {S} : M S S := fun s => (Val s, s).

Definition modify {S} (f : S -> S) : M S unit := fun s => (Val tt, f s).

(** [try { m } catch (E&) { h }] for the exceptions [sel] selects. *)
Definition try_catch {S A} (m : M S A) (sel : Exn -> bool) (h : Exn -> M S A)
    : M S A :=
  fun s =>
    match m s with
    | (Exc e, s') => if sel e then h e s' else (Exc e, s')
    | r => r
    end.

(** A [noexcept] function, or a destructor: an exception that escapes
    calls [std::terminate]. *)
Definition noexcept {S A} (m : M S A) : M S A :=
  fun s =>
    match m s with
    | (Exc _, s') => (Abort, s')
    | r => r
    end.

(** [body] with the destructor [dtor] of a local object run when the scope
    is left, by a return or by an exception. *)
Definition scoped {S A} (body : M S A) (dtor : M S unit) : M S A :=
  fun s =>
    match body s with
    | (Val a, s') =>
        match noexcept dtor s' with
        | (Val _, s'') => (Val a, s'')
        | (Exc e, s'') => (Exc e, s'')
        | (Hang, s'') => (Hang, s'')
        | (Abort, s'') => (Abort, s'')
        end
    | (Exc e, s') =>
        match noexcept dtor s' with
        | (Val _, s'') => (Exc e, s'')
        | (Exc e', s'') => (Exc e', s'')
        | (Hang, s'') => (Hang, s'')
        | (Abort, s'') => (Abort, s'')
        end
    | r => r
    end.

Declare Scope monad_scope.
Delimit Scope monad_scope with monad.
Notation "x <- c1 ;; c2" := (bind c1 (fun x => c2))
  (at level 100, c1 at next level, right associativity) : monad_scope.
Notation "c1 ;;; c2" := (bind c1 (fun _ => c2))
  (at level 100, right associativity) : monad_scope.
Open Scope monad_scope.

(** Run a computation on the world inside a computation whose state is a
    pair of an object and the world. *)
Definition liftW {O A} (m : M World A) : M (O * World) A :=
  fun s =>
    match m (snd s) with
    | (r, w') => (r, (fst s, w'))
    end.

(** Take the next answer of a queue; an exhausted queue is a native call
    that never returns. *)
Definition native_call {A} (c : NativeCall) (q : World -> list A)
    (setq : list A -> World -> World) : M World A :=
  fun w =>
    match q w with
    | a :: rest => (Val a, setq rest (log c w))
    | [] => (Hang, log c w)
    end.

(** ** Native calls on handles and pipes

    The kernel side of the calls pipe.cpp makes.  A read takes bytes from
    the oldest write.  With nothing left to read, a read on a pipe whose
    writers never close blocks for ever; on a pipe whose writers have
    closed, [read] returns 0 and [ReadFile] fails (ERROR_BROKEN_PIPE). *)

Definition FD_CLOEXEC : Z := 1.
Definition HANDLE_FLAG_INHERIT : Z := 1.

(** Split off the first [n] bytes of a pending write. *)
Definition split_bytes (n : nat) (s : string) : string * string :=
  (String.substring 0 n s, String.substring n (String.length s - n) s).

Definition push_back (rest : string) (chunks : list string) : list string :=
  match rest with
  | EmptyString => chunks
  | _ => rest :: chunks
  end.

(** The bytes of a pipe as one sequence. *)
Definition pipe_data (p : Pipe) : string :=
  List.fold_right String.append ""%string (p_chunks p).

Definition pending_bytes (p : Pipe) : nat :=
  String.length (pipe_data p).

(** [ReadFile(handle, buffer, size, &bread, nullptr)]: the result, the
    number of bytes read and the bytes put in the buffer. *)
Definition ReadFile (h size : Z) : M World (bool * Z * string) :=
  fun w =>
    let w1 := log (N_ReadFile h size) w in
    match w_handles w !! h with
    | Some (mkHandle (K_read p) inh) =>
        match p_chunks p with
        | c :: rest =>
            let n := Nat.min (Z.to_nat size) (String.length c) in
            let '(data, c') := split_bytes n c in
            let p' := mkPipe (push_back c' rest) (p_writer_closed p) in
            (Val (true, Z.of_nat n, data),
             set_handles (insert h (mkHandle (K_read p') inh)) w1)
        | [] =>
            if p_writer_closed p then (Val (false, 0, ""%string), w1)
            else (Hang, w1)
        end
    | _ => (Val (false, 0, ""%string), w1)
    end.

(** [::read(handle, buffer, size)]: the result and the bytes put in the
    buffer. *)
Definition posix_read (h size : Z) : M World (Z * string) :=
  fun w =>
    let w1 := log (N_read h size) w in
    match w_handles w !! h with
    | Some (mkHandle (K_read p) inh) =>
        let data := pipe_data p in
        if size =? 0 then (Val (0, ""%string), w1)
        else
          match data with
          | EmptyString =>
              if p_writer_closed p then (Val (0, ""%string), w1)
              else (Hang, w1)
          | _ =>
              let n := Nat.min (Z.to_nat size) (String.length data) in
              let '(got, rest) := split_bytes n data in
              let p' := mkPipe (push_back rest []) (p_writer_closed p) in
              (Val (Z.of_nat n, got),
               set_handles (insert h (mkHandle (K_read p') inh)) w1)
          end
    | _ => (Val (-1, ""%string), w1)
    end.

(** [CloseHandle(handle)]. *)
Definition CloseHandle (h : Z) : M World bool :=
  fun w =>
    let w1 := log (N_CloseHandle h) w in
    match w_handles w !! h with
    | Some _ => (Val true, set_handles (delete h) w1)
    | None => (Val false, w1)
    end.

(** [::close(handle)]. *)
Definition posix_close (h : Z) : M World Z :=
  fun w =>
    let w1 := log (N_close h) w in
    match w_handles w !! h with
    | Some _ => (Val 0, set_handles (delete h) w1)
    | None => (Val (-1), w1)
    end.

(** [SetHandleInformation(handle, HANDLE_FLAG_INHERIT, flags)]. *)
Definition SetHandleInformation (h flags : Z) : M World bool :=
  fun w =>
    let w1 := log (N_SetHandleInformation h flags) w in
    match w_handles w !! h with
    | Some (mkHandle o _) =>
        (Val true,
         set_handles (insert h (mkHandle o (Z.testbit flags 0))) w1)
    | None => (Val false, w1)
    end.

(** [fcntl(handle, F_GETFD)]. *)
Definition fcntl_GETFD (h : Z) : M World Z :=
  fun w =>
    let w1 := log (N_fcntl_GETFD h) w in
    match w_handles w !! h with
    | Some (mkHandle _ inh) => (Val (if inh then 0 else FD_CLOEXEC), w1)
    | None => (Val (-1), w1)
    end.

(** [fcntl(handle, F_SETFD, flags)]. *)
Definition fcntl_SETFD (h flags : Z) : M World Z :=
  fun w =>
    let w1 := log (N_fcntl_SETFD h (Z.testbit flags 0)) w in
    match w_handles w !! h with
    | Some (mkHandle o _) =>
        (Val 0,
         set_handles (insert h (mkHandle o (negb (Z.testbit flags 0)))) w1)
    | None => (Val (-1), w1)
    end.

Definition open_pipe (inheritable : bool) (ends : Z * Z * Pipe)
    (t : gmap Z Handle) : gmap Z Handle :=
  let '(rd, wr, p) := ends in
  <[wr := mkHandle K_write inheritable]>
    (<[rd := mkHandle (K_read p) inheritable]> t).

(** [CreatePipe(&input, &output, &security, 0)]: the two handles, or a
    failure. *)
Definition CreatePipe (inheritable : bool) : M World (option (Z * Z)) :=
  r <- native_call (N_CreatePipe inheritable) w_createpipe set_createpipe ;;
  match r with
  | Some ends =>
      modify (set_handles (open_pipe inheritable ends)) ;;; ret (Some (fst ends))
  | None => ret None
  end.

(** [::pipe(fd)]: new descriptors are inherited until marked otherwise. *)
Definition posix_pipe : M World (option (Z * Z)) :=
  r <- native_call N_pipe w_createpipe set_createpipe ;;
  match r with
  | Some ends =>
      modify (set_handles (open_pipe true ends)) ;;; ret (Some (fst ends))
  | None => ret None
  end.

(** [GetLastError()], which is [errno] on the other platform. *)
Definition GetLastError : M World Z :=
  fun w => (Val (w_last_error w), log N_GetLastError w).

(** [LastErrorString()] of builder.cpp: [GetLastError], [FormatMessage]. *)
Definition LastErrorString : M World string :=
  dw <- GetLastError ;;
  fun w => (Val (w_last_error_string w), log (N_FormatMessage dw) w).

(** [details::throw_os_error(function, ec)]: throws only for a nonzero
    code. *)
Definition throw_os_error (function : string) (ec : Z) : M World unit :=
  if ec =? 0 then ret tt
  else
    fun w =>
      (Exc (OSError (function +:+ " failed with code " +:+ pretty ec +:+ ":"
                       +:+ w_last_error_string w)), w).

(** ** pipe.cpp *)

Record PipePair := mkPipePair {
  input : Z;
  output : Z
}.

Section Pipes.
Variable pf : Platform.

Definition PipePair_default : PipePair :=
  mkPipePair (kBadPipeValue pf) (kBadPipeValue pf).

(** [explicit operator bool] of [PipePair]. *)
Definition PipePair_bool (pp : PipePair) : bool :=
  negb (input pp =? output pp).

Definition disown (pp : PipePair) : PipePair := PipePair_default.

Definition pipe_close (handle : Z) : M World bool :=
  match pf with
  | Win32 => CloseHandle handle
  | Posix =>
      if handle =? kBadPipeValue pf then ret false
      else r <- posix_close handle ;; ret (r =? 0)
  end.

Definition PipePair_close (pp : PipePair) : M World PipePair :=
  (if negb (input pp =? kBadPipeValue pf)
   then _ <- pipe_close (input pp) ;; ret tt else ret tt) ;;;
  (if negb (output pp =? kBadPipeValue pf)
   then _ <- pipe_close (output pp) ;; ret tt else ret tt) ;;;
  ret (disown pp).

Definition close_input (pp : PipePair) : M World PipePair :=
  if negb (input pp =? kBadPipeValue pf)
  then _ <- pipe_close (input pp) ;;
       ret (mkPipePair (kBadPipeValue pf) (output pp))
  else ret pp.

Definition close_output (pp : PipePair) : M World PipePair :=
  if negb (output pp =? kBadPipeValue pf)
  then _ <- pipe_close (output pp) ;;
       ret (mkPipePair (input pp) (kBadPipeValue pf))
  else ret pp.

(** [PipePair::operator=(PipePair&&)]: the pair assigned to is closed
    first; the result is the new value of the target, the source is left
    disowned. *)
Definition PipePair_move_assign (this other : PipePair)
    : M World PipePair :=
  noexcept (_ <- PipePair_close this ;; ret other).

Definition pipe_set_inheritable (handle : Z) (inheritable : bool)
    : M World unit :=
  if handle =? kBadPipeValue pf
  then throw (invalid_argument "pipe_set_inheritable: handle is invalid")
  else
    match pf with
    | Win32 =>
        success <- SetHandleInformation handle
                     (if inheritable then HANDLE_FLAG_INHERIT else 0) ;;
        if negb success then throw (OSError "SetHandleInformation failed")
        else ret tt
    | Posix =>
        flags <- fcntl_GETFD handle ;;
        (if flags <? 0
         then ec <- GetLastError ;; throw_os_error "fcntl" ec
         else ret tt) ;;;
        let flags' := if inheritable
                      then Z.land flags (Z.lnot FD_CLOEXEC)
                      else Z.lor flags FD_CLOEXEC in
        result <- fcntl_SETFD handle flags' ;;
        if result <? -1
        then ec <- GetLastError ;; throw_os_error "fcntl" ec
        else ret tt
    end.

Definition pipe_create (inheritable : bool) : M World PipePair :=
  match pf with
  | Win32 =>
      r <- CreatePipe inheritable ;;
      match r with
      | None => throw (OSError "could not create pipe")
      | Some (i, o) => ret (mkPipePair i o)
      end
  | Posix =>
      r <- posix_pipe ;;
      match r with
      | None =>
          ec <- GetLastError ;;
          throw_os_error "pipe" ec ;;;
          ret PipePair_default
      | Some (fd0, fd1) =>
          (if negb inheritable
           then pipe_set_inheritable fd0 false ;;;
                pipe_set_inheritable fd1 false
           else ret tt) ;;;
          ret (mkPipePair fd0 fd1)
      end
  end.

(** [pipe_read(handle, buffer, size)]: the value returned and the bytes
    left in [buffer]. *)
Definition pipe_read (handle : Z) (size : Z) : M World (Z * string) :=
  match pf with
  | Win32 =>
      r <- ReadFile handle (dword size) ;;
      let '(result, bread, buffer) := r in
      ret (if result then bread else -1, buffer)
  | Posix => posix_read handle size
  end.

(** The [do ... while (transfered > 0)] loop of [pipe_read_all]. *)
Fixpoint pipe_read_all_loop (fuel : nat) (handle : Z) (result : string)
    : M World string :=
  match fuel with
  | O => hang
  | S fuel' =>
      r <- pipe_read handle 2048 ;;
      let '(transfered, buf) := r in
      if transfered >? 0
      then pipe_read_all_loop fuel' handle
             (result +:+ String.substring 0 (Z.to_nat transfered) buf)
      else ret result
  end.

(** Every read that keeps the loop going removes at least one byte from
    the pipe, so one more iteration than there are pending bytes is
    enough. *)
Definition pipe_read_all (handle : Z) : M World string :=
  if negb (handle =? kBadPipeValue pf)
  then
    w <- get ;;
    let fuel :=
      match w_handles w !! handle with
      | Some (mkHandle (K_read p) _) => S (pending_bytes p)
      | _ => 1%nat
      end in
    pipe_read_all_loop fuel handle ""
  else ret ""%string.

(** The body of the thread [pipe_ignore_and_close] starts:
    [while (pipe_read(handle, &buffer[0], buffer.size()) >= 0) {}] and
    then [pipe_close(handle)].  [Some tt] when the thread has closed the
    handle, [None] when it is still in its loop after [fuel] reads. *)
Fixpoint ignore_and_close_thread (fuel : nat) (handle : Z)
    : M World (option unit) :=
  match fuel with
  | O => ret None
  | S fuel' =>
      r <- pipe_read handle 1024 ;;
      if fst r >=? 0
      then ignore_and_close_thread fuel' handle
      else _ <- pipe_close handle ;; ret (Some tt)
  end.

Definition pipe_ignore_and_close (handle : Z) : M World unit :=
  if negb (handle =? kBadPipeValue pf)
  then modify (detach (T_ignore_and_close handle))
  else ret tt.

End Pipes.

(** ** builder.h: the data of the process layer *)

Record RunOptions := mkRunOptions {
  ro_cin : PipeVar;
  ro_cout : PipeVar;
  ro_cerr : PipeVar;
  ro_new_process_group : bool;
  ro_create_no_window : bool;
  ro_detached_process : bool;
  ro_cwd : string;
  ro_timeout : Q;
  ro_raise_on_nonzero : bool;
  ro_env : gmap string string
}.

Record Popen := mkPopen {
  cin : Z;
  cout : Z;
  cerr : Z;
  pid : Z;
  returncode : Z;
  args : CommandLine;
  m_soft_kill : bool;
  process_info : PROCESS_INFORMATION
}.

(** [Popen() = default]. *)
Definition Popen_default : Popen :=
  mkPopen (kBadPipeValue Win32) (kBadPipeValue Win32) (kBadPipeValue Win32)
    0 kBadReturnCode [] false PROCESS_INFORMATION_zero.

Definition with_cin (h : Z) (p : Popen) : Popen :=
  mkPopen h (cout p) (cerr p) (pid p) (returncode p) (args p)
    (m_soft_kill p) (process_info p).

Definition with_cout (h : Z) (p : Popen) : Popen :=
  mkPopen (cin p) h (cerr p) (pid p) (returncode p) (args p)
    (m_soft_kill p) (process_info p).

Definition with_cerr (h : Z) (p : Popen) : Popen :=
  mkPopen (cin p) (cout p) h (pid p) (returncode p) (args p)
    (m_soft_kill p) (process_info p).

Definition with_pid (n : Z) (p : Popen) : Popen :=
  mkPopen (cin p) (cout p) (cerr p) n (returncode p) (args p)
    (m_soft_kill p) (process_info p).

Definition with_returncode (c : Z) (p : Popen) : Popen :=
  mkPopen (cin p) (cout p) (cerr p) (pid p) c (args p)
    (m_soft_kill p) (process_info p).

Definition with_args (a : CommandLine) (p : Popen) : Popen :=
  mkPopen (cin p) (cout p) (cerr p) (pid p) (returncode p) a
    (m_soft_kill p) (process_info p).

Definition with_process_info (i : PROCESS_INFORMATION) (p : Popen) : Popen :=
  mkPopen (cin p) (cout p) (cerr p) (pid p) (returncode p) (args p)
    (m_soft_kill p) i.

Record ProcessBuilder := mkProcessBuilder {
  cerr_option : PipeOption;
  cerr_pipe : Z;
  cin_option : PipeOption;
  cin_pipe : Z;
  cout_option : PipeOption;
  cout_pipe : Z;
  new_process_group : bool;
  create_no_window : bool;
  detached_process : bool;
  command : CommandLine;
  env : gmap string string;
  cwd : string
}.

Definition ProcessBuilder_default : ProcessBuilder :=
  mkProcessBuilder PO_inherit (kBadPipeValue Win32)
    PO_inherit (kBadPipeValue Win32) PO_inherit (kBadPipeValue Win32)
    false false false [] ∅ "".

(** ** Native calls on processes (Windows) *)

Definition WAIT_OBJECT_0 : Z := 0.
Definition WAIT_ABANDONED : Z := 128.
Definition WAIT_TIMEOUT : Z := 258.
Definition WAIT_FAILED : Z := 4294967295.
Definition INFINITE : Z := 4294967295.
Definition CTRL_C_EVENT : Z := 0.
Definition CTRL_BREAK_EVENT : Z := 1.
Definition CREATE_NEW_PROCESS_GROUP : Z := 512.
Definition CREATE_UNICODE_ENVIRONMENT : Z := 1024.
Definition STD_INPUT_HANDLE : Z := -10.
Definition STD_OUTPUT_HANDLE : Z := -11.
Definition STD_ERROR_HANDLE : Z := -12.

Definition nl : string := String (ascii_of_nat 10) EmptyString.
Definition dquote : string := String (ascii_of_nat 34) EmptyString.

(** [WaitForSingleObject(handle, ms)] on the handle of the child, a
    [DWORD]: the object is signaled once the child has been terminated,
    otherwise the operating system answers. *)
Definition WaitForSingleObject (h ms : Z) : M World Z :=
  w <- get ;;
  match w_terminated w with
  | Some _ => modify (log (N_WaitForSingleObject h ms)) ;;; ret WAIT_OBJECT_0
  | None =>
      wr <- native_call (N_WaitForSingleObject h ms) w_wait set_wait ;;
      ret (dword wr)
  end.

(** [GetExitCodeProcess(handle, &excode)]: the [int] result and the
    [DWORD] stored in [excode], which for a terminated child is the code
    [TerminateProcess] was given. *)
Definition GetExitCodeProcess (h : Z) : M World (Z * Z) :=
  w <- get ;;
  match w_terminated w with
  | Some code => modify (log (N_GetExitCodeProcess h)) ;;; ret (1, dword code)
  | None =>
      r <- native_call (N_GetExitCodeProcess h) w_exitcode set_exitcode ;;
      ret (fst r, dword (snd r))
  end.

(** [TerminateProcess(handle, code)] on the handle of the child: when it
    succeeds the child ends with exit code [code]. *)
Definition TerminateProcess (h code : Z) : M World bool :=
  ok <- native_call (N_TerminateProcess h code) w_terminate set_terminate ;;
  w <- get ;;
  (match ok, w_terminated w with
   | true, None => modify (set_terminated (Some code))
   | _, _ => ret tt
   end) ;;;
  ret ok.

Definition GenerateConsoleCtrlEvent (event group : Z) : M World bool :=
  native_call (N_GenerateConsoleCtrlEvent event group) w_ctrl set_ctrl.

Definition OpenProcess (id : Z) : M World Z :=
  fun w => (Val (w_open_process w id), log (N_OpenProcess id) w).

Definition GetStdHandle (n : Z) : M World Z :=
  fun w => (Val (w_std_handle w n), w).

Definition CreateProcess (a : CreateProcessArgs)
    : M World (bool * PROCESS_INFORMATION) :=
  native_call (N_CreateProcess a) w_createprocess set_createprocess.

(** ** builder.cpp: the live process *)

Abbreviation Method A := (M (Popen * World) A).

Definition this : Method Popen := fun s => (Val (fst s), s).

Definition assign (f : Popen -> Popen) : Method unit :=
  fun s => (Val tt, (f (fst s), snd s)).

(** Call a method on the object [o]; the object comes back with the
    result. *)
Definition call_on {A} (o : Popen) (m : Method A) : M World (A * Popen) :=
  fun w =>
    match m (o, w) with
    | (Val a, (o', w')) => (Val (a, o'), w')
    | (Exc e, (_, w')) => (Exc e, w')
    | (Hang, (_, w')) => (Hang, w')
    | (Abort, (_, w')) => (Abort, w')
    end.

(** A [double] that is finite is the rational it denotes.  [binary64 x] is
    the [double] nearest to the rational [x], a tie going to the even
    significand: the rounding of a literal and of the result of an
    arithmetic operation (53 bits of significand, the unit in the last
    place not below [2^-1074]).  A [double] is its own rounding.  Beyond
    the largest [double] the rounding is to infinity, which is not
    represented: such values are far outside the range of [DWORD]. *)

(** [x * 2^e]. *)
Definition scale2 (x : Q) (e : Z) : Q :=
  if 0 <=? e then QArith_base.Qmake (QArith_base.Qnum x * 2 ^ e)
                    (QArith_base.Qden x)
  else QArith_base.Qmake (QArith_base.Qnum x)
         (QArith_base.Qden x * Z.to_pos (2 ^ (- e))).

(** The exponent of the unit in the last place of the [double]s around
    [x > 0]. *)
Definition ulp_exponent (x : Q) : Z :=
  let e0 := Z.log2 (QArith_base.Qnum x) - Z.log2 (Z.pos (QArith_base.Qden x)) in
  let e := if QArith_base.Qle_bool (QArith_base.inject_Z 1) (scale2 x (- e0))
           then e0 else e0 - 1 in
  Z.max (e - 52) (-1074).

(** The integer nearest to [x >= 0], a tie going to the even one. *)
Definition round_half_even (x : Q) : Z :=
  let n := QArith_base.Qnum x in
  let d := Z.pos (QArith_base.Qden x) in
  let f := n / d in
  match 2 * (n mod d) ?= d with
  | Lt => f
  | Gt => f + 1
  | Eq => if Z.even f then f else f + 1
  end.

Definition binary64 (x : Q) : Q :=
  match QArith_base.Qnum x with
  | Z0 => QArith_base.inject_Z 0
  | Zpos _ =>
      let e := ulp_exponent x in
      scale2 (QArith_base.inject_Z (round_half_even (scale2 x (- e)))) e
  | Zneg _ =>
      let a := QArith_base.Qopp x in
      let e := ulp_exponent a in
      scale2 (QArith_base.inject_Z (- round_half_even (scale2 a (- e)))) e
  end.

(** The conversion of a [double] to an integer type discards the
    fractional part. *)
Definition truncate (x : Q) : Z :=
  Z.quot (QArith_base.Qnum x) (Z.pos (QArith_base.Qden x)).

(** The [double] that [wait] converts:
    [timeout < 0.0F ? INFINITE : timeout * 1000.0]. *)
Definition timeout_product (timeout : Q) : Q :=
  let t := binary64 timeout in
  if negb (QArith_base.Qle_bool (QArith_base.inject_Z 0) t)
  then QArith_base.inject_Z INFINITE
  else binary64 (QArith_base.Qmult t (QArith_base.inject_Z 1000)).

(** The [DWORD] of milliseconds [wait] computes from its [double]:
    [static_cast<DWORD>(timeout < 0.0F ? INFINITE : timeout * 1000.0)].
    The conversion is defined by the language when the truncated value is
    in the range of [DWORD] ([timeout_in_range]); outside of it the value
    here is the one modulo [2^32]. *)
Definition timeout_ms (timeout : Q) : Z :=
  dword (truncate (timeout_product timeout)).

Definition timeout_in_range (timeout : Q) : bool :=
  truncate (timeout_product timeout) <? 2 ^ 32.

(** The part [poll] and [wait] share once [WaitForSingleObject] has
    answered something other than [WAIT_TIMEOUT]. *)
Definition after_wait (wr : Z) : Method unit :=
  if wr =? WAIT_ABANDONED then
    error <- liftW GetLastError ;;
    throw (OSError ("WAIT_ABANDONED error:" +:+ pretty error))
  else if wr =? WAIT_FAILED then
    error <- liftW GetLastError ;;
    str <- liftW LastErrorString ;;
    throw (OSError ("WAIT_FAILED error:" +:+ pretty error +:+ ":" +:+ str))
  else if negb (wr =? WAIT_OBJECT_0) then
    throw (OSError ("WaitForSingleObject failed: " +:+ pretty wr))
  else
    p <- this ;;
    r <- liftW (GetExitCodeProcess (hProcess (process_info p))) ;;
    let '(ret_, excode) := r in
    if ret_ =? 0 then
      error <- liftW GetLastError ;;
      str <- liftW LastErrorString ;;
      throw (OSError ("GetExitCodeProcess failed: " +:+ pretty error
                        +:+ ":" +:+ str))
    else assign (with_returncode excode).

Definition poll : Method bool :=
  p <- this ;;
  if negb (returncode p =? kBadReturnCode) then ret true
  else
    wr <- liftW (WaitForSingleObject (hProcess (process_info p)) 0) ;;
    if wr =? WAIT_TIMEOUT then ret false
    else after_wait wr ;;; ret true.

Definition wait (timeout : Q) : Method Z :=
  p <- this ;;
  (if returncode p =? kBadReturnCode then
     let ms := timeout_ms timeout in
     wr <- liftW (WaitForSingleObject (hProcess (process_info p)) ms) ;;
     if wr =? WAIT_TIMEOUT then
       throw (TimeoutExpired ("timeout of " +:+ pretty ms +:+ " expired")
                [] None "" "")
     else after_wait wr
   else ret tt) ;;;
  p' <- this ;;
  ret (returncode p').

(** The default argument of [wait]: [-1.0F], wait for ever. *)
Definition wait_default : Q := QArith_base.inject_Z (-1).

(** The loop [do { ... } while (Process32Next(hSnapshot, &pe32))] of
    [GetChildProcessIDs]: [pe32] is the entry at hand, [rest] the entries
    the snapshot still holds; [Process32Next] fails when there is none. *)
Fixpoint snapshot_loop (hSnapshot parentProcessID : Z) (pe32 : Z * Z)
    (rest : list (Z * Z)) (childProcessIDs : list Z) : M World (list Z) :=
  let childProcessIDs :=
    if snd pe32 =? parentProcessID then childProcessIDs ++ [fst pe32]
    else childProcessIDs in
  modify (log (N_Process32Next hSnapshot)) ;;;
  match rest with
  | [] => ret childProcessIDs
  | next :: rest' =>
      snapshot_loop hSnapshot parentProcessID next rest' childProcessIDs
  end.

(** [GetChildProcessIDs]: the processes of the snapshot whose parent is
    [parentProcessID]; none when the snapshot cannot be taken. *)
Definition GetChildProcessIDs (parentProcessID : Z) : M World (list Z) :=
  w <- get ;;
  modify (log N_CreateToolhelp32Snapshot) ;;;
  match w_snapshot w with
  | None => ret []
  | Some (hSnapshot, entries) =>
      modify (log (N_Process32First hSnapshot)) ;;;
      childProcessIDs <-
        match entries with
        | [] => ret []
        | first :: rest =>
            snapshot_loop hSnapshot parentProcessID first rest []
        end ;;
      _ <- CloseHandle hSnapshot ;;
      ret childProcessIDs
  end.

Definition TerminateProcessByID (processID : Z) : M World unit :=
  h <- OpenProcess processID ;;
  if negb (h =? 0) then
    modify (log (N_TerminateProcess h 0)) ;;;
    _ <- CloseHandle h ;;
    ret tt
  else ret tt.

Fixpoint for_each {A} (f : A -> M World unit) (l : list A) : M World unit :=
  match l with
  | [] => ret tt
  | x :: l' => f x ;;; for_each f l'
  end.

Definition send_signal (signum : SigNum) : Method bool :=
  p <- this ;;
  result <-
    (if negb (returncode p =? kBadReturnCode) then ret false
     else if SigNum_eqb Win32 signum PSIGKILL then
       ids <- liftW (GetChildProcessIDs (dwProcessId (process_info p))) ;;
       result <- liftW (TerminateProcess (hProcess (process_info p)) 137) ;;
       liftW (for_each TerminateProcessByID ids) ;;;
       ret result
     else if SigNum_eqb Win32 signum PSIGINT then
       liftW (GenerateConsoleCtrlEvent CTRL_C_EVENT 0)
     else
       liftW (GenerateConsoleCtrlEvent CTRL_BREAK_EVENT (pid p))) ;;
  (if negb result then
     str <- liftW LastErrorString ;;
     liftW (modify (print ("error: " +:+ str +:+ nl)))
   else ret tt) ;;;
  ret result.

Definition terminate : Method bool := send_signal PSIGTERM.

Definition kill : Method bool :=
  p <- this ;;
  if m_soft_kill p then send_signal PSIGTERM else send_signal PSIGKILL.

Definition ignore_cout : Method unit :=
  p <- this ;;
  liftW (pipe_ignore_and_close Win32 (cout p)) ;;;
  assign (with_cout (kBadPipeValue Win32)).

Definition ignore_cerr : Method unit :=
  p <- this ;;
  liftW (pipe_ignore_and_close Win32 (cerr p)) ;;;
  assign (with_cerr (kBadPipeValue Win32)).

Definition ignore_output : Method unit :=
  ignore_cout ;;; ignore_cerr.

Definition close_cin : Method unit :=
  p <- this ;;
  if negb (cin p =? kBadPipeValue Win32) then
    _ <- liftW (pipe_close Win32 (cin p)) ;;
    assign (with_cin (kBadPipeValue Win32))
  else ret tt.

Definition close : Method unit :=
  close_cin ;;;
  p <- this ;;
  (if negb (cout p =? kBadPipeValue Win32) then
     _ <- liftW (pipe_close Win32 (cout p)) ;;
     assign (with_cout (kBadPipeValue Win32))
   else ret tt) ;;;
  p <- this ;;
  (if negb (cerr p =? kBadPipeValue Win32) then
     _ <- liftW (pipe_close Win32 (cerr p)) ;;
     assign (with_cerr (kBadPipeValue Win32))
   else ret tt) ;;;
  p <- this ;;
  (if pid p >? 0 then
     _ <- wait wait_default ;;
     _ <- liftW (CloseHandle (hProcess (process_info p))) ;;
     _ <- liftW (CloseHandle (hThread (process_info p))) ;;
     ret tt
   else ret tt) ;;;
  assign (with_pid 0) ;;;
  assign (with_returncode kBadReturnCode) ;;;
  assign (with_args []).

(** [Popen::~Popen()]. *)
Definition Popen_destroy : Method unit := noexcept close.

(** [Popen::operator=(Popen&&)]: [this] is closed and takes over the
    members of [other]; the value returned is [other] as it is left. *)
Definition Popen_move_assign (other : Popen) : Method Popen :=
  noexcept
    (close ;;;
     assign (fun _ => other) ;;;
     ret (mkPopen (kBadPipeValue Win32) (kBadPipeValue Win32)
            (kBadPipeValue Win32) 0 kBadReturnCode [] (m_soft_kill other)
            PROCESS_INFORMATION_zero)).

(** ** builder.cpp and builder_windows.cpp: the process builder *)

(** [find_program_in_path] of shellutils.cpp: the resolved path, empty when
    there is none.  What it finds depends on the file system, on PATH and
    on its cache: the answer is the world's. *)
Definition find_program_in_path (name : string) : M World string :=
  fun w => (Val (w_find_program w name), log (N_find_program_in_path name) w).

(** [g_startupInfoInit] is initialised to [false] and never assigned. *)
Definition g_startupInfoInit : bool := false.

Definition init_startup_info : M World unit :=
  if g_startupInfoInit then modify (log N_GetStartupInfo) else ret tt.

Definition disable_inherit (handle : Z) : M World bool :=
  SetHandleInformation handle 0.

(** The loop of [ProcessBuilder::windows_args(cmd)]; [first] is [i == 0]. *)
Fixpoint windows_args_loop (escape : string -> string) (first : bool)
    (cmd : CommandLine) (acc : string) : string :=
  match cmd with
  | [] => acc
  | a :: rest =>
      windows_args_loop escape false rest
        ((if first then acc else acc +:+ " ") +:+ escape a)
  end.

Definition windows_args (cmd : CommandLine) : M World string :=
  fun w => (Val (windows_args_loop (w_escape_shell_arg w) true cmd ""), w).

Definition windows_command (b : ProcessBuilder) : string :=
  List.hd ""%string (command b).

Definition create_env_block (m : gmap string string) : M World (list Z) :=
  fun w => (Val (w_create_env_block w m), w).

(** The local objects of [run_command] that have destructors.  (The fourth
    pair, [closed_pair], is never assigned: it stays disowned.) *)
Record RCLocals := mkRCLocals {
  l_process : Popen;
  l_cin_pair : PipePair;
  l_cout_pair : PipePair;
  l_cerr_pair : PipePair
}.

Definition RCLocals_init : RCLocals :=
  mkRCLocals Popen_default (PipePair_default Win32) (PipePair_default Win32)
    (PipePair_default Win32).

Abbreviation Local A := (M (RCLocals * World) A).

Definition locals : Local RCLocals := fun s => (Val (fst s), s).

Definition set_process (f : Popen -> Popen) : Local unit :=
  fun s =>
    let l := fst s in
    (Val tt,
     (mkRCLocals (f (l_process l)) (l_cin_pair l) (l_cout_pair l)
        (l_cerr_pair l), snd s)).

Definition set_cin_pair (pp : PipePair) : Local unit :=
  fun s =>
    let l := fst s in
    (Val tt,
     (mkRCLocals (l_process l) pp (l_cout_pair l) (l_cerr_pair l), snd s)).

Definition set_cout_pair (pp : PipePair) : Local unit :=
  fun s =>
    let l := fst s in
    (Val tt,
     (mkRCLocals (l_process l) (l_cin_pair l) pp (l_cerr_pair l), snd s)).

Definition set_cerr_pair (pp : PipePair) : Local unit :=
  fun s =>
    let l := fst s in
    (Val tt,
     (mkRCLocals (l_process l) (l_cin_pair l) (l_cout_pair l) pp, snd s)).

(** [pair = pipe_create()]: move assignment from the new pair. *)
Definition assign_new_pair (current : PipePair) : M World PipePair :=
  pp <- pipe_create Win32 true ;;
  PipePair_move_assign Win32 current pp.

(** The destructors that run when [run_command] is left: the pairs in
    reverse order of declaration, then [process]. *)
Definition run_command_destructors : Local unit :=
  l <- locals ;;
  _ <- liftW (PipePair_close Win32 (l_cerr_pair l)) ;;
  _ <- liftW (PipePair_close Win32 (l_cout_pair l)) ;;
  _ <- liftW (PipePair_close Win32 (l_cin_pair l)) ;;
  r <- liftW (call_on (l_process l) Popen_destroy) ;;
  set_process (fun _ => snd r).

Definition run_command_body (b : ProcessBuilder) (cmdline : CommandLine)
    (program : string) : Local Popen :=
  hStdInput0 <- liftW (GetStdHandle STD_INPUT_HANDLE) ;;
  hStdOutput0 <- liftW (GetStdHandle STD_OUTPUT_HANDLE) ;;
  hStdError0 <- liftW (GetStdHandle STD_ERROR_HANDLE) ;;
  hStdInput <-
    (if PipeOption_eqb (cin_option b) PO_close then
       l <- locals ;;
       pp <- liftW (assign_new_pair (l_cin_pair l)) ;;
       set_cin_pair pp ;;;
       _ <- liftW (disable_inherit (output pp)) ;;
       ret (input pp)
     else if PipeOption_eqb (cin_option b) PO_specific then
       liftW (pipe_set_inheritable Win32 (cin_pipe b) true) ;;;
       ret (cin_pipe b)
     else if PipeOption_eqb (cin_option b) PO_pipe then
       l <- locals ;;
       pp <- liftW (assign_new_pair (l_cin_pair l)) ;;
       set_cin_pair pp ;;;
       set_process (with_cin (output pp)) ;;;
       _ <- liftW (disable_inherit (output pp)) ;;
       ret (input pp)
     else ret hStdInput0) ;;
  hStdOutput1 <-
    (if PipeOption_eqb (cout_option b) PO_close then
       l <- locals ;;
       pp <- liftW (assign_new_pair (l_cout_pair l)) ;;
       set_cout_pair pp ;;;
       _ <- liftW (disable_inherit (input pp)) ;;
       ret (output pp)
     else if PipeOption_eqb (cout_option b) PO_pipe then
       l <- locals ;;
       pp <- liftW (assign_new_pair (l_cout_pair l)) ;;
       set_cout_pair pp ;;;
       set_process (with_cout (input pp)) ;;;
       _ <- liftW (disable_inherit (input pp)) ;;
       ret (output pp)
     else if PipeOption_eqb (cout_option b) PO_specific then
       liftW (pipe_set_inheritable Win32 (cout_pipe b) true) ;;;
       ret (cout_pipe b)
     else ret hStdOutput0) ;;
  hStdError <-
    (if PipeOption_eqb (cerr_option b) PO_close then
       l <- locals ;;
       pp <- liftW (assign_new_pair (l_cerr_pair l)) ;;
       set_cerr_pair pp ;;;
       _ <- liftW (disable_inherit (input pp)) ;;
       ret (output pp)
     else if PipeOption_eqb (cerr_option b) PO_pipe then
       l <- locals ;;
       pp <- liftW (assign_new_pair (l_cerr_pair l)) ;;
       set_cerr_pair pp ;;;
       set_process (with_cerr (input pp)) ;;;
       _ <- liftW (disable_inherit (input pp)) ;;
       ret (output pp)
     else if PipeOption_eqb (cerr_option b) PO_cout then
       ret hStdOutput1
     else if PipeOption_eqb (cerr_option b) PO_specific then
       liftW (pipe_set_inheritable Win32 (cerr_pipe b) true) ;;;
       ret (cerr_pipe b)
     else ret hStdError0) ;;
  let hStdOutput :=
    if PipeOption_eqb (cout_option b) PO_cerr then hStdError
    else hStdOutput1 in
  let l_cwd := if String.eqb (cwd b) "" then None else Some (cwd b) in
  args_ <- liftW (windows_args cmdline) ;;
  l_env <-
    (if bool_decide (env b = ∅) then ret None
     else envblock <- liftW (create_env_block (env b)) ;;
          ret (Some envblock)) ;;
  let process_flags :=
    if new_process_group b
    then Z.lor CREATE_UNICODE_ENVIRONMENT CREATE_NEW_PROCESS_GROUP
    else CREATE_UNICODE_ENVIRONMENT in
  r <- liftW (CreateProcess
                (mkCreateProcessArgs program args_ process_flags l_env l_cwd
                   hStdInput hStdOutput hStdError)) ;;
  let '(bSuccess, piProcInfo) := r in
  set_process (with_process_info piProcInfo) ;;;
  set_process (with_pid (dwProcessId piProcInfo)) ;;;
  l <- locals ;;
  (if PipePair_bool (l_cin_pair l)
   then pp <- liftW (close_input Win32 (l_cin_pair l)) ;; set_cin_pair pp
   else ret tt) ;;;
  (if PipePair_bool (l_cout_pair l)
   then pp <- liftW (close_output Win32 (l_cout_pair l)) ;; set_cout_pair pp
   else ret tt) ;;;
  (if PipePair_bool (l_cerr_pair l)
   then pp <- liftW (close_output Win32 (l_cerr_pair l)) ;; set_cerr_pair pp
   else ret tt) ;;;
  l <- locals ;;
  (if PipeOption_eqb (cin_option b) PO_close
   then pp <- liftW (PipePair_close Win32 (l_cin_pair l)) ;; set_cin_pair pp
   else ret tt) ;;;
  (if PipeOption_eqb (cout_option b) PO_close
   then pp <- liftW (PipePair_close Win32 (l_cout_pair l)) ;; set_cout_pair pp
   else ret tt) ;;;
  (if PipeOption_eqb (cerr_option b) PO_close
   then pp <- liftW (PipePair_close Win32 (l_cerr_pair l)) ;; set_cerr_pair pp
   else ret tt) ;;;
  l <- locals ;;
  set_cin_pair (disown Win32 (l_cin_pair l)) ;;;
  set_cout_pair (disown Win32 (l_cout_pair l)) ;;;
  set_cerr_pair (disown Win32 (l_cerr_pair l)) ;;;
  set_process (with_args cmdline) ;;;
  if negb bSuccess then
    str <- liftW LastErrorString ;;
    throw (SpawnError ("CreateProcess failed: " +:+ str))
  else
    (* [return process;]: the local is moved out and left empty. *)
    l <- locals ;;
    set_process (fun _ => Popen_default) ;;;
    ret (l_process l).

(** [find_program], [ProcessBuilder::run_command], [Popen::init], the
    constructor of [Popen] and [run] call each other: [run_command]
    resolves its program with [find_program], and [find_program] starts a
    process with [run] for the name python3.  The functions from
    [run_command] to [run] are therefore written for the resolver
    [find_program] of their call to it, which is given further down. *)
Section Resolver.
Variable find_program : string -> M World string.

(** [ProcessBuilder::run_command(cmdline)] (builder_windows.cpp);
    [cmdline[0U]] is the first element. *)
Definition run_command_with (b : ProcessBuilder) (cmdline : CommandLine)
    : M World Popen :=
  program <- find_program (List.hd ""%string cmdline) ;;
  if String.eqb program "" then
    throw (CommandNotFoundError
             ("Command " +:+ dquote +:+ List.hd ""%string cmdline +:+ dquote
                +:+ " not found."))
  else
    init_startup_info ;;;
    fun w =>
      match scoped (run_command_body b cmdline program)
              run_command_destructors (RCLocals_init, w) with
      | (r, (_, w')) => (r, w')
      end.

End Resolver.

(** ** builder.cpp: stream pumps, construction and the run facade *)

(** The five overloads of [pipe_thread]: each starts a detached thread. *)
Definition pipe_thread_ostream (input_ : Z) (output_ : Z) : M World unit :=
  modify (detach (T_pipe_to_ostream input_ output_)).

Definition pipe_thread_file_out (input_ : Z) (output_ : Z) : M World unit :=
  modify (detach (T_pipe_to_file input_ output_)).

Definition pipe_thread_file_in (input_ : Z) (output_ : Z) (bautoclose : bool)
    : M World unit :=
  modify (detach (T_file_to_pipe input_ output_ bautoclose)).

Definition pipe_thread_string (input_ : string) (output_ : Z)
    (bautoclose : bool) : M World unit :=
  modify (detach (T_string_to_pipe input_ output_ bautoclose)).

Definition pipe_thread_istream (input_ : Z) (output_ : Z) (bautoclose : bool)
    : M World unit :=
  modify (detach (T_istream_to_pipe input_ output_ bautoclose)).

(** [setup_redirect_stream(PipeHandle input, PipeVar& output)]. *)
Definition setup_redirect_stream_out (input_ : Z) (output_ : PipeVar)
    : M World unit :=
  match PipeVar_index output_ with
  | PVI_istream => throw (domain_error "expected something to output to")
  | _ =>
      match output_ with
      | PV_ostream ptr => pipe_thread_ostream input_ ptr
      | PV_file ptr => pipe_thread_file_out input_ ptr
      | _ => ret tt
      end
  end.

(** [setup_redirect_stream(PipeVar& input, PipeHandle output)]. *)
Definition setup_redirect_stream_in (input_ : PipeVar) (output_ : Z)
    : M World bool :=
  match PipeVar_index input_ with
  | PVI_ostream =>
      throw (domain_error "reading from std::ostream doesn't make sense")
  | _ =>
      match input_ with
      | PV_string s => pipe_thread_string s output_ true ;;; ret true
      | PV_istream ptr => pipe_thread_istream ptr output_ true ;;; ret true
      | PV_file ptr => pipe_thread_file_in ptr output_ true ;;; ret true
      | _ => ret false
      end
  end.

(** The lambda [setPipeOption] of [Popen::init]: the new values of the
    builder's [pipe] and [pipeOpt].  [std::get<PipeHandle>] throws
    [std::bad_variant_access] when the variant holds something else. *)
Definition setPipeOption {S} (pipe : Z) (pipeVar : PipeVar) (errMsg : string)
    : M S (Z * PipeOption) :=
  let pipeOpt := get_pipe_option pipeVar in
  if PipeOption_eqb pipeOpt PO_specific then
    match pipeVar with
    | PV_handle h =>
        if h =? kBadPipeValue Win32 then throw (invalid_argument errMsg)
        else ret (h, pipeOpt)
    | _ => throw bad_variant_access
    end
  else ret (pipe, pipeOpt).

(** The builder [Popen::init] configures before it spawns. *)
Definition init_builder {S} (options : RunOptions) : M S ProcessBuilder :=
  let b := ProcessBuilder_default in
  ci <- setPipeOption (cin_pipe b) (ro_cin options) "Bad pipe value for cin" ;;
  co <- setPipeOption (cout_pipe b) (ro_cout options)
          "Bad pipe value for cout" ;;
  ce <- setPipeOption (cerr_pipe b) (ro_cerr options)
          "Bad pipe value for cerr" ;;
  ret (mkProcessBuilder (snd ce) (fst ce) (snd ci) (fst ci) (snd co) (fst co)
         (ro_new_process_group options) (ro_create_no_window options)
         (ro_detached_process options) (command b) (ro_env options)
         (ro_cwd options)).

Section ResolverRun.
Variable find_program : string -> M World string.

Definition init_with (command_ : CommandLine) (options : RunOptions)
    : Method unit :=
  builder <- init_builder options ;;
  (* [*this = builder.run_command(command);] and the end of the temporary *)
  tmp <- liftW (run_command_with find_program builder command_) ;;
  tmp' <- Popen_move_assign tmp ;;
  _ <- liftW (call_on tmp' Popen_destroy) ;;
  p <- this ;;
  fed <- liftW (setup_redirect_stream_in (ro_cin options) (cin p)) ;;
  (if fed then assign (with_cin (kBadPipeValue Win32)) else ret tt) ;;;
  p <- this ;;
  liftW (setup_redirect_stream_out (cout p) (ro_cout options)) ;;;
  liftW (setup_redirect_stream_out (cerr p) (ro_cerr options)).

(** [Popen::Popen(CommandLine, const RunOptions&)].  When [init] throws the
    object was never constructed, so no destructor runs for it. *)
Definition Popen_ctor_with (command_ : CommandLine) (options : RunOptions)
    : M World Popen :=
  r <- call_on Popen_default (init_with command_ options) ;;
  ret (snd r).

(** The body of the threads [cout_thread] and [cerr_thread] of [run], for
    the member read by [member] and written by [with_member]; the value is
    what the thread leaves in [completed.cout] or [completed.cerr].  The two
    threads work on different pipes and different members and are joined
    before [run] goes on, so they are run one after the other. *)
Definition capture_thread (member : Popen -> Z)
    (with_member : Z -> Popen -> Popen) : Method string :=
  p <- this ;;
  if negb (member p =? kBadPipeValue Win32) then
    data <- try_catch (liftW (pipe_read_all Win32 (member p)))
              (fun _ => true) (fun _ => ret ""%string) ;;
    p <- this ;;
    _ <- liftW (pipe_close Win32 (member p)) ;;
    assign (with_member (kBadPipeValue Win32)) ;;;
    ret data
  else ret ""%string.

(** [run(Popen& popen, bool check)].  [popen.args.begin() + 1] is the
    command line without its first element, [popen.args[0U]] the first. *)
Definition run_Popen (check : bool) : Method CompletedProcess :=
  completed_cout <- capture_thread cout with_cout ;;
  completed_cerr <- capture_thread cerr with_cerr ;;
  _ <- wait wait_default ;;
  popen <- this ;;
  let completed :=
    mkCompleted (List.tl (args popen)) (returncode popen) completed_cout
      completed_cerr in
  if check then
    throw (CalledProcessError
             ("failed to execute " +:+ List.hd ""%string (args popen))
             (args popen) (cp_returncode completed) (cp_cout completed)
             (cp_cerr completed))
  else ret completed.

Definition run_body (command_ : CommandLine) (options : RunOptions)
    : Method CompletedProcess :=
  completed_cout <- capture_thread cout with_cout ;;
  completed_cerr <- capture_thread cerr with_cerr ;;
  try_catch (_ <- wait (ro_timeout options) ;; ret tt)
    is_TimeoutExpired
    (fun _ =>
       _ <- send_signal PSIGTERM ;;
       _ <- wait wait_default ;;
       throw (TimeoutExpired "subprocess::run timeout reached" command_
                (Some (ro_timeout options)) completed_cout completed_cerr)) ;;;
  popen <- this ;;
  let completed :=
    mkCompleted command_ (returncode popen) completed_cout completed_cerr in
  if ro_raise_on_nonzero options && negb (cp_returncode completed =? 0) then
    throw (CalledProcessError
             ("failed to execute " +:+ List.hd ""%string command_)
             command_ (cp_returncode completed) (cp_cout completed)
             (cp_cerr completed))
  else ret completed.

(** [run(CommandLine command, const RunOptions& options)]; the local
    [popen] is destroyed when the function is left. *)
Definition run_with (command_ : CommandLine) (options : RunOptions)
    : M World CompletedProcess :=
  popen <- Popen_ctor_with command_ options ;;
  fun w =>
    match scoped (run_body command_ options) Popen_destroy (popen, w) with
    | (r, (_, w')) => (r, w')
    end.

End ResolverRun.

(** ** shellutils.cpp: [find_program]

    [is_python3(path)] runs [path --version] with its output captured, the
    error stream going where the output goes, and looks for "3." in what
    the process wrote.  The [run_command] of that run resolves [path]
    with [find_program] again: a [path] other than python3 goes to
    [find_program_in_path], and for the path python3 the calls would
    nest without end. *)
Definition find_program_nested (name : string) : M World string :=
  if String.eqb name "python3" then hang else find_program_in_path name.

(** [{.cout = PipeOption::pipe, .cerr = PipeOption::cout}], the other
    members as [RunOptions] initialises them. *)
Definition is_python3_options : RunOptions :=
  mkRunOptions (PV_option PO_inherit) (PV_option PO_pipe) (PV_option PO_cout)
    false false false "" (QArith_base.inject_Z (-1)) false ∅.

(** [s.find(sub) != std::string::npos]. *)
Definition found_in (sub s : string) : bool :=
  match String.index 0 sub s with
  | Some _ => true
  | None => false
  end.

Definition is_python3 (path : string) : M World bool :=
  process <- run_with find_program_nested [path; "--version"%string]
               is_python3_options ;;
  ret (found_in "3." (cp_cout process)).

(** [find_program(name)]: every name but python3 is looked up in the
    path; for python3 the program found for python is taken when it is a
    Python 3. *)
Definition find_program (name : string) : M World string :=
  if negb (String.eqb name "python3") then find_program_in_path name
  else
    result <- find_program_in_path "python" ;;
    python3 <- is_python3 result ;;
    ret (if python3 then result else ""%string).

Definition run_command : ProcessBuilder -> CommandLine -> M World Popen :=
  run_command_with find_program.

(** [ProcessBuilder::run()]. *)
Definition ProcessBuilder_run (b : ProcessBuilder) : M World Popen :=
  run_command b (command b).

Definition init : CommandLine -> RunOptions -> Method unit :=
  init_with find_program.

Definition Popen_ctor : CommandLine -> RunOptions -> M World Popen :=
  Popen_ctor_with find_program.

Definition run : CommandLine -> RunOptions -> M World CompletedProcess :=
  run_with find_program.

(** ** Vocabulary of the properties *)

(** What [send_signal] does when it has nothing to deliver or the delivery
    failed: [LastErrorString()] and a line on std::cout. *)
Definition report_failure (w : World) : World :=
  print ("error: " +:+ w_last_error_string w +:+ nl)
    (log (N_FormatMessage (w_last_error w)) (log N_GetLastError w)).


(** End of stream: nothing is left to read and the writers have closed. *)
Definition at_eof (pf : Platform) (w : World) (h : Z) : bool :=
  match w_handles w !! h with
  | Some (mkHandle (K_read p) _) =>
      match pf with
      | Win32 => match p_chunks p with [] => true | _ => false end
      | Posix => (pending_bytes p =? 0)%nat
      end && p_writer_closed p
  | _ => false
  end.


(** The bytes still to be read from [handle]. *)
Definition bytes_left (w : World) (h : Z) : nat :=
  match w_handles w !! h with
  | Some (mkHandle (K_read p) _) => pending_bytes p
  | _ => 0%nat
  end.


(** The convention "termination by signal N is reported as -N" for the
    kill signal on the Windows process layer. *)
Definition kill_reports_negative_signal : Prop :=
  forall p w w1 timeout c s2,
    returncode p = kBadReturnCode ->
    send_signal PSIGKILL (p, w) = (Val true, (p, w1)) ->
    wait timeout (p, w1) = (Val c, s2) ->
    c = - SigNum_value Win32 PSIGKILL.


(** The native calls that create a pipe or attempt a spawn. *)
Definition is_allocation (c : NativeCall) : bool :=
  match c with
  | N_CreatePipe _ | N_pipe | N_CreateProcess _ => true
  | _ => false
  end.

(** "A spawn that fails with the not-found error has attempted no native
    spawn and allocated no pipe." *)
Definition not_found_allocates_nothing : Prop :=
  forall b cmdline w msg w',
    run_command b cmdline w = (Exc (CommandNotFoundError msg), w') ->
    exists tr,
      w_trace w' = w_trace w ++ tr
      /\ Forall (fun c => is_allocation c = false) tr.

(** "The snapshot's command line is the command minus the executable." *)
Definition snapshot_drops_executable : Prop :=
  (forall check s c s',
     run_Popen check s = (Val c, s') -> cp_args c = List.tl (args (fst s)))
  /\ (forall command_ options w c w',
        run command_ options w = (Val c, w') ->
        cp_args c = List.tl command_).

(** A stream configured with an explicit handle that is the bad-pipe
    sentinel, and a stream configured with the bare enumerator
    [PipeOption::specific]. *)
Definition bad_handle (v : PipeVar) : Prop :=
  v = PV_handle (kBadPipeValue Win32).

Definition bare_specific (v : PipeVar) : Prop :=
  v = PV_option PO_specific.

(** "A bad explicit handle on any stream makes the constructor throw
    std::invalid_argument." *)
Definition bad_handle_is_invalid_argument : Prop :=
  forall command_ options w,
    bad_handle (ro_cin options) \/ bad_handle (ro_cout options)
    \/ bad_handle (ro_cerr options) ->
    exists msg w',
      Popen_ctor command_ options w = (Exc (invalid_argument msg), w').

(** ** Concrete inputs *)

Definition ex_process_info : PROCESS_INFORMATION :=
  mkProcInfo 100 101 4242 4243.

(** A world with no open handle in which no native call has been made and
    none is answered yet; [find_program_in_path] resolves every name. *)
Definition ex_world : World :=
  mkWorld ∅ None [] [] [] [] [] []
    (fun name => "C:/bin/" +:+ name) (fun arg => arg) (fun _ => [])
    (fun n => n) None (fun _ => 0) 5 "Access is denied." [] [] [].

Definition ex_pipe (chunks : list string) (closed : bool) (h : Z) (w : World)
    : World :=
  set_handles (insert h (mkHandle (K_read (mkPipe chunks closed)) false)) w.

(** A running child with its stdout and stderr captured on the handles 20
    and 30. *)
Definition ex_popen : Popen :=
  mkPopen 0 20 30 4242 kBadReturnCode ["echo"; "hi"]%string false
    ex_process_info.

(** The same child with nothing captured. *)
Definition ex_popen_plain : Popen :=
  mkPopen 0 0 0 4242 kBadReturnCode ["sleep"; "3"]%string false
    ex_process_info.

(** The child writes "hi" to stdout and nothing to stderr, closes both and
    exits with code 0. *)
Definition ex_world_exit0 : World :=
  set_exitcode [(1, 0)]
    (set_wait [WAIT_OBJECT_0]
       (ex_pipe [] true 30 (ex_pipe ["hi"%string] true 20 ex_world))).

Definition ex_options (cin_ cout_ cerr_ : PipeVar) (timeout : Q)
    (raise : bool) : RunOptions :=
  mkRunOptions cin_ cout_ cerr_ false false false "" timeout raise ∅.

(** [run({"echo", "hi"}, {.cout = pipe, .cerr = pipe})] on a world where
    the spawn succeeds and the child behaves as above. *)
Definition ex_world_spawn_exit0 : World :=
  set_createpipe [Some (20, 21, mkPipe ["hi"%string] true);
                  Some (30, 31, mkPipe [] true)]
    (set_createprocess [(true, ex_process_info)]
       (set_exitcode [(1, 0)] (set_wait [WAIT_OBJECT_0] ex_world))).

(** [run({"sleep", "3"}, {.timeout = 1})]: the first wait times out, the
    console event is delivered and the child then ends. *)
Definition ex_world_spawn_timeout : World :=
  set_createprocess [(true, ex_process_info)]
    (set_ctrl [true]
       (set_exitcode [(1, 3221225786)]
          (set_wait [WAIT_TIMEOUT; WAIT_OBJECT_0] ex_world))).


(** The program found for python, C:/bin/python, is a Python 2: started
    with [--version] it writes its version to the pipe and exits with
    code 0. *)
Definition ex_world_python2 : World :=
  mkWorld ∅ None [WAIT_OBJECT_0] [(1, 0)] [] []
    [Some (20, 21, mkPipe ["Python 2.7.18"%string] true)]
    [(true, ex_process_info)]
    (fun name =>
       if String.eqb name "python" || String.eqb name "C:/bin/python"
       then "C:/bin/python"%string else ""%string)
    (fun arg => arg) (fun _ => [])
    (fun n => n) None (fun _ => 0) 5 "Access is denied." [] [] [].

(** The program found for python, C:/bin/python, is a Python 3; the next
    process spawned gets the second answer of [CreateProcess]. *)
Definition ex_world_python3 : World :=
  mkWorld ∅ None [WAIT_OBJECT_0] [(1, 0)] [] []
    [Some (20, 21, mkPipe ["Python 3.11.4"%string] true)]
    [(true, mkProcInfo 200 201 5151 5152); (true, ex_process_info)]
    (fun name =>
       if String.eqb name "python" || String.eqb name "C:/bin/python"
       then "C:/bin/python"%string else ""%string)
    (fun arg => arg) (fun _ => [])
    (fun n => n) None (fun _ => 0) 5 "Access is denied." [] [] [].

(** A world in which the path holds a program for python3 and none for
    python, with three pipes to be created and a spawn that fails. *)
Definition ex_world_only_python3 : World :=
  mkWorld ∅ None [] [] [] []
    [Some (10, 11, mkPipe [] false);
     Some (20, 21, mkPipe ["out"%string] true);
     Some (30, 31, mkPipe [] true)]
    [(false, PROCESS_INFORMATION_zero)]
    (fun name =>
       if String.eqb name "python3" then "C:/bin/python3"%string
       else ""%string)
    (fun arg => arg) (fun _ => [])
    (fun n => n) None (fun _ => 0) 5 "Access is denied." [] [] [].

(** A running child on which [TerminateProcess] succeeds. *)
Definition ex_world_kill : World := set_terminate [true] ex_world.

(** [keeps I Q m]: from a state in [I], [m] ends in a state in [I], and a
    value it returns satisfies [Q]. *)
Definition keeps {S A} (I : S -> Prop) (Q : A -> Prop) (m : M S A) : Prop :=
  forall s r s', I s -> m s = (r, s') ->
                 I s' /\ (forall a, r = Val a -> Q a).

(** The process under construction in [run_command] has no exit status. *)
Definition process_status_unknown (s : RCLocals * World) : Prop :=
  returncode (l_process (fst s)) = kBadReturnCode.

(** The same of a [Popen] object. *)
Definition status_unknown (s : Popen * World) : Prop :=
  returncode (fst s) = kBadReturnCode.

(** The world after the console event [event] has been sent to [group]
    with result [b], the rest of the answers being [qc]. *)
Definition after_ctrl_event (event group : Z) (b : bool) (qc : list bool)
    (w : World) : World :=
  let w1 := set_ctrl qc (log (N_GenerateConsoleCtrlEvent event group) w) in
  if b then w1 else report_failure w1.

(** A world in which [find_program_in_path] resolves nothing. *)
Definition ex_world_no_program : World :=
  mkWorld ∅ None [] [] [] [] [] []
    (fun _ => ""%string) (fun arg => arg) (fun _ => [])
    (fun n => n) None (fun _ => 0) 5 "Access is denied." [] [] [].

(** A child whose exit code 0 has been observed. *)
Definition ex_popen_done : Popen := with_returncode 0 ex_popen_plain.

Definition ex_options_capture : RunOptions :=
  ex_options (PV_option PO_inherit) (PV_option PO_pipe) (PV_option PO_pipe)
    wait_default false.

Definition ex_options_timeout : RunOptions :=
  ex_options (PV_option PO_inherit) (PV_option PO_inherit)
    (PV_option PO_inherit) (QArith_base.inject_Z 1) false.

(** stdin configured with the bare enumerator, stdout with a bad handle. *)
Definition ex_options_bare_specific : RunOptions :=
  ex_options (PV_option PO_specific) (PV_handle (kBadPipeValue Win32))
    (PV_option PO_inherit) wait_default false.

(** stdout configured with a bad handle, stderr with a valid one. *)
Definition ex_options_bad_cout : RunOptions :=
  ex_options (PV_option PO_inherit) (PV_handle (kBadPipeValue Win32))
    (PV_handle 44) wait_default false.

(** All three streams configured with valid handles. *)
Definition ex_options_handles : RunOptions :=
  ex_options (PV_handle 42) (PV_handle 43) (PV_handle 44) wait_default false.

(** A pipe whose peer has closed and from which everything has been read. *)
Definition ex_world_eof : World := ex_pipe [] true 7 ex_world.


(** A pipe with three bytes in two writes, closed by the peer. *)
Definition ex_world_data : World := ex_pipe ["ab"; "c"]%string true 7 ex_world.

(** ** Vocabulary of the further properties *)


(** [OSError] and the class derived from it. *)
Definition is_OSError (e : Exn) : bool :=
  match e with OSError _ | SpawnError _ => true | _ => false end.



(** A [Popen] as [close] leaves it. *)
Definition closed_popen (p : Popen) : Popen :=
  mkPopen (kBadPipeValue Win32) (kBadPipeValue Win32) (kBadPipeValue Win32)
    0 kBadReturnCode [] (m_soft_kill p) (process_info p).

(** The console event [send_signal] generates for a signal other than the
    kill signal, and the process group it goes to. *)
Definition console_event (signum : SigNum) : Z :=
  if SigNum_eqb Win32 signum PSIGINT then CTRL_C_EVENT else CTRL_BREAK_EVENT.

Definition console_group (signum : SigNum) (p : Popen) : Z :=
  if SigNum_eqb Win32 signum PSIGINT then 0 else pid p.

(** [quiet m]: [m] throws nothing and never ends in [std::terminate]. *)
Definition quiet {S A} (m : M S A) : Prop :=
  forall s, match fst (m s) with Exc _ | Abort => False | _ => True end.


(** Options that redirect the child's stdin from [cin_], everything else
    inherited; a world in which one pipe can be created and the spawn
    succeeds. *)
Definition ex_options_cin (cin_ : PipeVar) : RunOptions :=
  ex_options cin_ (PV_option PO_inherit) (PV_option PO_inherit)
    (QArith_base.inject_Z (-1)) false.

Definition ex_world_spawn_cin : World :=
  set_createpipe [Some (10, 11, mkPipe [] false)]
    (set_createprocess [(true, ex_process_info)] ex_world).

(** The detached thread [setup_redirect_stream] starts to feed the pipe
    [h] from [v]; it closes the pipe when it is done. *)
Definition feed_thread (v : PipeVar) (h : Z) : option Thread :=
  match v with
  | PV_string s => Some (T_string_to_pipe s h true)
  | PV_istream ptr => Some (T_istream_to_pipe ptr h true)
  | PV_file ptr => Some (T_file_to_pipe ptr h true)
  | _ => None
  end.


(** The part of the world [run_command] depends on and changes: the handle
    table and what [CreatePipe] and [CreateProcess] will answer. *)
Definition world_view (w : World) (T : gmap Z Handle)
    (qp : list (option (Z * Z * Pipe)))
    (qc : list (bool * PROCESS_INFORMATION)) : Prop :=
  w_handles w = T /\ w_createpipe w = qp /\ w_createprocess w = qc.

(** A builder that pipes the three standard streams of the child. *)
Definition piped_builder (b : ProcessBuilder) : Prop :=
  cin_option b = PO_pipe /\ cout_option b = PO_pipe
  /\ cerr_option b = PO_pipe.

(** The handle table after a spawn with three pipes [(r1, w1, p1)] for
    stdin, [(r2, w2, p2)] for stdout and [(r3, w3, p3)] for stderr: the
    parent holds the write end of the first and the read ends of the
    others, all three not inheritable. *)
Definition piped_handles (T : gmap Z Handle) (w1 r2 r3 : Z) (p2 p3 : Pipe)
    : gmap Z Handle :=
  <[r3 := mkHandle (K_read p3) false]>
    (<[r2 := mkHandle (K_read p2) false]>
       (<[w1 := mkHandle K_write false]> T)).

(** Handles the table does not hold, all different and none the bad
    handle. *)
Definition fresh_handles (T : gmap Z Handle) (hs : list Z) : Prop :=
  NoDup hs /\ Forall (fun h => h <> kBadPipeValue Win32 /\ T !! h = None) hs.

Definition ex_world_spawn3 (ok : bool) (pi : PROCESS_INFORMATION) : World :=
  set_createpipe [Some (10, 11, mkPipe [] false);
                  Some (20, 21, mkPipe ["out"%string] true);
                  Some (30, 31, mkPipe [] true)]
    (set_createprocess [(ok, pi)] ex_world).

Definition ex_builder_piped : ProcessBuilder :=
  mkProcessBuilder PO_pipe 0 PO_pipe 0 PO_pipe 0 false false false [] ∅ "".

(** The answers [CreateProcess] has left to give are [q]: in a world, and
    in a state made of an object and the world. *)
Definition answers_left (q : list (bool * PROCESS_INFORMATION)) (w : World)
    : Prop :=
  w_createprocess w = q.

Definition answers_left_in {O} (q : list (bool * PROCESS_INFORMATION))
    (s : O * World) : Prop :=
  w_createprocess (snd s) = q.

(** The process under construction in [run_command] satisfies [J]. *)
Definition process_is (J : Popen -> Prop) (s : RCLocals * World) : Prop :=
  J (l_process (fst s)).


(** ** shellutils.cpp: quoting and splitting *)

(** [std::isalnum] in the "C" locale, for a [char] in the ASCII range. *)
Definition isalnum (c : ascii) : bool :=
  let n := nat_of_ascii c in
  ((48 <=? n) && (n <=? 57) || (65 <=? n) && (n <=? 90)
   || (97 <=? n) && (n <=? 122))%nat.

Definition char_dquote : ascii := ascii_of_nat 34.
Definition char_backslash : ascii := ascii_of_nat 92.

(** The test of the first loop of [escape_shell_arg]: alphanumeric, dot,
    underscore, hyphen, plus, slash. *)
Definition quote_trigger (c : ascii) : bool :=
  isalnum c || Ascii.eqb c "." || Ascii.eqb c "_" || Ascii.eqb c "-"
  || Ascii.eqb c "+" || Ascii.eqb c "/".

(** The first loop: [needs_quote] is set, and the loop left, at the first
    character that passes the test. *)
Fixpoint needs_quote (arg : string) : bool :=
  match arg with
  | EmptyString => false
  | String c rest => if quote_trigger c then true else needs_quote rest
  end.

(** The second loop, appending to [result]. *)
Fixpoint escape_loop (arg : string) (result : string) : string :=
  match arg with
  | EmptyString => result
  | String ch rest =>
      let result :=
        if Ascii.eqb ch char_dquote || Ascii.eqb ch char_backslash
        then result +:+ String char_backslash EmptyString
        else result in
      escape_loop rest (result +:+ String ch EmptyString)
  end.

(** [escape_shell_arg(arg)]. *)
Definition escape_shell_arg (arg : string) : string :=
  if negb (needs_quote arg) then arg
  else escape_loop arg dquote +:+ dquote.

(** [std::getline(ss, item, delim)] on the characters [ss] still in the
    stream, [item] being what this call has extracted so far: whether the
    call succeeds, the item, and what is left in the stream.  The call
    fails when it reaches the end of the stream without having extracted
    anything; the delimiter is extracted and dropped. *)
Fixpoint getline (ss : string) (delim : ascii) (item : string)
    : bool * string * string :=
  match ss with
  | EmptyString =>
      (negb (String.eqb item ""), item, EmptyString)
  | String c rest =>
      if Ascii.eqb c delim then (true, item, rest)
      else getline rest delim (item +:+ String c EmptyString)
  end.

(** The loop [while (std::getline(ss, item, delim)) result.push_back(item)]
    of [split]; every successful call takes at least one character, so
    [fuel] bounds the number of iterations. *)
Fixpoint split_loop (fuel : nat) (ss : string) (delim : ascii)
    (result : list string) : list string :=
  match fuel with
  | O => result
  | S fuel' =>
      let '(ok, item, rest) := getline ss delim "" in
      if ok then split_loop fuel' rest delim (result ++ [item])
      else result
  end.

(** [split(s, delim)]. *)
Definition split (s : string) (delim : ascii) : list string :=
  let result := split_loop (S (String.length s)) s delim [] in
  if (match result with [] => true | _ => false end)
     && negb (String.eqb s "")
  then result ++ [s]
  else result.

(** ** Vocabulary of the properties of the string functions *)

(** Every item followed by the delimiter. *)
Fixpoint terminate_items (delim : ascii) (items : list string) : string :=
  match items with
  | [] => EmptyString
  | item :: rest =>
      item +:+ String delim (terminate_items delim rest)
  end.

Fixpoint ends_with (delim : ascii) (s : string) : bool :=
  match s with
  | EmptyString => false
  | String c EmptyString => Ascii.eqb c delim
  | String _ rest => ends_with delim rest
  end.

Fixpoint contains (c : ascii) (s : string) : bool :=
  match s with
  | EmptyString => false
  | String x rest => Ascii.eqb x c || contains c rest
  end.

(** [s] with one delimiter added at its end unless it is empty or ends
    with one. *)
Definition delimited (delim : ascii) (s : string) : string :=
  if String.eqb s "" then s
  else if ends_with delim s then s
  else s +:+ String delim EmptyString.


(** ** builder.h and builder.cpp: [StopWatch]

    The three function-local statics of [StopWatch::monotonic_seconds],
    and the number of readings of [std::chrono::steady_clock] taken so
    far; [steady k] is what the k-th reading returns, in seconds. *)
Record MonotonicStatics := mkStatics {
  needs_init : bool;
  begin : Q;
  last_value : Q
}.

Definition MonotonicStatics_init : MonotonicStatics :=
  mkStatics true (QArith_base.inject_Z 0) (QArith_base.inject_Z 0).

Definition Qlt_bool (x y : Q) : bool := negb (QArith_base.Qle_bool y x).

Definition monotonic_seconds (steady : nat -> Q)
    (st : MonotonicStatics * nat) : Q * (MonotonicStatics * nat) :=
  let '(s, t) := st in
  let '(begin_, t) :=
    if needs_init s then (steady t, S t) else (begin s, t) in
  let now := steady t in
  let result := QArith_base.Qminus now begin_ in
  if Qlt_bool result (last_value s)
  then (last_value s, (mkStatics false begin_ (last_value s), S t))
  else (result, (mkStatics false begin_ result, S t)).

Record StopWatch := mkStopWatch { m_start : Q }.

(** [StopWatch::Start()] (the constructor calls it). *)
Definition StopWatch_Start (steady : nat -> Q) (st : MonotonicStatics * nat)
    : StopWatch * (MonotonicStatics * nat) :=
  let '(r, st') := monotonic_seconds steady st in (mkStopWatch r, st').

(** [StopWatch::seconds()]. *)
Definition StopWatch_seconds (steady : nat -> Q) (watch : StopWatch)
    (st : MonotonicStatics * nat) : Q * (MonotonicStatics * nat) :=
  let '(r, st') := monotonic_seconds steady st in
  (QArith_base.Qminus r (m_start watch), st').

(** [k] further calls of [monotonic_seconds], by any stop watch. *)
Fixpoint other_calls (steady : nat -> Q) (k : nat)
    (st : MonotonicStatics * nat) : MonotonicStatics * nat :=
  match k with
  | O => st
  | S k' => other_calls steady k' (snd (monotonic_seconds steady st))
  end.


(** ** shellutils.cpp: paths *)

Definition is_drive (c : ascii) : bool :=
  let n := nat_of_ascii c in
  ((97 <=? n) && (n <=? 122) || (65 <=? n) && (n <=? 90))%nat.

(** [path[i]]; at [path.size()] it is the terminating null character. *)
Definition char_at (i : nat) (path : string) : ascii :=
  match String.get i path with
  | Some c => c
  | None => Ascii.zero
  end.

(** The first loop of [clean_path]. *)
Fixpoint replace_backslashes (path : string) : string :=
  match path with
  | EmptyString => EmptyString
  | String i rest =>
      String (if Ascii.eqb i char_backslash then "/"%char else i)
        (replace_backslashes rest)
  end.

(** The condition of the last loop of [clean_path]. *)
Definition ends_in_two_slashes (path : string) : bool :=
  (2 <=? String.length path)%nat
  && Ascii.eqb (char_at (String.length path - 1) path) "/"
  && Ascii.eqb (char_at (String.length path - 2) path) "/".

(** The last loop: [path.resize(path.size() - 1)] while the condition
    holds; every iteration shortens the path, so its length bounds the
    number of iterations. *)
Fixpoint strip_slashes (fuel : nat) (path : string) : string :=
  match fuel with
  | O => path
  | S fuel' =>
      if ends_in_two_slashes path
      then strip_slashes fuel'
             (String.substring 0 (String.length path - 1) path)
      else path
  end.

(** The drive letter test of [clean_path]. *)
Definition bare_drive (path : string) : bool :=
  (String.length path =? 2)%nat
  && is_drive (char_at 0 path) && Ascii.eqb (char_at 1 path) ":".

Definition clean_path (pf : Platform) (path : string) : string :=
  let path := replace_backslashes path in
  let path :=
    if kIsWin32 pf && bare_drive path
    then path +:+ "/" else path in
  strip_slashes (String.length path) path.


(** ** environ.cpp

    The environment of the process is a finite map from names to values.
    The assignment operator of [EnvironSetter] that takes a C string, on the
    variable [name]: a null
    pointer or an empty string removes the variable (by [unsetenv] on one
    platform, by [_putenv_s] with an empty value on the other), anything
    else sets it.  (The assignment also clears the cache of [find_program]
    for the names PATH, Path and path; the cache is not part of the
    environment.) *)
Abbreviation EnvMap := (gmap string string).

Definition EnvironSetter_assign (pf : Platform) (name : string)
    (str : option string) (environ : EnvMap) : EnvMap :=
  match pf with
  | Win32 =>
      let value := match str with Some s => s | None => ""%string end in
      (* _putenv_s: an empty value deletes the variable *)
      if String.eqb value "" then delete name environ
      else <[name := value]> environ
  | Posix =>
      match str with
      | None => delete name environ
      | Some s =>
          if String.eqb s "" then delete name environ
          else <[name := s]> environ
      end
  end.

(** The loop of [current_env_copy] over one entry [NAME=value]: the name
    ends at the first ['=']; an entry without ['='] or with an empty name
    is skipped. *)
Fixpoint name_end (entry : string) : nat :=
  match entry with
  | EmptyString => 0
  | String c rest => if Ascii.eqb c "=" then 0 else S (name_end rest)
  end.

Definition parse_entry (result : EnvMap) (entry : string) : EnvMap :=
  let e := name_end entry in
  if Ascii.eqb (char_at e entry) "=" && negb (e =? 0)%nat
  then <[String.substring 0 e entry
         := String.substring (S e) (String.length entry - S e) entry]> result
  else result.

(** [current_env_copy()] on the entries of [environ]. *)
Definition current_env_copy (entries : list string) : EnvMap :=
  List.fold_left parse_entry entries ∅.

(** [EnvGuard::~EnvGuard()] for the saved environment [m_env]; [new_env]
    is what [current_env_copy()] returns for the environment as it is. *)
Definition EnvGuard_destroy (pf : Platform) (m_env : EnvMap)
    (environ : EnvMap) : EnvMap :=
  let new_env := environ in
  let environ :=
    map_fold
      (fun name _ env =>
         if bool_decide (m_env !! name = None)
         then EnvironSetter_assign pf name None env
         else env)
      environ new_env in
  map_fold
    (fun name value env =>
       if bool_decide (new_env !! name = None)
          || negb (bool_decide (new_env !! name = Some value))
       then EnvironSetter_assign pf name (Some value) env
       else env)
    environ m_env.

(** A line of the environment block [create_env_block] builds:
    [std::format("{}={}", name, value)]. *)
Definition env_line (entry : string * string) : string :=
  fst entry +:+ "=" +:+ snd entry.

(** The entries of an [EnvMap], a [std::map], in the order a loop over it
    visits them: by increasing name, names being compared byte by byte. *)
Fixpoint insert_entry (entry : string * string)
    (entries : list (string * string)) : list (string * string) :=
  match entries with
  | [] => [entry]
  | e :: rest =>
      if String.leb (fst entry) (fst e) then entry :: entries
      else e :: insert_entry entry rest
  end.

Definition entries_in_order (map : EnvMap) : list (string * string) :=
  List.fold_right insert_entry [] (map_to_list map).

(** [create_env_block(map)], the conversion to UTF-16 being a parameter:
    every line converted and followed by a null unit, and a final null
    unit. *)
Definition create_env_block_of (utf8_to_utf16 : string -> list Z)
    (map : EnvMap) : list Z :=
  List.fold_right
    (fun entry rest => utf8_to_utf16 (env_line entry) ++ 0 :: rest)
    [0] (entries_in_order map).

Fixpoint strlen16 (list : list Z) : nat :=
  match list with
  | [] => 0
  | u :: rest => if u =? 0 then 0%nat else S (strlen16 rest)
  end.

(** The loop of [current_env_copy] over the block [GetEnvironmentStringsW]
    returns, the conversion from UTF-16 being a parameter: [list] points
    at the entry read next, and [strlen16(list) + 1] units are skipped
    after it. *)
Fixpoint parse_env_block (utf16_to_utf8 : list Z -> string) (fuel : nat)
    (list : list Z) (result : EnvMap) : EnvMap :=
  match fuel with
  | O => result
  | S fuel' =>
      match list with
      | [] => result
      | u :: _ =>
          if u =? 0 then result
          else
            let n := strlen16 list in
            parse_env_block utf16_to_utf8 fuel' (List.skipn (S n) list)
              (parse_entry result (utf16_to_utf8 (List.firstn n list)))
      end
  end.

(** The value [EnvGuard] restores for a variable it saved with value
    [value]. *)
Definition restored (value : string) (current : option string)
    : option string :=
  if bool_decide (current = Some value) then Some value
  else if String.eqb value "" then None
  else Some value.


(** [current_env_copy()] on the block [GetEnvironmentStringsW] returns;
    every iteration moves on by at least one unit. *)
Definition current_env_copy_block (utf16_to_utf8 : list Z -> string)
    (block : list Z) : EnvMap :=
  parse_env_block utf16_to_utf8 (List.length block) block ∅.

(** A name [create_env_block] and [current_env_copy] agree on: not empty
    and without ['=']. *)
Definition valid_name (name : string) : Prop :=
  name <> ""%string /\ contains "=" name = false.

(** An ASCII-only conversion pair, for concrete examples. *)
Definition ascii_units (s : string) : list Z :=
  List.map (fun c => Z.of_nat (nat_of_ascii c)) (list_ascii_of_string s).

Definition units_ascii (us : list Z) : string :=
  string_of_list_ascii (List.map (fun u => ascii_of_nat (Z.to_nat u)) us).


(** The answers about the child process are the same in [w'] as in [w]. *)
Definition same_process_answers (w w' : World) : Prop :=
  w_terminated w' = w_terminated w /\ w_wait w' = w_wait w
  /\ w_exitcode w' = w_exitcode w.

(** [h] is the read end of the pipe [p], whose writers have closed and
    made no zero-byte write. *)
Definition drainable (w : World) (h : Z) (p : Pipe) : Prop :=
  h <> kBadPipeValue Win32
  /\ (exists inh, w_handles w !! h = Some (mkHandle (K_read p) inh))
  /\ p_writer_closed p = true
  /\ Forall (fun c => c <> ""%string) (p_chunks p).

(** A child that has written "out" to its stdout (handle 20) and "err" to
    its stderr (handle 30), closed both and exited with code 3. *)
Definition ex_world_exit3 : World :=
  set_exitcode [(1, 3)]
    (set_wait [WAIT_OBJECT_0]
       (ex_pipe ["err"%string] true 30 (ex_pipe ["out"%string] true 20 ex_world))).


(** The processes of the snapshot whose parent is [parent]. *)
Definition children_of (w : World) (parent : Z) : list Z :=
  match w_snapshot w with
  | None => []
  | Some (_, entries) =>
      List.map fst (List.filter (fun e => snd e =? parent) entries)
  end.

(** The native calls [GetChildProcessIDs] makes: the snapshot, and when
    it could be taken, the walk over its entries ([Process32First], then
    [Process32Next] once for every entry, the last call finding no more)
    and the release of the snapshot. *)
Definition snapshot_calls (w : World) : list NativeCall :=
  N_CreateToolhelp32Snapshot
  :: match w_snapshot w with
     | None => []
     | Some (hSnapshot, entries) =>
         N_Process32First hSnapshot
         :: List.map (fun _ => N_Process32Next hSnapshot) entries
         ++ [N_CloseHandle hSnapshot]
     end.

(** The world after the native calls [cs], which change nothing else. *)
Definition with_trace (cs : list NativeCall) (w : World) : World :=
  mkWorld (w_handles w) (w_terminated w) (w_wait w) (w_exitcode w) (w_terminate w)
    (w_ctrl w) (w_createpipe w) (w_createprocess w) (w_find_program w)
    (w_escape_shell_arg w) (w_create_env_block w) (w_std_handle w)
    (w_snapshot w) (w_open_process w) (w_last_error w)
    (w_last_error_string w) (w_trace w ++ cs) (w_cout w) (w_threads w).

(** The world after [GetChildProcessIDs]: the calls are made and the
    handle of the snapshot is closed. *)
Definition after_snapshot (w : World) : World :=
  match w_snapshot w with
  | None => with_trace (snapshot_calls w) w
  | Some (hSnapshot, _) =>
      set_handles (delete hSnapshot) (with_trace (snapshot_calls w) w)
  end.

(** The native calls [TerminateProcessByID] makes for the process [id]. *)
Definition kill_child_calls (w : World) (id : Z) : list NativeCall :=
  N_OpenProcess id
  :: (if negb (w_open_process w id =? 0)
      then [N_TerminateProcess (w_open_process w id) 0;
            N_CloseHandle (w_open_process w id)]
      else []).

(** What does not change while a process tree is killed. *)
Definition same_system (w w' : World) : Prop :=
  w_open_process w' = w_open_process w
  /\ w_last_error w' = w_last_error w
  /\ w_last_error_string w' = w_last_error_string w
  /\ w_cout w' = w_cout w.

(** A running child with two children of its own, one of which cannot be
    opened, on which [TerminateProcess] fails. *)
Definition ex_world_tree : World :=
  mkWorld ∅ None [] [] [false] [] [] []
    (fun name => "C:/bin/" +:+ name) (fun arg => arg) (fun _ => [])
    (fun n => n) (Some (900, [(5000, 4242); (5001, 1); (5002, 4242)]))
    (fun id => if id =? 5000 then 77 else 0) 5 "Access is denied." [] [] [].

(** * Properties *)

Lemma known_status_eqb (p : Popen) :
  returncode p <> kBadReturnCode ->
  (returncode p =? kBadReturnCode) = false.
Proof. intros H. apply Z.eqb_neq. exact H. Qed.

Lemma send_signal_known (signum : SigNum) (p : Popen) (w : World) :
  returncode p <> kBadReturnCode ->
  send_signal signum (p, w) = (Val false, (p, report_failure w)).
Proof.
  intros H. unfold send_signal, bind, this. cbn.
  rewrite (known_status_eqb p H). reflexivity.
Qed.

(** Inversion of the monad operations. *)
Lemma bind_val_inv {S A B} (m : M S A) (k : A -> M S B) (s s2 : S) (b : B) :
  bind m k s = (Val b, s2) ->
  exists a s1, m s = (Val a, s1) /\ k a s1 = (Val b, s2).
Proof.
  unfold bind. destruct (m s) as [[a| | |] s1]; intros H; try discriminate.
  exists a, s1. split; [reflexivity | exact H].
Qed.

Lemma bind_val {S A B} (m : M S A) (k : A -> M S B) (s s1 : S) (a : A) :
  m s = (Val a, s1) -> bind m k s = k a s1.
Proof. intros H. unfold bind. rewrite H. reflexivity. Qed.

Lemma bind_exc {S A B} (m : M S A) (k : A -> M S B) (s s1 : S) (e : Exn) :
  m s = (Exc e, s1) -> bind m k s = (Exc e, s1).
Proof. intros H. unfold bind. rewrite H. reflexivity. Qed.

Lemma this_bind {B} (k : Popen -> Method B) (p : Popen) (w : World) :
  bind this k (p, w) = k p (p, w).
Proof. reflexivity. Qed.

Lemma liftW_inv {O A} (m : M World A) (o : O) (w : World) (r : Res A)
    (s' : O * World) :
  liftW m (o, w) = (r, s') -> exists w', m w = (r, w') /\ s' = (o, w').
Proof.
  unfold liftW. cbn. destruct (m w) as [r' w']. intros H.
  inversion H; subst. exists w'. split; reflexivity.
Qed.

Lemma liftW_eq {O A} (m : M World A) (o : O) (w w' : World) (r : Res A) :
  m w = (r, w') -> liftW m (o, w) = (r, (o, w')).
Proof. intros H. unfold liftW. cbn. rewrite H. reflexivity. Qed.

Lemma liftW_bind {O A B} (m : M World A) (k : A -> M (O * World) B) (o : O)
    (w w' : World) (a : A) :
  m w = (Val a, w') -> bind (liftW m) k (o, w) = k a (o, w').
Proof. intros H. erewrite bind_val; [reflexivity | apply liftW_eq, H]. Qed.

Lemma dword_range (z : Z) : 0 <= dword z < 2 ^ 32.
Proof. unfold dword. apply Z.mod_pos_bound. lia. Qed.


Lemma GetExitCodeProcess_val (h : Z) (w w' : World) (r : Z * Z) :
  GetExitCodeProcess h w = (Val r, w') -> 0 <= snd r < 2 ^ 32.
Proof.
  unfold GetExitCodeProcess, native_call, bind, get, modify, ret.
  intros H. repeat case_match; simplify_eq; cbn; apply dword_range.
Qed.

Lemma after_wait_val (wr : Z) (s s' : Popen * World) (u : unit) :
  after_wait wr s = (Val u, s') ->
  exists code, 0 <= code < 2 ^ 32 /\ fst s' = with_returncode code (fst s).
Proof.
  unfold after_wait. intros H. destruct s as [p w].
  destruct (wr =? WAIT_ABANDONED).
  { apply bind_val_inv in H. destruct H as (a & s1 & _ & H). discriminate. }
  destruct (wr =? WAIT_FAILED).
  { apply bind_val_inv in H. destruct H as (a & s1 & _ & H).
    apply bind_val_inv in H. destruct H as (a2 & s2 & _ & H). discriminate. }
  destruct (negb (wr =? WAIT_OBJECT_0)); [discriminate|].
  apply bind_val_inv in H. destruct H as (p0 & s1 & Hthis & H).
  unfold this in Hthis. inversion Hthis; subst; clear Hthis.
  apply bind_val_inv in H. destruct H as ([ret_ excode] & s2 & HG & H).
  apply liftW_inv in HG. destruct HG as (w2 & HG & ->).
  destruct (ret_ =? 0).
  { apply bind_val_inv in H. destruct H as (a & s3 & _ & H).
    apply bind_val_inv in H. destruct H as (a2 & s4 & _ & H). discriminate. }
  unfold assign in H. inversion H; subst; clear H. cbn.
  exists excode. split; [|reflexivity].
  apply GetExitCodeProcess_val in HG. exact HG.
Qed.

Lemma wait_cached (timeout : Q) (p : Popen) (w : World) :
  returncode p <> kBadReturnCode ->
  wait timeout (p, w) = (Val (returncode p), (p, w)).
Proof.
  intros H. unfold wait, bind, this. cbn.
  rewrite (known_status_eqb p H). reflexivity.
Qed.

Lemma poll_cached (p : Popen) (w : World) :
  returncode p <> kBadReturnCode ->
  poll (p, w) = (Val true, (p, w)).
Proof.
  intros H. unfold poll, bind, this. cbn.
  rewrite (known_status_eqb p H). reflexivity.
Qed.

Lemma wait_val (timeout : Q) (p p' : Popen) (w w' : World) (c : Z) :
  wait timeout (p, w) = (Val c, (p', w')) ->
  returncode p' = c /\ c <> kBadReturnCode
  /\ (returncode p = kBadReturnCode -> 0 <= c < 2 ^ 32)
  /\ p' = with_returncode c p.
Proof.
  unfold wait. intros H.
  apply bind_val_inv in H. destruct H as (p0 & s1 & Hthis & H).
  unfold this in Hthis. inversion Hthis; subst; clear Hthis.
  apply bind_val_inv in H. destruct H as (u & [p1 w1] & Hm & H).
  apply bind_val_inv in H. destruct H as (p2 & s2 & Hthis & H).
  unfold this in Hthis. inversion Hthis; subst; clear Hthis.
  unfold ret in H. inversion H; subst; clear H. cbn in Hm.
  destruct (returncode p0 =? kBadReturnCode) eqn:E.
  - apply bind_val_inv in Hm. destruct Hm as (wr & s3 & HW & Hm).
    destruct (wr =? WAIT_TIMEOUT); [discriminate|].
    apply liftW_inv in HW. destruct HW as (w3 & HW & ->).
    apply after_wait_val in Hm. destruct Hm as (code & Hr & Hs).
    cbn in Hs. subst p'. cbn. repeat split; try lia.
    unfold kBadReturnCode. lia.
  - apply Z.eqb_neq in E. unfold ret in Hm. inversion Hm; subst; clear Hm.
    repeat split; try assumption; try (intros; contradiction).
    destruct p'; reflexivity.
Qed.

Lemma poll_true (p p' : Popen) (w w' : World) :
  poll (p, w) = (Val true, (p', w')) -> returncode p' <> kBadReturnCode.
Proof.
  unfold poll. intros H.
  apply bind_val_inv in H. destruct H as (p0 & s1 & Hthis & H).
  unfold this in Hthis. inversion Hthis; subst; clear Hthis.
  destruct (returncode p0 =? kBadReturnCode) eqn:E; cbn in H.
  - apply bind_val_inv in H. destruct H as (wr & s3 & HW & H).
    destruct (wr =? WAIT_TIMEOUT); [discriminate|].
    apply liftW_inv in HW. destruct HW as (w3 & HW & ->).
    apply bind_val_inv in H. destruct H as (u & s4 & HA & H).
    apply after_wait_val in HA. destruct HA as (code & Hr & Hs).
    unfold ret in H. inversion H; subst; clear H.
    cbn in Hs. rewrite Hs. cbn. unfold kBadReturnCode. lia.
  - apply Z.eqb_neq in E. unfold ret in H.
    inversion H; subst; clear H. assumption.
Qed.

Lemma wait_idempotent (t1 t2 : Q) (p p' : Popen) (w w' : World) (c : Z) :
  wait t1 (p, w) = (Val c, (p', w')) ->
  wait t2 (p', w') = (Val c, (p', w')) /\ poll (p', w') = (Val true, (p', w')).
Proof.
  intros H. apply wait_val in H. destruct H as (Hc & Hn & _).
  subst c. split; [apply wait_cached | apply poll_cached]; assumption.
Qed.

Lemma scoped_val_inv {S A} (body : M S A) (dtor : M S unit) (s s' : S) (a : A) :
  scoped body dtor s = (Val a, s') -> exists s1, body s = (Val a, s1).
Proof.
  unfold scoped. destruct (body s) as [[a0| | |] s1]; intros H;
    try discriminate.
  - destruct (noexcept dtor s1) as [[u| | |] s2]; try discriminate.
    inversion H; subst. exists s1. reflexivity.
  - destruct (noexcept dtor s1) as [[u| | |] s2]; discriminate.
Qed.

Lemma try_catch_val_inv {S A} (m : M S A) (sel : Exn -> bool)
    (h : Exn -> M S A) (s s' : S) (a : A) :
  try_catch m sel h s = (Val a, s') ->
  m s = (Val a, s')
  \/ exists e s1, m s = (Exc e, s1) /\ sel e = true /\ h e s1 = (Val a, s').
Proof.
  unfold try_catch. destruct (m s) as [[a0| e | |] s1]; intros H;
    try discriminate.
  - left. exact H.
  - destruct (sel e) eqn:E; [|discriminate]. right. exists e, s1. auto.
Qed.

Lemma capture_thread_val (member : Popen -> Z)
    (with_member : Z -> Popen -> Popen) (s s' : Popen * World) (d : string) :
  capture_thread member with_member s = (Val d, s') ->
  fst s' = fst s \/ fst s' = with_member (kBadPipeValue Win32) (fst s).
Proof.
  unfold capture_thread. intros H. destruct s as [p w].
  apply bind_val_inv in H. destruct H as (p0 & s1 & Hthis & H).
  unfold this in Hthis. inversion Hthis; subst; clear Hthis.
  destruct (negb (member p0 =? kBadPipeValue Win32)).
  - apply bind_val_inv in H. destruct H as (data & [p1 w1] & HT & H).
    assert (p1 = p0) as ->.
    { apply try_catch_val_inv in HT. destruct HT as [HT | (e & s1 & HT & _ & HH)].
      - apply liftW_inv in HT. destruct HT as (w2 & _ & HT). congruence.
      - apply liftW_inv in HT. destruct HT as (w2 & _ & ->).
        unfold ret in HH. congruence. }
    apply bind_val_inv in H. destruct H as (p2 & s2 & Hthis & H).
    unfold this in Hthis. inversion Hthis; subst; clear Hthis.
    apply bind_val_inv in H. destruct H as (b & s3 & HC & H).
    apply liftW_inv in HC. destruct HC as (w3 & _ & ->).
    apply bind_val_inv in H. destruct H as (u & s4 & HA & H).
    unfold assign in HA. inversion HA; subst; clear HA.
    unfold ret in H. inversion H; subst; clear H. right. reflexivity.
  - unfold ret in H. inversion H; subst; clear H. left. reflexivity.
Qed.

Lemma capture_thread_args (member : Popen -> Z)
    (with_member : Z -> Popen -> Popen) (s s' : Popen * World) (d : string) :
  (forall h p, args (with_member h p) = args p) ->
  capture_thread member with_member s = (Val d, s') ->
  args (fst s') = args (fst s).
Proof.
  intros Hw H. apply capture_thread_val in H. destruct H as [-> | ->].
  - reflexivity.
  - apply Hw.
Qed.

Lemma run_Popen_val (check : bool) (s s' : Popen * World)
    (c : CompletedProcess) :
  run_Popen check s = (Val c, s') ->
  check = false /\ cp_args c = List.tl (args (fst s))
  /\ cp_returncode c = returncode (fst s').
Proof.
  unfold run_Popen. intros H.
  apply bind_val_inv in H. destruct H as (out & s1 & H1 & H).
  apply bind_val_inv in H. destruct H as (err & s2 & H2 & H).
  apply bind_val_inv in H. destruct H as (rc & s3 & H3 & H).
  apply bind_val_inv in H. destruct H as (popen & s4 & Hthis & H).
  unfold this in Hthis. inversion Hthis; subst; clear Hthis.
  destruct check; [discriminate|].
  unfold ret in H. inversion H; subst; clear H. cbn.
  apply capture_thread_args in H1; [|reflexivity].
  apply capture_thread_args in H2; [|reflexivity].
  destruct s2 as [p2 w2]. destruct s' as [p3 w3].
  apply wait_val in H3. destruct H3 as (_ & _ & _ & ->).
  cbn in *. repeat split. congruence.
Qed.

Lemma run_body_val (command_ : CommandLine) (options : RunOptions)
    (s s' : Popen * World) (c : CompletedProcess) :
  run_body command_ options s = (Val c, s') -> cp_args c = command_.
Proof.
  unfold run_body. intros H.
  apply bind_val_inv in H. destruct H as (out & s1 & H1 & H).
  apply bind_val_inv in H. destruct H as (err & s2 & H2 & H).
  apply bind_val_inv in H. destruct H as (u & s3 & H3 & H).
  apply bind_val_inv in H. destruct H as (popen & s4 & Hthis & H).
  match type of H with
  | (if ?b then _ else _) _ = _ => destruct b
  end; [discriminate|].
  unfold ret in H. inversion H; subst; clear H. reflexivity.
Qed.

Lemma run_val (command_ : CommandLine) (options : RunOptions)
    (w w' : World) (c : CompletedProcess) :
  run command_ options w = (Val c, w') -> cp_args c = command_.
Proof.
  unfold run, run_with. intros H.
  apply bind_val_inv in H. destruct H as (popen & w1 & _ & H).
  destruct (scoped _ _ (popen, w1)) as [r [p2 w2]] eqn:E.
  inversion H; subst; clear H.
  apply scoped_val_inv in E. destruct E as (s1 & E).
  eapply run_body_val. exact E.
Qed.

Lemma find_program_other (name : string) :
  name <> "python3"%string -> find_program name = find_program_in_path name.
Proof.
  intros H. unfold find_program.
  rewrite (proj2 (String.eqb_neq _ _) H). reflexivity.
Qed.

Lemma run_command_not_found (b : ProcessBuilder) (cmdline : CommandLine)
    (w : World) :
  List.hd ""%string cmdline <> "python3"%string ->
  w_find_program w (List.hd ""%string cmdline) = ""%string ->
  run_command b cmdline w
  = (Exc (CommandNotFoundError
            ("Command " +:+ dquote +:+ List.hd ""%string cmdline +:+ dquote
               +:+ " not found.")),
     log (N_find_program_in_path (List.hd ""%string cmdline)) w).
Proof.
  intros Hn H. unfold run_command, run_command_with, bind.
  rewrite (find_program_other _ Hn). unfold find_program_in_path.
  rewrite H. reflexivity.
Qed.

Lemma TerminateProcessByID_val (id : Z) (w : World) :
  exists w', TerminateProcessByID id w = (Val tt, w')
             /\ w_terminated w' = w_terminated w
             /\ w_wait w' = w_wait w /\ w_exitcode w' = w_exitcode w
             /\ exists tr, w_trace w' = w_trace w ++ tr.
Proof.
  unfold TerminateProcessByID, bind, OpenProcess, modify, CloseHandle, ret.
  cbn. destruct (negb (w_open_process w id =? 0)); cbn.
  - destruct (w_handles w !! w_open_process w id); cbn;
      (eexists; split; [reflexivity|]; cbn;
       split; [reflexivity|]; split; [reflexivity|]; split; [reflexivity|];
       rewrite <- !app_assoc; eexists; reflexivity).
  - exists (log (N_OpenProcess id) w). cbn. repeat split.
    eexists; reflexivity.
Qed.

Lemma for_each_TerminateProcessByID_val (ids : list Z) (w : World) :
  exists w', for_each TerminateProcessByID ids w = (Val tt, w')
             /\ w_terminated w' = w_terminated w
             /\ w_wait w' = w_wait w /\ w_exitcode w' = w_exitcode w
             /\ exists tr, w_trace w' = w_trace w ++ tr.
Proof.
  revert w. induction ids as [|id ids IH]; intros w; cbn.
  - exists w. unfold ret. repeat split. exists []. rewrite app_nil_r.
    reflexivity.
  - destruct (TerminateProcessByID_val id w)
      as (w1 & E & H1 & H2 & H3 & tr1 & H4).
    destruct (IH w1) as (w2 & E2 & H5 & H6 & H7 & tr2 & H8).
    exists w2. rewrite (bind_val _ _ _ _ _ E). rewrite E2.
    repeat split; try congruence.
    exists (tr1 ++ tr2). rewrite H8, H4, app_assoc. reflexivity.
Qed.

Lemma with_trace_nil (w : World) : with_trace [] w = w.
Proof. destruct w. unfold with_trace. cbn. rewrite app_nil_r. reflexivity. Qed.

Lemma with_trace_app (a b : list NativeCall) (w : World) :
  with_trace b (with_trace a w) = with_trace (a ++ b) w.
Proof. unfold with_trace. cbn. rewrite app_assoc. reflexivity. Qed.

Lemma log_with_trace (c : NativeCall) (cs : list NativeCall) (w : World) :
  log c (with_trace cs w) = with_trace (cs ++ [c]) w.
Proof. exact (with_trace_app cs [c] w). Qed.

Lemma CloseHandle_eq (h : Z) (w : World) :
  exists b,
    CloseHandle h w
    = (Val b, set_handles (delete h) (log (N_CloseHandle h) w)).
Proof.
  unfold CloseHandle. destruct (w_handles w !! h) eqn:E.
  - exists true. reflexivity.
  - exists false. f_equal. destruct w. unfold set_handles, log. cbn in *.
    rewrite (delete_id _ _ E). reflexivity.
Qed.

Lemma snapshot_loop_val (h parent : Z) (rest : list (Z * Z)) :
  forall (pe32 : Z * Z) (acc : list Z) (cs : list NativeCall) (w : World),
    snapshot_loop h parent pe32 rest acc (with_trace cs w)
    = (Val (acc ++ List.map fst
                     (List.filter (fun e => snd e =? parent) (pe32 :: rest))),
       with_trace (cs ++ List.map (fun _ => N_Process32Next h) (pe32 :: rest))
         w).
Proof.
  induction rest as [|next rest IH]; intros pe32 acc cs w.
  - cbn [snapshot_loop]. unfold bind, modify, ret.
    rewrite log_with_trace. cbn [List.filter List.map].
    destruct (snd pe32 =? parent); cbn [List.map];
      rewrite ?app_nil_r; reflexivity.
  - cbn [snapshot_loop]. unfold bind, modify.
    rewrite log_with_trace. rewrite IH.
    rewrite <- app_assoc. cbn [List.map app].
    f_equal. cbn [List.filter].
    destruct (snd pe32 =? parent); cbn [List.map];
      rewrite <- ?app_assoc; reflexivity.
Qed.

Lemma GetChildProcessIDs_val (parent : Z) (w : World) :
  GetChildProcessIDs parent w = (Val (children_of w parent), after_snapshot w).
Proof.
  unfold GetChildProcessIDs, children_of, after_snapshot, snapshot_calls.
  unfold bind at 1. unfold get. unfold bind at 1. unfold modify at 1.
  change (log N_CreateToolhelp32Snapshot w)
    with (with_trace [N_CreateToolhelp32Snapshot] w).
  destruct (w_snapshot w) as [[h entries]|]; [|reflexivity].
  unfold bind at 1. unfold modify at 1. rewrite log_with_trace.
  destruct entries as [|first rest].
  - unfold bind, ret. destruct (CloseHandle_eq h
      (with_trace ([N_CreateToolhelp32Snapshot] ++ [N_Process32First h]) w))
      as (b & E).
    rewrite E. rewrite log_with_trace. reflexivity.
  - unfold bind at 1. rewrite snapshot_loop_val.
    unfold bind, ret.
    match goal with
    | |- context [CloseHandle h ?w0] =>
        destruct (CloseHandle_eq h w0) as (b & E)
    end.
    rewrite E. rewrite log_with_trace. rewrite <- !app_assoc. reflexivity.
Qed.

Lemma send_signal_kill (p : Popen) (w : World) (q : list bool) :
  returncode p = kBadReturnCode ->
  w_terminated w = None ->
  w_terminate w = true :: q ->
  exists w1,
    send_signal PSIGKILL (p, w) = (Val true, (p, w1))
    /\ w_terminated w1 = Some 137
    /\ exists tr,
         w_trace w1
         = w_trace w ++ snapshot_calls w
             ++ N_TerminateProcess (hProcess (process_info p)) 137 :: tr.
Proof.
  intros Hrc Hterm Hq.
  set (h := hProcess (process_info p)).
  set (w1 := after_snapshot w).
  set (w2 := set_terminated (Some 137)
               (set_terminate q (log (N_TerminateProcess h 137) w1))).
  pose proof (GetChildProcessIDs_val (dwProcessId (process_info p)) w) as EG.
  fold w1 in EG.
  assert (w_terminate w1 = true :: q /\ w_terminated w1 = None
          /\ w_trace w1 = w_trace w ++ snapshot_calls w) as (Hq1 & Ht1 & Htr1).
  { unfold w1, after_snapshot. destruct (w_snapshot w) as [[hs es]|]; cbn;
      auto. }
  assert (TerminateProcess h 137 w1 = (Val true, w2)) as ET.
  { unfold TerminateProcess, native_call, bind, get, modify, ret. cbn.
    rewrite Hq1. cbn. rewrite Ht1. reflexivity. }
  destruct (for_each_TerminateProcessByID_val
              (children_of w (dwProcessId (process_info p))) w2)
    as (w3 & EF & H1 & _ & _ & tr & H4).
  exists w3. split; [|split].
  - unfold send_signal.
    rewrite this_bind.
    rewrite Hrc. rewrite Z.eqb_refl. cbn [negb].
    change (SigNum_eqb Win32 PSIGKILL PSIGKILL) with true. cbn iota.
    erewrite bind_val; cycle 1.
    { erewrite bind_val; [|apply liftW_eq, EG]. cbn beta.
      erewrite bind_val; [|apply liftW_eq, ET]. cbn beta.
      erewrite bind_val; [|apply liftW_eq, EF]. cbn beta.
      reflexivity. }
    reflexivity.
  - rewrite H1. reflexivity.
  - exists tr. rewrite H4. cbn. rewrite Htr1. rewrite <- !app_assoc.
    reflexivity.
Qed.

Lemma WaitForSingleObject_terminated (h ms : Z) (w : World) (code : Z) :
  w_terminated w = Some code ->
  WaitForSingleObject h ms w
  = (Val WAIT_OBJECT_0, log (N_WaitForSingleObject h ms) w).
Proof.
  intros H. unfold WaitForSingleObject, bind, get. rewrite H. reflexivity.
Qed.

Lemma GetExitCodeProcess_terminated (h : Z) (w : World) (code : Z) :
  w_terminated w = Some code ->
  GetExitCodeProcess h w
  = (Val (1, dword code), log (N_GetExitCodeProcess h) w).
Proof.
  intros H. unfold GetExitCodeProcess, bind, get. rewrite H. reflexivity.
Qed.

Lemma after_wait_object (p : Popen) (w w' : World) (ret_ excode : Z) :
  GetExitCodeProcess (hProcess (process_info p)) w
  = (Val (ret_, excode), w') ->
  ret_ <> 0 ->
  after_wait WAIT_OBJECT_0 (p, w)
  = (Val tt, (with_returncode excode p, w')).
Proof.
  intros HG Hr. unfold after_wait.
  change (WAIT_OBJECT_0 =? WAIT_ABANDONED) with false.
  change (WAIT_OBJECT_0 =? WAIT_FAILED) with false.
  change (negb (WAIT_OBJECT_0 =? WAIT_OBJECT_0)) with false. cbn iota.
  rewrite this_bind.
  erewrite bind_val; [|apply liftW_eq, HG]. cbn beta iota.
  apply Z.eqb_neq in Hr. rewrite Hr. reflexivity.
Qed.

Lemma wait_exited (timeout : Q) (p : Popen) (w w1 w2 : World)
    (ret_ excode : Z) :
  returncode p = kBadReturnCode ->
  WaitForSingleObject (hProcess (process_info p)) (timeout_ms timeout) w
  = (Val WAIT_OBJECT_0, w1) ->
  GetExitCodeProcess (hProcess (process_info p)) w1
  = (Val (ret_, excode), w2) ->
  ret_ <> 0 ->
  wait timeout (p, w) = (Val excode, (with_returncode excode p, w2)).
Proof.
  intros Hrc HW HG Hr. unfold wait. rewrite this_bind.
  rewrite Hrc, Z.eqb_refl.
  erewrite bind_val; cycle 1.
  { erewrite bind_val; [|apply liftW_eq, HW]. cbn beta.
    change (WAIT_OBJECT_0 =? WAIT_TIMEOUT) with false. cbn iota.
    eapply after_wait_object; eassumption. }
  reflexivity.
Qed.


Lemma wait_terminated (timeout : Q) (p : Popen) (w : World) (code : Z) :
  returncode p = kBadReturnCode ->
  w_terminated w = Some code ->
  wait timeout (p, w)
  = (Val (dword code),
     (with_returncode (dword code) p,
      log (N_GetExitCodeProcess (hProcess (process_info p)))
        (log (N_WaitForSingleObject (hProcess (process_info p))
                (timeout_ms timeout)) w))).
Proof.
  intros Hrc Hterm.
  eapply wait_exited; [exact Hrc | | | ].
  - eapply WaitForSingleObject_terminated. exact Hterm.
  - eapply GetExitCodeProcess_terminated. exact Hterm.
  - lia.
Qed.

Lemma posix_read_writer_closed (h size : Z) (w : World) (p : Pipe)
    (inh : bool) :
  w_handles w !! h = Some (mkHandle (K_read p) inh) ->
  p_writer_closed p = true ->
  exists r buf w' p',
    posix_read h size w = (Val (r, buf), w')
    /\ 0 <= r
    /\ w_handles w' !! h = Some (mkHandle (K_read p') inh)
    /\ p_writer_closed p' = true.
Proof.
  intros Hh Hc. unfold posix_read. rewrite Hh.
  destruct (size =? 0).
  { exists 0, ""%string, (log (N_read h size) w), p. cbn. auto with zarith. }
  destruct (pipe_data p) as [|a data] eqn:E.
  { rewrite Hc. exists 0, ""%string, (log (N_read h size) w), p. cbn.
    auto with zarith. }
  destruct (split_bytes _ _) as [got rest] eqn:ES.
  eexists _, _, _, _. split; [reflexivity|]. cbn.
  split; [lia|]. split; [apply lookup_insert_eq | exact Hc].
Qed.

Lemma ignore_and_close_posix_eof (fuel : nat) (h : Z) (w : World) (p : Pipe)
    (inh : bool) :
  w_handles w !! h = Some (mkHandle (K_read p) inh) ->
  p_writer_closed p = true ->
  exists w',
    ignore_and_close_thread Posix fuel h w = (Val None, w')
    /\ is_Some (w_handles w' !! h).
Proof.
  revert w p. induction fuel as [|fuel IH]; intros w p Hh Hc.
  - exists w. split; [reflexivity|]. rewrite Hh. eauto.
  - destruct (posix_read_writer_closed h 1024 w p inh Hh Hc)
      as (r & buf & w1 & p1 & ER & Hr & Hh1 & Hc1).
    destruct (IH w1 p1 Hh1 Hc1) as (w2 & E2 & Ho).
    exists w2. split; [|exact Ho].
    cbn [ignore_and_close_thread]. unfold pipe_read.
    rewrite (bind_val _ _ _ _ _ ER). cbn [fst].
    destruct (r >=? 0) eqn:Eg; [exact E2|]. lia.
Qed.


(** ** Invariants of a computation *)


Lemma noexcept_val_inv {S A} (m : M S A) (s s' : S) (a : A) :
  noexcept m s = (Val a, s') -> m s = (Val a, s').
Proof.
  unfold noexcept. destruct (m s) as [[a0| | |] s1]; intros H;
    try discriminate; exact H.
Qed.

Section Keeps.
Context {S : Type} (I : S -> Prop).

Lemma keeps_bind {A B} (Q1 : A -> Prop) (Q2 : B -> Prop) (m : M S A)
    (k : A -> M S B) :
  keeps I Q1 m -> (forall a, Q1 a -> keeps I Q2 (k a)) ->
  keeps I Q2 (bind m k).
Proof.
  intros Hm Hk s r s' Hs H. unfold bind in H.
  destruct (m s) as [[a| e | |] s1] eqn:E.
  - destruct (Hm _ _ _ Hs E) as [H1 H2].
    exact (Hk a (H2 a eq_refl) _ _ _ H1 H).
  - inversion H; subst. destruct (Hm _ _ _ Hs E) as [H1 _].
    split; [exact H1 | discriminate].
  - inversion H; subst. destruct (Hm _ _ _ Hs E) as [H1 _].
    split; [exact H1 | discriminate].
  - inversion H; subst. destruct (Hm _ _ _ Hs E) as [H1 _].
    split; [exact H1 | discriminate].
Qed.

Lemma keeps_ret {A} (Q : A -> Prop) (a : A) : Q a -> keeps I Q (ret a).
Proof.
  intros Ha s r s' Hs H. unfold ret in H. inversion H; subst.
  split; [exact Hs|]. intros a' E. inversion E; subst. exact Ha.
Qed.

Lemma keeps_throw {A} (Q : A -> Prop) (e : Exn) : keeps I Q (throw e).
Proof.
  intros s r s' Hs H. unfold throw in H. inversion H; subst.
  split; [exact Hs | discriminate].
Qed.

Lemma keeps_weaken {A} (Q1 Q2 : A -> Prop) (m : M S A) :
  (forall a, Q1 a -> Q2 a) -> keeps I Q1 m -> keeps I Q2 m.
Proof.
  intros HQ Hm s r s' Hs H. destruct (Hm _ _ _ Hs H) as [H1 H2].
  split; [exact H1|]. intros a E. apply HQ, H2, E.
Qed.

Lemma keeps_if {A} (Q : A -> Prop) (b : bool) (m1 m2 : M S A) :
  keeps I Q m1 -> keeps I Q m2 -> keeps I Q (if b then m1 else m2).
Proof. destruct b; auto. Qed.
End Keeps.

(** A computation on the world keeps every property of the object it is
    lifted over. *)
Lemma keeps_liftW {O A} (I : O * World -> Prop) (m : M World A) :
  (forall o w w', I (o, w) -> I (o, w')) ->
  keeps I (fun _ => True) (liftW m).
Proof.
  intros HI [o w] r s' Hs H. apply liftW_inv in H.
  destruct H as (w' & _ & ->). split; [eapply HI, Hs | auto].
Qed.

Lemma process_status_unknown_world (o : RCLocals) (w w' : World) :
  process_status_unknown (o, w) -> process_status_unknown (o, w').
Proof. exact (fun H => H). Qed.

Lemma keeps_set_process (f : Popen -> Popen) :
  (forall p, returncode (f p) = returncode p) ->
  keeps process_status_unknown (fun _ => True) (set_process f).
Proof.
  intros Hf [l w] r s' Hs H. unfold set_process in H. inversion H; subst.
  split; [|auto]. unfold process_status_unknown in *. cbn in *.
  rewrite Hf. exact Hs.
Qed.

Lemma keeps_set_process_default :
  keeps process_status_unknown (fun _ => True)
    (set_process (fun _ => Popen_default)).
Proof.
  intros [l w] r s' Hs H. unfold set_process in H. inversion H; subst.
  split; [reflexivity | auto].
Qed.

Lemma keeps_set_cin_pair (pp : PipePair) :
  keeps process_status_unknown (fun _ => True) (set_cin_pair pp).
Proof.
  intros [l w] r s' Hs H. unfold set_cin_pair in H. inversion H; subst.
  split; [exact Hs | auto].
Qed.

Lemma keeps_set_cout_pair (pp : PipePair) :
  keeps process_status_unknown (fun _ => True) (set_cout_pair pp).
Proof.
  intros [l w] r s' Hs H. unfold set_cout_pair in H. inversion H; subst.
  split; [exact Hs | auto].
Qed.

Lemma keeps_set_cerr_pair (pp : PipePair) :
  keeps process_status_unknown (fun _ => True) (set_cerr_pair pp).
Proof.
  intros [l w] r s' Hs H. unfold set_cerr_pair in H. inversion H; subst.
  split; [exact Hs | auto].
Qed.

Lemma keeps_locals :
  keeps process_status_unknown
    (fun l => returncode (l_process l) = kBadReturnCode) locals.
Proof.
  intros [l w] r s' Hs H. unfold locals in H. inversion H; subst.
  split; [exact Hs|]. intros a E. inversion E; subst. exact Hs.
Qed.

(** One step of a proof by [keeps]: split a [bind], discharge a lifted
    native computation or a local assignment. *)
Ltac keeps_step :=
  lazymatch goal with
  | |- keeps _ _ (bind (liftW _) _) =>
      eapply keeps_bind;
      [apply keeps_liftW; exact process_status_unknown_world | intros ? _]
  | |- keeps _ _ (bind locals _) =>
      eapply keeps_bind; [apply keeps_locals | intros ? ?]
  | |- keeps _ _ (bind (set_process (fun _ => Popen_default)) _) =>
      eapply keeps_bind; [apply keeps_set_process_default | intros ? _]
  | |- keeps _ _ (bind (set_process _) _) =>
      eapply keeps_bind;
      [apply keeps_set_process; intros []; reflexivity | intros ? _]
  | |- keeps _ _ (set_cin_pair _) => apply keeps_set_cin_pair
  | |- keeps _ _ (set_cout_pair _) => apply keeps_set_cout_pair
  | |- keeps _ _ (set_cerr_pair _) => apply keeps_set_cerr_pair
  | |- keeps _ _ (bind (set_cin_pair _) _) =>
      eapply keeps_bind; [apply keeps_set_cin_pair | intros ? _]
  | |- keeps _ _ (bind (set_cout_pair _) _) =>
      eapply keeps_bind; [apply keeps_set_cout_pair | intros ? _]
  | |- keeps _ _ (bind (set_cerr_pair _) _) =>
      eapply keeps_bind; [apply keeps_set_cerr_pair | intros ? _]
  | |- keeps _ _ (bind (if _ then _ else _) _) =>
      eapply keeps_bind with (Q1 := fun _ => True); [| intros ? _]
  | |- keeps _ _ (if _ then _ else _) => apply keeps_if
  | |- keeps _ _ (ret _) => apply keeps_ret; first [exact I | assumption]
  | |- keeps _ _ (throw _) => apply keeps_throw
  | |- keeps _ _ (let '(_, _) := ?r in _) => destruct r
  end.

Lemma run_command_body_status (b : ProcessBuilder) (cmdline : CommandLine)
    (program : string) :
  keeps process_status_unknown (fun p => returncode p = kBadReturnCode)
    (run_command_body b cmdline program).
Proof.
  unfold run_command_body.
  repeat keeps_step.
Qed.

Lemma run_command_val (b : ProcessBuilder) (cmdline : CommandLine)
    (w w' : World) (p : Popen) :
  run_command b cmdline w = (Val p, w') -> returncode p = kBadReturnCode.
Proof.
  unfold run_command, run_command_with. intros H.
  apply bind_val_inv in H. destruct H as (program & w1 & _ & H).
  destruct (String.eqb program ""); [discriminate|].
  apply bind_val_inv in H. destruct H as (u & w2 & _ & H).
  destruct (scoped _ _ (RCLocals_init, w2)) as [r [l3 w3]] eqn:E.
  inversion H; subst; clear H.
  apply scoped_val_inv in E. destruct E as (s1 & E).
  refine (proj2 (run_command_body_status b cmdline program _ _ _ _ E) p eq_refl).
  reflexivity.
Qed.

Lemma Popen_move_assign_val (other other' : Popen) (s s' : Popen * World) :
  Popen_move_assign other s = (Val other', s') -> fst s' = other.
Proof.
  unfold Popen_move_assign. intros H. apply noexcept_val_inv in H.
  apply bind_val_inv in H. destruct H as (u & s1 & _ & H).
  apply bind_val_inv in H. destruct H as (u2 & s2 & HA & H).
  unfold assign in HA. inversion HA; subst; clear HA.
  unfold ret in H. inversion H; subst; clear H. reflexivity.
Qed.

Lemma init_val (command_ : CommandLine) (options : RunOptions)
    (s s' : Popen * World) (u : unit) :
  init command_ options s = (Val u, s') ->
  returncode (fst s') = kBadReturnCode.
Proof.
  unfold init, init_with. intros H.
  apply bind_val_inv in H. destruct H as (builder & s1 & _ & H).
  apply bind_val_inv in H. destruct H as (tmp & [p2 w2] & HR & H).
  apply liftW_inv in HR. destruct HR as (w2' & HR & _).
  apply run_command_val in HR.
  apply bind_val_inv in H. destruct H as (tmp' & [p3 w3] & HM & H).
  apply Popen_move_assign_val in HM. cbn in HM. subst p3.
  apply bind_val_inv in H. destruct H as (r4 & s4 & HD & H).
  apply liftW_inv in HD. destruct HD as (w4 & _ & ->).
  rewrite this_bind in H.
  apply bind_val_inv in H. destruct H as (fed & s5 & HF & H).
  apply liftW_inv in HF. destruct HF as (w5 & _ & ->).
  apply bind_val_inv in H. destruct H as (u6 & [p6 w6] & HA & H).
  assert (returncode p6 = kBadReturnCode) as Hp6.
  { destruct fed.
    - unfold assign in HA. inversion HA; subst. exact HR.
    - unfold ret in HA. inversion HA; subst. exact HR. }
  rewrite this_bind in H.
  apply bind_val_inv in H. destruct H as (u7 & s7 & HO & H).
  apply liftW_inv in HO. destruct HO as (w7 & _ & ->).
  apply liftW_inv in H. destruct H as (w8 & _ & ->). exact Hp6.
Qed.

Lemma call_on_val_inv {A} (o o' : Popen) (m : Method A) (w w' : World)
    (a : A) :
  call_on o m w = (Val (a, o'), w') -> m (o, w) = (Val a, (o', w')).
Proof.
  unfold call_on. destruct (m (o, w)) as [[a0| | |] [o1 w1]]; intros H;
    inversion H; subst; reflexivity.
Qed.

Lemma Popen_ctor_val (command_ : CommandLine) (options : RunOptions)
    (w w' : World) (p : Popen) :
  Popen_ctor command_ options w = (Val p, w') ->
  returncode p = kBadReturnCode.
Proof.
  unfold Popen_ctor, Popen_ctor_with. intros H.
  apply bind_val_inv in H. destruct H as ([u o] & w1 & HC & H).
  unfold ret in H. inversion H; subst; clear H. cbn.
  apply call_on_val_inv in HC. apply init_val in HC. exact HC.
Qed.

Lemma CloseHandle_val (h : Z) (w : World) :
  exists b w', CloseHandle h w = (Val b, w')
               /\ w_trace w' = w_trace w ++ [N_CloseHandle h].
Proof.
  unfold CloseHandle. destruct (w_handles w !! h); eexists _, _;
    (split; [reflexivity|reflexivity]).
Qed.



Lemma send_signal_break (signum : SigNum) (p : Popen) (w : World) (b : bool)
    (qc : list bool) :
  returncode p = kBadReturnCode ->
  SigNum_eqb Win32 signum PSIGKILL = false ->
  SigNum_eqb Win32 signum PSIGINT = false ->
  w_ctrl w = b :: qc ->
  send_signal signum (p, w)
  = (Val b, (p, after_ctrl_event CTRL_BREAK_EVENT (pid p) b qc w)).
Proof.
  intros Hrc Hk Hi Hq. unfold send_signal. rewrite this_bind.
  rewrite Hrc, Z.eqb_refl, Hk, Hi. cbn [negb].
  assert (GenerateConsoleCtrlEvent CTRL_BREAK_EVENT (pid p) w
          = (Val b, set_ctrl qc
                      (log (N_GenerateConsoleCtrlEvent CTRL_BREAK_EVENT (pid p))
                         w))) as E.
  { unfold GenerateConsoleCtrlEvent, native_call. rewrite Hq. reflexivity. }
  erewrite bind_val; [|apply liftW_eq; exact E]. cbn beta.
  unfold after_ctrl_event. destruct b; reflexivity.
Qed.

Lemma WaitForSingleObject_answer (h ms wr : Z) (q : list Z) (w : World) :
  w_terminated w = None ->
  w_wait w = wr :: q ->
  WaitForSingleObject h ms w
  = (Val (dword wr), set_wait q (log (N_WaitForSingleObject h ms) w)).
Proof.
  intros Ht Hq. unfold WaitForSingleObject, bind, get, native_call.
  rewrite Ht, Hq. reflexivity.
Qed.

Lemma GetExitCodeProcess_answer (h ret_ excode : Z) (q : list (Z * Z))
    (w : World) :
  w_terminated w = None ->
  w_exitcode w = (ret_, excode) :: q ->
  GetExitCodeProcess h w
  = (Val (ret_, dword excode),
     set_exitcode q (log (N_GetExitCodeProcess h) w)).
Proof.
  intros Ht Hq. unfold GetExitCodeProcess, bind, get, native_call.
  rewrite Ht, Hq. reflexivity.
Qed.


(** ** Enough fuel for [pipe_read_all] *)

Lemma length_append (a b : string) :
  String.length (a +:+ b) = (String.length a + String.length b)%nat.
Proof.
  induction a as [|c a IH]; [reflexivity|].
  change (S (String.length (a +:+ b))
          = S (String.length a + String.length b)%nat).
  f_equal. exact IH.
Qed.

Lemma length_substring_tail (s : string) (n : nat) :
  (n <= String.length s)%nat ->
  String.length (String.substring n (String.length s - n) s)
  = (String.length s - n)%nat.
Proof.
  revert n. induction s as [|c s IH]; intros n Hn; cbn in *.
  - destruct n; reflexivity.
  - destruct n as [|n].
    + cbn. f_equal. specialize (IH 0%nat ltac:(lia)).
      rewrite Nat.sub_0_r in IH. exact IH.
    + apply IH. lia.
Qed.

Lemma pipe_data_push_back (rest : string) (chunks : list string)
    (closed : bool) :
  pipe_data (mkPipe (push_back rest chunks) closed)
  = rest +:+ pipe_data (mkPipe chunks closed).
Proof. destruct rest; reflexivity. Qed.

Lemma pipe_read_progress (pf : Platform) (h size r : Z) (buf : string)
    (w w' : World) :
  pipe_read pf h size w = (Val (r, buf), w') ->
  r > 0 ->
  (bytes_left w' h < bytes_left w h)%nat.
Proof.
  intros H Hr. destruct pf.
  - unfold pipe_read in H.
    apply bind_val_inv in H. destruct H as ([[result bread] b] & w1 & HR & H).
    unfold ret in H. inversion H; subst; clear H.
    unfold ReadFile in HR. unfold bytes_left.
    destruct (w_handles w !! h) as [[[p| |] inh]|] eqn:Eh;
      try solve [inversion HR; subst; lia].
    destruct (p_chunks p) as [|c rest] eqn:Ec.
    + destruct (p_writer_closed p); [|discriminate].
      inversion HR; subst. lia.
    + unfold split_bytes in HR. inversion HR; subst; clear HR. cbn.
      rewrite lookup_insert_eq. unfold pending_bytes.
      rewrite pipe_data_push_back, length_append.
      unfold pipe_data at 2. rewrite Ec. cbn [fold_right p_chunks].
      rewrite length_append.
      rewrite length_substring_tail by lia.
      unfold pipe_data. cbn [p_chunks]. lia.
  - unfold pipe_read, posix_read in H. unfold bytes_left.
    destruct (w_handles w !! h) as [[[p| |] inh]|] eqn:Eh;
      try solve [inversion H; subst; lia].
    destruct (size =? 0); [inversion H; subst; lia|].
    destruct (pipe_data p) as [|a data] eqn:Ed.
    + destruct (p_writer_closed p); [|discriminate].
      inversion H; subst. lia.
    + cbv beta iota zeta in H.
      assert (1 <= String.length (String a data))%nat as Hd by (cbn; lia).
      unfold pending_bytes. rewrite Ed.
      revert Hd H. generalize (String a data) as d. intros d Hd H.
      unfold split_bytes in H. inversion H; subst; clear H.
      cbn [w_handles set_handles log].
      rewrite lookup_insert_eq. unfold pending_bytes.
      rewrite pipe_data_push_back, length_append.
      rewrite length_substring_tail by lia.
      cbn. lia.
Qed.

(** With more fuel than there are bytes left the loop of [pipe_read_all]
    never runs out: any additional fuel gives the same result. *)
Lemma pipe_read_all_loop_fuel (pf : Platform) (fuel extra : nat) (h : Z)
    (acc : string) (w : World) :
  (bytes_left w h < fuel)%nat ->
  pipe_read_all_loop pf (fuel + extra) h acc w
  = pipe_read_all_loop pf fuel h acc w.
Proof.
  revert acc w. induction fuel as [|fuel IH]; intros acc w Hlt; [lia|].
  cbn [Nat.add pipe_read_all_loop]. unfold bind.
  destruct (pipe_read pf h 2048 w) as [[[r buf]| | |] w1] eqn:E;
    try reflexivity.
  destruct (r >? 0) eqn:Er; [|reflexivity].
  apply IH. apply pipe_read_progress in E; [|lia]. lia.
Qed.

Lemma pipe_read_all_fuel (pf : Platform) (extra : nat) (h : Z) (w : World) :
  pipe_read_all pf h w
  = (if negb (h =? kBadPipeValue pf)
     then pipe_read_all_loop pf (S (bytes_left w h) + extra) h "" w
     else (Val ""%string, w)).
Proof.
  unfold pipe_read_all. destruct (negb (h =? kBadPipeValue pf)); [|reflexivity].
  unfold bind, get. rewrite pipe_read_all_loop_fuel by lia.
  unfold bytes_left.
  destruct (w_handles w !! h) as [[[p| |] inh]|]; reflexivity.
Qed.

Lemma classic_bad (v : PipeVar) : bad_handle v \/ ~ bad_handle v.
Proof.
  unfold bad_handle. destruct v as [o | str | h | ptr | ptr | ptr];
    try (right; discriminate).
  destruct (Z.eq_dec h (kBadPipeValue Win32)) as [-> | Hn].
  - left. reflexivity.
  - right. intros E. inversion E. contradiction.
Qed.

(** ** The check of explicit handles in [Popen::init] *)

Lemma setPipeOption_bad {S} (pipe : Z) (v : PipeVar) (msg : string) (s : S) :
  bad_handle v ->
  setPipeOption pipe v msg s = (Exc (invalid_argument msg), s).
Proof. intros ->. reflexivity. Qed.

Lemma setPipeOption_bare {S} (pipe : Z) (v : PipeVar) (msg : string) (s : S) :
  bare_specific v ->
  setPipeOption pipe v msg s = (Exc bad_variant_access, s).
Proof. intros ->. reflexivity. Qed.

Lemma setPipeOption_pass {S} (pipe : Z) (v : PipeVar) (msg : string) (s : S) :
  ~ bad_handle v -> ~ bare_specific v ->
  exists r,
    setPipeOption pipe v msg s = (Val r, s)
    /\ (forall h, v = PV_handle h -> r = (h, PO_specific)).
Proof.
  unfold bad_handle, bare_specific. intros Hb Hs.
  destruct v as [o | str | h | ptr | ptr | ptr].
  - destruct o; try (eexists; split; [reflexivity | intros; discriminate]).
    congruence.
  - eexists; split; [reflexivity | intros; discriminate].
  - unfold setPipeOption. cbn.
    destruct (h =? 0) eqn:E.
    + apply Z.eqb_eq in E. subst h. exfalso. apply Hb. reflexivity.
    + eexists; split; [reflexivity|]. intros h' Hh. congruence.
  - eexists; split; [reflexivity | intros; discriminate].
  - eexists; split; [reflexivity | intros; discriminate].
  - eexists; split; [reflexivity | intros; discriminate].
Qed.

Lemma setPipeOption_val {S} (pipe : Z) (v : PipeVar) (msg : string)
    (s s' : S) (r : Z * PipeOption) :
  setPipeOption pipe v msg s = (Val r, s') ->
  s' = s
  /\ (forall h, v = PV_handle h ->
                h <> kBadPipeValue Win32 /\ r = (h, PO_specific)).
Proof.
  intros H.
  destruct v as [o | str | h | ptr | ptr | ptr];
    try (unfold setPipeOption in H; cbn in H;
         repeat case_match; try discriminate;
         inversion H; subst; split; [reflexivity | intros; discriminate]).
  unfold setPipeOption in H. cbn in H.
  destruct (h =? 0) eqn:E; [discriminate|].
  inversion H; subst. split; [reflexivity|].
  intros h' Hh. inversion Hh; subst. split; [|reflexivity].
  apply Z.eqb_neq in E. exact E.
Qed.

Lemma Popen_ctor_builder_throws (command_ : CommandLine)
    (options : RunOptions) (w : World) (e : Exn) :
  init_builder options (Popen_default, w) = (Exc e, (Popen_default, w)) ->
  Popen_ctor command_ options w = (Exc e, w).
Proof.
  intros H. unfold Popen_ctor, Popen_ctor_with.
  erewrite bind_exc; [reflexivity|].
  unfold call_on, init, init_with.
  erewrite bind_exc; [|exact H]. reflexivity.
Qed.

Lemma init_builder_first_bad (options : RunOptions) (s : Popen * World) :
  bad_handle (ro_cin options)
  \/ (~ bare_specific (ro_cin options) /\ bad_handle (ro_cout options))
  \/ (~ bare_specific (ro_cin options) /\ ~ bare_specific (ro_cout options)
      /\ bad_handle (ro_cerr options)) ->
  exists msg, init_builder options s = (Exc (invalid_argument msg), s).
Proof.
  intros H. unfold init_builder.
  destruct (classic_bad (ro_cin options)) as [Hci | Hci].
  { eexists. erewrite bind_exc; [reflexivity|].
    apply setPipeOption_bad. exact Hci. }
  assert (~ bare_specific (ro_cin options)) as Hsi by tauto.
  destruct (setPipeOption_pass (cin_pipe ProcessBuilder_default)
              (ro_cin options) "Bad pipe value for cin" s Hci Hsi)
    as (ri & Ei & _).
  destruct (classic_bad (ro_cout options)) as [Hco | Hco].
  { eexists. erewrite bind_val; [|exact Ei]. cbn beta.
    erewrite bind_exc; [reflexivity|].
    apply setPipeOption_bad. exact Hco. }
  assert (~ bare_specific (ro_cout options)) as Hso by tauto.
  destruct (setPipeOption_pass (cout_pipe ProcessBuilder_default)
              (ro_cout options) "Bad pipe value for cout" s Hco Hso)
    as (ro & Eo & _).
  assert (bad_handle (ro_cerr options)) as Hce by tauto.
  eexists. erewrite bind_val; [|exact Ei]. cbn beta.
  erewrite bind_val; [|exact Eo]. cbn beta.
  erewrite bind_exc; [reflexivity|].
  apply setPipeOption_bad. exact Hce.
Qed.

Lemma init_builder_val (options : RunOptions) (s s' : Popen * World)
    (b : ProcessBuilder) :
  init_builder options s = (Val b, s') ->
  s' = s
  /\ (forall h, ro_cin options = PV_handle h ->
        h <> kBadPipeValue Win32
        /\ cin_option b = PO_specific /\ cin_pipe b = h)
  /\ (forall h, ro_cout options = PV_handle h ->
        h <> kBadPipeValue Win32
        /\ cout_option b = PO_specific /\ cout_pipe b = h)
  /\ (forall h, ro_cerr options = PV_handle h ->
        h <> kBadPipeValue Win32
        /\ cerr_option b = PO_specific /\ cerr_pipe b = h).
Proof.
  unfold init_builder. intros H.
  apply bind_val_inv in H. destruct H as (ci & s1 & Hi & H).
  apply bind_val_inv in H. destruct H as (co & s2 & Ho & H).
  apply bind_val_inv in H. destruct H as (ce & s3 & He & H).
  unfold ret in H. inversion H; subst; clear H. cbn.
  apply setPipeOption_val in Hi. destruct Hi as (-> & Hi).
  apply setPipeOption_val in Ho. destruct Ho as (-> & Ho).
  apply setPipeOption_val in He. destruct He as (-> & He).
  split; [reflexivity|]. split; [|split].
  - intros h Hh. destruct (Hi h Hh) as (Hn & ->). auto.
  - intros h Hh. destruct (Ho h Hh) as (Hn & ->). auto.
  - intros h Hh. destruct (He h Hh) as (Hn & ->). auto.
Qed.

(** ** The milliseconds of a timeout *)

Lemma truncate_nonneg (x : Q) :
  0 <= QArith_base.Qnum x -> 0 <= truncate x.
Proof.
  intros H. unfold truncate. apply Z.quot_pos; [exact H | lia].
Qed.

Lemma round_half_even_nonneg (x : Q) :
  0 <= QArith_base.Qnum x -> 0 <= round_half_even x.
Proof.
  intros H. unfold round_half_even.
  assert (0 <= QArith_base.Qnum x / Z.pos (QArith_base.Qden x))
    by (apply Z.div_pos; lia).
  destruct (2 * (QArith_base.Qnum x `mod` Z.pos (QArith_base.Qden x))
            ?= Z.pos (QArith_base.Qden x));
    [destruct (Z.even _)| |]; lia.
Qed.

Lemma Qnum_scale2 (x : Q) (e : Z) :
  0 <= QArith_base.Qnum x -> 0 <= QArith_base.Qnum (scale2 x e).
Proof.
  intros H. unfold scale2. destruct (0 <=? e) eqn:E; cbn; [|exact H].
  apply Z.mul_nonneg_nonneg; [exact H|].
  apply Z.pow_nonneg. lia.
Qed.

(** The [double] that [wait] converts is never negative. *)
Lemma timeout_product_nonneg (timeout : Q) :
  0 <= QArith_base.Qnum (timeout_product timeout).
Proof.
  unfold timeout_product.
  destruct (negb (QArith_base.Qle_bool (QArith_base.inject_Z 0)
                    (binary64 timeout))) eqn:E; [cbn; unfold INFINITE; lia|].
  apply negb_false_iff in E.
  unfold QArith_base.Qle_bool in E. cbn in E. apply Z.leb_le in E.
  assert (0 <= QArith_base.Qnum (binary64 timeout)) as Hn by lia.
  set (t := QArith_base.Qmult (binary64 timeout) (QArith_base.inject_Z 1000)).
  assert (0 <= QArith_base.Qnum t) as Ht by (unfold t; cbn; lia).
  clearbody t. unfold binary64.
  destruct (QArith_base.Qnum t) eqn:En; [cbn; lia| |lia].
  apply Qnum_scale2. cbn. apply round_half_even_nonneg, Qnum_scale2.
  rewrite En. lia.
Qed.

(** In the range of [DWORD] the conversion is the truncation. *)
Lemma timeout_ms_in_range (timeout : Q) :
  timeout_in_range timeout = true ->
  timeout_ms timeout = truncate (timeout_product timeout).
Proof.
  unfold timeout_in_range, timeout_ms, dword. intros H.
  apply Z.ltb_lt in H. apply Z.mod_small. split; [|exact H].
  apply truncate_nonneg, timeout_product_nonneg.
Qed.

(** The [double] nearest to 0.3 is 5404319552844595 / 2^54, below 0.3, and
    its product with 1000.0 is the [double] 300; the [double] nearest to
    1.001 is below 1.001 and its product with 1000.0 is a [double] below
    1001; a negative timeout is a wait without limit.  Halfway between two
    [double]s the even significand is taken. *)
Example timeout_ms_samples :
  binary64 (QArith_base.Qmake 3 10)
  = QArith_base.Qmake 5404319552844595 18014398509481984
  /\ timeout_ms (QArith_base.Qmake 3 10) = 300
  /\ timeout_ms (QArith_base.Qmake 1001 1000) = 1000
  /\ timeout_ms (QArith_base.Qmake 5 2) = 2500
  /\ timeout_ms wait_default = INFINITE
  /\ binary64 (QArith_base.inject_Z (2 ^ 53 + 1)) = QArith_base.inject_Z (2 ^ 53)
  /\ binary64 (QArith_base.inject_Z (2 ^ 53 + 3))
     = QArith_base.inject_Z (2 ^ 53 + 4).
Proof. vm_compute. repeat split. Qed.

(** * The claims of the specification *)

(** ** C1: [run(popen, check)] raises if and only if the exit code is nonzero *)

Lemma run_Popen_check_never_returns (s s' : Popen * World)
    (c : CompletedProcess) :
  run_Popen true s <> (Val c, s').
Proof.
  intros H. apply run_Popen_val in H. destruct H as (H & _). discriminate.
Qed.

(** C1: with [check] set, [run(Popen&, bool)] is to raise a Called-process
    error exactly when the exit code is nonzero and to return the snapshot
    when it is zero.  The code throws whenever [check] is set: for a child
    that wrote "hi" and exited with code 0 the overload raises
    [CalledProcessError] carrying exit code 0, although without [check] the
    same call returns the snapshot. *)
Theorem run_Popen_check_raises_on_exit_code_zero :
  fst (run_Popen true (ex_popen, ex_world_exit0))
  = Exc (CalledProcessError "failed to execute echo" ["echo"; "hi"]%string 0
           "hi" "")
  /\ fst (run_Popen false (ex_popen, ex_world_exit0))
     = Val (mkCompleted ["hi"%string] 0 "hi" "").
Proof. split; vm_compute; reflexivity. Qed.

(** ** C2: the exit code of a killed child *)

(** C2, as stated, fails: on the Windows process layer a child that
    [send_signal(PSIGKILL)] terminates is reported by [wait()] with exit
    code 137, not with -9. *)
Lemma kill_exit_code_counterexample :
  (exists w1 s2,
      send_signal PSIGKILL (ex_popen_plain, ex_world_kill)
      = (Val true, (ex_popen_plain, w1))
      /\ wait wait_default (ex_popen_plain, w1) = (Val 137, s2))
  /\ ~ kill_reports_negative_signal.
Proof.
  destruct (send_signal_kill ex_popen_plain ex_world_kill [] eq_refl eq_refl
              eq_refl) as (w1 & E1 & Ht & _).
  pose proof (wait_terminated wait_default ex_popen_plain w1 137 eq_refl Ht)
    as E2.
  split.
  - exists w1. eexists. split; [exact E1 | exact E2].
  - intros H.
    specialize (H ex_popen_plain ex_world_kill w1 wait_default _ _ eq_refl
                  E1 E2).
    vm_compute in H. discriminate.
Qed.

(** C2, amended: on the handle/console-event platform a running child on
    which [send_signal(PSIGKILL)] succeeds is terminated with
    [TerminateProcess(hProcess, 137)], and a following [wait()] reports the
    exit code 137 and caches it. *)
Theorem kill_reports_137 (p : Popen) (w : World) (q : list bool)
    (timeout : Q) :
  returncode p = kBadReturnCode ->
  w_terminated w = None ->
  w_terminate w = true :: q ->
  exists w1 s2,
    send_signal PSIGKILL (p, w) = (Val true, (p, w1))
    /\ In (N_TerminateProcess (hProcess (process_info p)) 137) (w_trace w1)
    /\ wait timeout (p, w1) = (Val 137, s2)
    /\ returncode (fst s2) = 137.
Proof.
  intros Hrc Hterm Hq.
  destruct (send_signal_kill p w q Hrc Hterm Hq) as (w1 & E & Ht & tr & Htr).
  exists w1. eexists. split; [exact E|]. split.
  - rewrite Htr. apply in_or_app. right. apply in_or_app. right. left.
    reflexivity.
  - rewrite (wait_terminated timeout p w1 137 Hrc Ht). split; reflexivity.
Qed.

Lemma kill_reports_137_witness :
  exists w1 s2,
    send_signal PSIGKILL (ex_popen_plain, ex_world_kill)
    = (Val true, (ex_popen_plain, w1))
    /\ In (N_TerminateProcess (hProcess (process_info ex_popen_plain)) 137)
         (w_trace w1)
    /\ wait wait_default (ex_popen_plain, w1) = (Val 137, s2)
    /\ returncode (fst s2) = 137.
Proof.
  apply (kill_reports_137 ex_popen_plain ex_world_kill [] wait_default);
    reflexivity.
Defined.

(** Every exit code [wait()] obtains from the native query is the [DWORD]
    of [GetExitCodeProcess] widened: it is never negative. *)
Lemma wait_exit_code_nonnegative (timeout : Q) (p p' : Popen)
    (w w' : World) (c : Z) :
  returncode p = kBadReturnCode ->
  wait timeout (p, w) = (Val c, (p', w')) ->
  0 <= c < 2 ^ 32.
Proof.
  intros Hrc H. apply wait_val in H. destruct H as (_ & _ & H & _).
  apply H. exact Hrc.
Qed.

(** ** C3: the discard-and-close loop *)

(** C3: the thread started by [pipe_ignore_and_close] is to stop at end of
    stream and close the handle.  On the fork/exec platform [pipe_read]
    returns 0 at end of stream and the loop goes on while the result is
    [>= 0]: on a pipe whose peer has closed and that holds no more data,
    the thread is still reading after any number of reads and the handle
    is never closed. *)
Theorem ignore_and_close_spins_at_eof (fuel : nat) :
  at_eof Posix ex_world_eof 7 = true
  /\ exists w',
       ignore_and_close_thread Posix fuel 7 ex_world_eof = (Val None, w')
       /\ is_Some (w_handles w' !! 7).
Proof.
  split; [reflexivity|].
  eapply ignore_and_close_posix_eof; reflexivity.
Qed.

(** The sibling loop of [pipe_read_all] stops at a result of 0, and on the
    handle/console-event platform the same thread ends, because there the
    end of the stream is a failed [ReadFile]. *)
Example pipe_read_all_stops_at_eof :
  fst (pipe_read_all Posix 7 ex_world_data) = Val "abc"%string
  /\ fst (ignore_and_close_thread Win32 5 7 ex_world_data) = Val (Some tt)
  /\ fst (ignore_and_close_thread Posix 50 7 ex_world_data) = Val None.
Proof. repeat split; vm_compute; reflexivity. Qed.

(** ** C4: a cached exit status is never queried again *)

(** C4: once the exit status of a process is cached, [wait()] (with any
    timeout) returns the cached code and [poll()] returns true, leaving the
    process object and the world, hence the trace of native calls,
    unchanged. *)
Theorem wait_poll_cached_pure_reads (p : Popen) (w : World) :
  returncode p <> kBadReturnCode ->
  (forall timeout, wait timeout (p, w) = (Val (returncode p), (p, w)))
  /\ poll (p, w) = (Val true, (p, w)).
Proof.
  intros H. split.
  - intros timeout. apply wait_cached. exact H.
  - apply poll_cached. exact H.
Qed.

Lemma wait_poll_cached_pure_reads_witness :
  (forall timeout,
      wait timeout (ex_popen_done, ex_world)
      = (Val (returncode ex_popen_done), (ex_popen_done, ex_world)))
  /\ poll (ex_popen_done, ex_world) = (Val true, (ex_popen_done, ex_world)).
Proof.
  apply (wait_poll_cached_pure_reads ex_popen_done ex_world).
  vm_compute. discriminate.
Defined.

(** ** C5: the result of [pipe_read] *)




(** ** C6: the timeout path of [run(command, options)] *)






(** The configured wait of that run is for 1000 milliseconds. *)
Example run_timeout_milliseconds :
  truncate (timeout_product (ro_timeout ex_options_timeout)) = 1000.
Proof. vm_compute. reflexivity. Qed.

(** ** C7: the command line of the snapshot *)

(** C7, as stated, fails: [run(command, options)] stores the whole command,
    executable included, in the snapshot. *)
Lemma run_snapshot_keeps_executable_counterexample :
  fst (run ["echo"; "hi"]%string ex_options_capture ex_world_spawn_exit0)
  = Val (mkCompleted ["echo"; "hi"]%string 0 "hi" "")
  /\ ~ snapshot_drops_executable.
Proof.
  destruct (run ["echo"; "hi"]%string ex_options_capture
              ex_world_spawn_exit0) as [r w'] eqn:R.
  assert (r = Val (mkCompleted ["echo"; "hi"]%string 0 "hi" "")) as ->.
  { change r with (fst (r, w')). rewrite <- R. vm_compute. reflexivity. }
  split; [reflexivity|].
  intros [_ H]. specialize (H _ _ _ _ _ R). cbn in H. discriminate.
Qed.

(** C7, amended: the snapshot [run(popen, check)] returns has the command
    line of the process without its first element; the snapshot
    [run(command, options)] returns has the whole command, executable
    included. *)
Theorem snapshot_command_line :
  (forall check s c s',
      run_Popen check s = (Val c, s') -> cp_args c = List.tl (args (fst s)))
  /\ (forall command_ options w c w',
         run command_ options w = (Val c, w') -> cp_args c = command_).
Proof.
  split.
  - intros check s c s' H. apply run_Popen_val in H. tauto.
  - intros command_ options w c w' H. eapply run_val. exact H.
Qed.

Lemma snapshot_command_line_witness :
  cp_args (mkCompleted ["hi"%string] 0 "hi" "")
  = List.tl (args (fst (ex_popen, ex_world_exit0)))
  /\ cp_args (mkCompleted ["echo"; "hi"]%string 0 "hi" "")
     = ["echo"; "hi"]%string.
Proof.
  split.
  - apply (proj1 snapshot_command_line false (ex_popen, ex_world_exit0)
             (mkCompleted ["hi"%string] 0 "hi" "")
             (snd (run_Popen false (ex_popen, ex_world_exit0)))).
    vm_compute. reflexivity.
  - apply (proj2 snapshot_command_line ["echo"; "hi"]%string
             ex_options_capture ex_world_spawn_exit0
             (mkCompleted ["echo"; "hi"]%string 0 "hi" "")
             (snd (run ["echo"; "hi"]%string ex_options_capture
                     ex_world_spawn_exit0))).
    vm_compute. reflexivity.
Defined.

(** ** C8: signalling a process whose exit status is known *)

(** C8: when the exit status is already known, [send_signal] (and so
    [terminate] and [kill]) returns false and leaves the process object
    unchanged; in the world only the failure report happens
    ([GetLastError], [FormatMessage] and a line on std::cout): the handle
    table, the terminated state of the child and the pending answers of
    [TerminateProcess] and [GenerateConsoleCtrlEvent] are untouched, and no
    such call is in the trace. *)
Theorem send_signal_known_status_is_noop
    (signum : SigNum) (p : Popen) (w : World) :
  returncode p <> kBadReturnCode ->
  send_signal signum (p, w) = (Val false, (p, report_failure w))
  /\ terminate (p, w) = (Val false, (p, report_failure w))
  /\ kill (p, w) = (Val false, (p, report_failure w))
  /\ w_handles (report_failure w) = w_handles w
  /\ w_terminated (report_failure w) = w_terminated w
  /\ w_terminate (report_failure w) = w_terminate w
  /\ w_ctrl (report_failure w) = w_ctrl w
  /\ w_trace (report_failure w)
     = w_trace w ++ [N_GetLastError; N_FormatMessage (w_last_error w)].
Proof.
  intros H. repeat split.
  - apply send_signal_known; assumption.
  - apply send_signal_known; assumption.
  - unfold kill, bind, this. cbn.
    destruct (m_soft_kill p); apply send_signal_known; assumption.
  - cbn. rewrite <- app_assoc. reflexivity.
Qed.

Lemma send_signal_known_status_is_noop_witness :
  send_signal PSIGKILL (ex_popen_done, ex_world_kill)
  = (Val false, (ex_popen_done, report_failure ex_world_kill))
  /\ terminate (ex_popen_done, ex_world_kill)
     = (Val false, (ex_popen_done, report_failure ex_world_kill))
  /\ kill (ex_popen_done, ex_world_kill)
     = (Val false, (ex_popen_done, report_failure ex_world_kill))
  /\ w_handles (report_failure ex_world_kill) = w_handles ex_world_kill
  /\ w_terminated (report_failure ex_world_kill)
     = w_terminated ex_world_kill
  /\ w_terminate (report_failure ex_world_kill) = w_terminate ex_world_kill
  /\ w_ctrl (report_failure ex_world_kill) = w_ctrl ex_world_kill
  /\ w_trace (report_failure ex_world_kill)
     = w_trace ex_world_kill
       ++ [N_GetLastError; N_FormatMessage (w_last_error ex_world_kill)].
Proof.
  apply (send_signal_known_status_is_noop PSIGKILL ex_popen_done
           ex_world_kill).
  vm_compute. discriminate.
Defined.

(** ** C9: an executable that cannot be resolved *)

(** C9, as stated, fails: for the command python3 the resolution itself
    runs the program found for python with [--version], its output
    captured; when that is no Python 3, [run_command] throws
    [CommandNotFoundError] after a pipe has been created and a process
    spawned. *)
Lemma python3_not_found_counterexample :
  (exists w' a,
      run_command ProcessBuilder_default ["python3"%string] ex_world_python2
      = (Exc (CommandNotFoundError
                ("Command " +:+ dquote +:+ "python3" +:+ dquote
                   +:+ " not found.")), w')
      /\ In (N_CreatePipe true) (w_trace w')
      /\ In (N_CreateProcess a) (w_trace w')
      /\ cpa_program a = "C:/bin/python"%string
      /\ w_createprocess w' = [])
  /\ ~ not_found_allocates_nothing.
Proof.
  assert (exists w',
             run_command ProcessBuilder_default ["python3"%string]
               ex_world_python2
             = (Exc (CommandNotFoundError
                       ("Command " +:+ dquote +:+ "python3" +:+ dquote
                          +:+ " not found.")), w')
             /\ w_trace w'
                = [N_find_program_in_path "python";
                   N_find_program_in_path "C:/bin/python";
                   N_CreatePipe true;
                   N_SetHandleInformation 20 0;
                   N_CreateProcess
                     (mkCreateProcessArgs "C:/bin/python"
                        "C:/bin/python --version" CREATE_UNICODE_ENVIRONMENT
                        None None STD_INPUT_HANDLE 21 21);
                   N_CloseHandle 21;
                   N_ReadFile 20 2048; N_ReadFile 20 2048;
                   N_CloseHandle 20;
                   N_WaitForSingleObject 100 INFINITE;
                   N_GetExitCodeProcess 100;
                   N_CloseHandle 100; N_CloseHandle 101]
             /\ w_createprocess w' = []) as (w' & E & Htr & Hq).
  { eexists. split; [vm_compute; reflexivity|].
    split; vm_compute; reflexivity. }
  split.
  - exists w'. eexists. split; [exact E|]. rewrite Htr.
    split; [|split; [|split; [|exact Hq]]].
    + cbn. tauto.
    + right. right. right. right. left. reflexivity.
    + reflexivity.
  - intros H. destruct (H _ _ _ _ _ E) as (tr & Ht & Hf).
    rewrite Htr in Ht. cbn in Ht. subst tr.
    rewrite !Forall_cons in Hf. destruct Hf as (_ & _ & Hf & _).
    discriminate.
Qed.

(** C9, amended: for a command other than python3, when
    [find_program_in_path] finds nothing [run_command] throws
    [CommandNotFoundError]; the only call made is the search itself, so no
    pipe has been created, no process creation attempted and the handle
    table is as it was. *)
Theorem run_command_not_found_allocates_nothing (b : ProcessBuilder)
    (cmdline : CommandLine) (w : World) :
  List.hd ""%string cmdline <> "python3"%string ->
  w_find_program w (List.hd ""%string cmdline) = ""%string ->
  exists w',
    run_command b cmdline w
    = (Exc (CommandNotFoundError
              ("Command " +:+ dquote +:+ List.hd ""%string cmdline +:+ dquote
                 +:+ " not found.")), w')
    /\ w_trace w'
       = w_trace w ++ [N_find_program_in_path (List.hd ""%string cmdline)]
    /\ w_handles w' = w_handles w
    /\ w_createpipe w' = w_createpipe w
    /\ w_createprocess w' = w_createprocess w
    /\ w_threads w' = w_threads w.
Proof.
  intros Hn H. eexists. split.
  - apply run_command_not_found; [exact Hn | exact H].
  - repeat split.
Qed.

Lemma run_command_not_found_allocates_nothing_witness :
  exists w',
    run_command ProcessBuilder_default ["nosuchprogram"%string]
      ex_world_no_program
    = (Exc (CommandNotFoundError
              ("Command " +:+ dquote
                 +:+ List.hd ""%string ["nosuchprogram"%string] +:+ dquote
                 +:+ " not found.")), w')
    /\ w_trace w'
       = w_trace ex_world_no_program
         ++ [N_find_program_in_path
               (List.hd ""%string ["nosuchprogram"%string])]
    /\ w_handles w' = w_handles ex_world_no_program
    /\ w_createpipe w' = w_createpipe ex_world_no_program
    /\ w_createprocess w' = w_createprocess ex_world_no_program
    /\ w_threads w' = w_threads ex_world_no_program.
Proof.
  apply (run_command_not_found_allocates_nothing ProcessBuilder_default
           ["nosuchprogram"%string] ex_world_no_program).
  - vm_compute. discriminate.
  - vm_compute. reflexivity.
Defined.

(** ** C10: a bad explicit handle *)

(** C10, as stated, fails: with stdin configured as the bare enumerator
    [PipeOption::specific] and stdout as an explicit handle equal to the
    bad-pipe sentinel, the constructor throws [std::bad_variant_access]
    from the check of stdin, not [std::invalid_argument]. *)
Lemma bad_handle_counterexample :
  Popen_ctor ["echo"%string] ex_options_bare_specific ex_world
  = (Exc bad_variant_access, ex_world)
  /\ ~ bad_handle_is_invalid_argument.
Proof.
  assert (Popen_ctor ["echo"%string] ex_options_bare_specific ex_world
          = (Exc bad_variant_access, ex_world)) as E
    by (vm_compute; reflexivity).
  split; [exact E|].
  intros H.
  destruct (H ["echo"%string] ex_options_bare_specific ex_world)
    as (msg & w' & E').
  - right. left. reflexivity.
  - rewrite E in E'. discriminate.
Qed.

(** C10, amended: when a stream is configured with an explicit handle equal
    to the bad-pipe sentinel and no stream checked before it (stdin, then
    stdout, then stderr) is configured as the bare enumerator
    [PipeOption::specific], the constructor throws [std::invalid_argument]
    without any native call: the world is unchanged.  When the builder is
    configured without an exception, every explicit handle is not the
    sentinel and is the builder's handle for its stream, with the option
    [specific]. *)
Theorem explicit_handle_check (command_ : CommandLine)
    (options : RunOptions) (w : World) :
  (bad_handle (ro_cin options)
   \/ (~ bare_specific (ro_cin options) /\ bad_handle (ro_cout options))
   \/ (~ bare_specific (ro_cin options)
       /\ ~ bare_specific (ro_cout options)
       /\ bad_handle (ro_cerr options)) ->
   exists msg, Popen_ctor command_ options w = (Exc (invalid_argument msg), w))
  /\ (forall b s',
         init_builder options (Popen_default, w) = (Val b, s') ->
         s' = (Popen_default, w)
         /\ (forall h, ro_cin options = PV_handle h ->
               h <> kBadPipeValue Win32
               /\ cin_option b = PO_specific /\ cin_pipe b = h)
         /\ (forall h, ro_cout options = PV_handle h ->
               h <> kBadPipeValue Win32
               /\ cout_option b = PO_specific /\ cout_pipe b = h)
         /\ (forall h, ro_cerr options = PV_handle h ->
               h <> kBadPipeValue Win32
               /\ cerr_option b = PO_specific /\ cerr_pipe b = h)).
Proof.
  split.
  - intros H.
    destruct (init_builder_first_bad options (Popen_default, w) H)
      as (msg & E).
    exists msg. apply Popen_ctor_builder_throws. exact E.
  - intros b s' H. apply init_builder_val in H. exact H.
Qed.

Lemma explicit_handle_check_witness :
  (exists msg,
      Popen_ctor ["echo"%string] ex_options_bad_cout ex_world
      = (Exc (invalid_argument msg), ex_world))
  /\ (exists b,
         init_builder ex_options_handles (Popen_default, ex_world)
         = (Val b, (Popen_default, ex_world))
         /\ cin_pipe b = 42 /\ cout_pipe b = 43 /\ cerr_pipe b = 44
         /\ cin_option b = PO_specific).
Proof.
  split.
  - apply (proj1 (explicit_handle_check ["echo"%string] ex_options_bad_cout
                    ex_world)).
    right. left. split; [discriminate | reflexivity].
  - destruct (init_builder ex_options_handles (Popen_default, ex_world))
      as [r s'] eqn:E.
    assert (exists b, r = Val b /\ s' = (Popen_default, ex_world)) as (b & -> & ->).
    { vm_compute in E. inversion E; subst. eexists. split; reflexivity. }
    exists b. split; [reflexivity|].
    destruct (proj2 (explicit_handle_check ["echo"%string]
                       ex_options_handles ex_world) b _ E)
      as (_ & Hi & Ho & He).
    destruct (Hi 42 eq_refl) as (_ & Hio & Hip).
    destruct (Ho 43 eq_refl) as (_ & _ & Hop).
    destruct (He 44 eq_refl) as (_ & _ & Hep).
    auto.
Defined.

(** * Further properties of the process layer *)

Lemma close_member_eq (member : Popen -> Z) (f : Popen -> Popen)
    (p0 : Popen) (w0 : World) :
  exists w1 tr1,
    (if negb (member p0 =? kBadPipeValue Win32)
     then _ <- liftW (pipe_close Win32 (member p0)) ;; assign f
     else ret tt) (p0, w0)
    = (Val tt,
       (if negb (member p0 =? kBadPipeValue Win32) then f p0 else p0, w1))
    /\ w_trace w1 = w_trace w0 ++ tr1
    /\ Forall (fun c => exists h, c = N_CloseHandle h) tr1.
Proof.
  destruct (negb (member p0 =? kBadPipeValue Win32)).
  - destruct (CloseHandle_val (member p0) w0) as (b & w1 & E & Ht).
    exists w1, [N_CloseHandle (member p0)]. split.
    { erewrite bind_val; [|apply liftW_eq; exact E]. reflexivity. }
    split; [exact Ht|]. repeat constructor. eauto.
  - exists w0, []. split; [reflexivity|].
    rewrite app_nil_r. split; [reflexivity | constructor].
Qed.

Lemma WaitForSingleObject_trace (h ms : Z) (w w' : World) (r : Res Z) :
  WaitForSingleObject h ms w = (r, w') ->
  w_trace w' = w_trace w ++ [N_WaitForSingleObject h ms]
  /\ w_terminated w' = w_terminated w
  /\ w_handles w' = w_handles w.
Proof.
  unfold WaitForSingleObject, bind, get, modify, ret, native_call.
  intros H. destruct (w_terminated w) eqn:Et; cbn in H.
  - inversion H; subst. cbn. auto.
  - destruct (w_wait w); inversion H; subst; cbn; auto.
Qed.

Lemma GetExitCodeProcess_trace (h : Z) (w w' : World) (r : Res (Z * Z)) :
  GetExitCodeProcess h w = (r, w') ->
  w_trace w' = w_trace w ++ [N_GetExitCodeProcess h]
  /\ w_terminated w' = w_terminated w
  /\ w_handles w' = w_handles w.
Proof.
  unfold GetExitCodeProcess, bind, get, modify, ret, native_call.
  intros H. destruct (w_terminated w) eqn:Et; cbn in H.
  - inversion H; subst. cbn. auto.
  - destruct (w_exitcode w); inversion H; subst; cbn; auto.
Qed.

(** A [wait] that queries the system and returns has made exactly the two
    native calls [WaitForSingleObject] and [GetExitCodeProcess]. *)
Lemma wait_unknown_val (timeout : Q) (p p' : Popen) (w w' : World) (c : Z) :
  returncode p = kBadReturnCode ->
  wait timeout (p, w) = (Val c, (p', w')) ->
  p' = with_returncode c p
  /\ w_trace w'
     = w_trace w
       ++ [N_WaitForSingleObject (hProcess (process_info p))
             (timeout_ms timeout);
           N_GetExitCodeProcess (hProcess (process_info p))].
Proof.
  intros Hrc H. unfold wait in H. rewrite this_bind in H.
  rewrite Hrc, Z.eqb_refl in H.
  apply bind_val_inv in H. destruct H as (u & [p1 w1] & Hm & H).
  rewrite this_bind in H. unfold ret in H. inversion H; subst; clear H.
  apply bind_val_inv in Hm. destruct Hm as (wr & s3 & HW & Hm).
  apply liftW_inv in HW. destruct HW as (w3 & HW & ->).
  destruct (wr =? WAIT_TIMEOUT); [discriminate|].
  unfold after_wait in Hm.
  destruct (wr =? WAIT_ABANDONED).
  { apply bind_val_inv in Hm. destruct Hm as (a & s1 & _ & Hm).
    discriminate. }
  destruct (wr =? WAIT_FAILED).
  { apply bind_val_inv in Hm. destruct Hm as (a & s1 & _ & Hm).
    apply bind_val_inv in Hm. destruct Hm as (a2 & s2 & _ & Hm).
    discriminate. }
  destruct (negb (wr =? WAIT_OBJECT_0)); [discriminate|].
  rewrite this_bind in Hm.
  apply bind_val_inv in Hm. destruct Hm as ([ret_ excode] & s2 & HG & Hm).
  apply liftW_inv in HG. destruct HG as (w4 & HG & ->).
  destruct (ret_ =? 0).
  { apply bind_val_inv in Hm. destruct Hm as (a & s3 & _ & Hm).
    apply bind_val_inv in Hm. destruct Hm as (a2 & s4 & _ & Hm).
    discriminate. }
  unfold assign in Hm. inversion Hm; subst; clear Hm. cbn.
  split; [reflexivity|].
  apply WaitForSingleObject_trace in HW. destruct HW as (HW & _).
  apply GetExitCodeProcess_trace in HG. destruct HG as (HG & _).
  rewrite HG, HW, <- app_assoc. reflexivity.
Qed.

Lemma closed_members (p : Popen) :
  let p1 := if negb (cin p =? kBadPipeValue Win32)
            then with_cin (kBadPipeValue Win32) p else p in
  let p2 := if negb (cout p1 =? kBadPipeValue Win32)
            then with_cout (kBadPipeValue Win32) p1 else p1 in
  let p3 := if negb (cerr p2 =? kBadPipeValue Win32)
            then with_cerr (kBadPipeValue Win32) p2 else p2 in
  p3 = mkPopen 0 0 0 (pid p) (returncode p) (args p) (m_soft_kill p)
         (process_info p).
Proof.
  destruct p as [ci co ce pd rc ar sk pinf]. cbn.
  destruct (ci =? 0) eqn:Ea; cbn;
    destruct (co =? 0) eqn:Eb; cbn;
    destruct (ce =? 0) eqn:Ec; cbn;
    rewrite ?Z.eqb_eq in *; subst; reflexivity.
Qed.

(** What a [close] that returns has done: the pipe handles are closed
    first; a started process is then waited for without limit, queried
    when its status was unknown, and its two handles are closed. *)
Lemma close_val_inv (p p' : Popen) (w w' : World) (u : unit) :
  close (p, w) = (Val u, (p', w')) ->
  p' = closed_popen p
  /\ exists tr,
       Forall (fun c => exists h, c = N_CloseHandle h) tr
       /\ w_trace w'
          = w_trace w ++ tr
            ++ (if pid p >? 0 then
                  (if returncode p =? kBadReturnCode then
                     [N_WaitForSingleObject (hProcess (process_info p))
                        INFINITE;
                      N_GetExitCodeProcess (hProcess (process_info p))]
                   else [])
                  ++ [N_CloseHandle (hProcess (process_info p));
                      N_CloseHandle (hThread (process_info p))]
                else []).
Proof.
  intros H. unfold close in H.
  apply bind_val_inv in H. destruct H as (u1 & [p1 w1] & Hc1 & H).
  unfold close_cin in Hc1. rewrite this_bind in Hc1.
  destruct (close_member_eq cin (with_cin (kBadPipeValue Win32)) p w)
    as (w1' & tr1 & E1 & Ht1 & Hf1).
  rewrite E1 in Hc1. inversion Hc1; subst p1 w1; clear Hc1 E1.
  rewrite this_bind in H.
  apply bind_val_inv in H. destruct H as (u2 & [p2 w2] & Hc2 & H).
  match type of Hc2 with
  | _ (?q, _) = _ =>
      destruct (close_member_eq cout (with_cout (kBadPipeValue Win32)) q w1')
        as (w2' & tr2 & E2 & Ht2 & Hf2)
  end.
  rewrite E2 in Hc2. inversion Hc2; subst p2 w2; clear Hc2 E2.
  rewrite this_bind in H.
  apply bind_val_inv in H. destruct H as (u3 & [p3 w3] & Hc3 & H).
  match type of Hc3 with
  | _ (?q, _) = _ =>
      destruct (close_member_eq cerr (with_cerr (kBadPipeValue Win32)) q w2')
        as (w3' & tr3 & E3 & Ht3 & Hf3)
  end.
  rewrite E3 in Hc3. inversion Hc3; subst p3 w3; clear Hc3 E3.
  pose proof (closed_members p) as Hcm. cbv zeta in Hcm.
  change (kBadPipeValue Win32) with 0 in Hcm. rewrite Hcm in H. clear Hcm.
  set (p3 := mkPopen 0 0 0 (pid p) (returncode p) (args p) (m_soft_kill p)
               (process_info p)) in *.
  rewrite this_bind in H.
  apply bind_val_inv in H. destruct H as (u4 & [p4 w4] & Hc4 & H).
  apply bind_val_inv in H. destruct H as (u5 & s5 & Hc5 & H).
  apply bind_val_inv in H. destruct H as (u6 & s6 & Hc6 & H).
  unfold assign in Hc5, Hc6, H. inversion Hc5; subst; clear Hc5.
  inversion Hc6; subst; clear Hc6. inversion H; subst; clear H.
  cbn [fst snd] in *.
  change (pid p3) with (pid p) in Hc4.
  change (process_info p3) with (process_info p) in Hc4.
  assert (Hall : Forall (fun c => exists h, c = N_CloseHandle h)
                   (tr1 ++ tr2 ++ tr3)).
  { apply Forall_app; split; [exact Hf1|].
    apply Forall_app; split; assumption. }
  assert (Htr : w_trace w3' = w_trace w ++ (tr1 ++ tr2 ++ tr3)).
  { rewrite Ht3, Ht2, Ht1, <- !app_assoc. reflexivity. }
  destruct (pid p >? 0).
  - apply bind_val_inv in Hc4. destruct Hc4 as (c & [p5 w5] & HW & Hc4).
    apply bind_val_inv in Hc4. destruct Hc4 as (b1 & s7 & HC1 & Hc4).
    apply liftW_inv in HC1. destruct HC1 as (w7 & HC1 & ->).
    apply bind_val_inv in Hc4. destruct Hc4 as (b2 & s8 & HC2 & Hc4).
    apply liftW_inv in HC2. destruct HC2 as (w8 & HC2 & ->).
    unfold ret in Hc4. inversion Hc4; subst; clear Hc4.
    cbn [fst snd] in *.
    destruct (CloseHandle_val (hProcess (process_info p)) w5)
      as (b1' & w7' & EC1 & HT1).
    rewrite EC1 in HC1. inversion HC1; subst; clear HC1.
    destruct (CloseHandle_val (hThread (process_info p)) w7)
      as (b2' & w8' & EC2 & HT2).
    rewrite EC2 in HC2. inversion HC2; subst; clear HC2.
    destruct (returncode p =? kBadReturnCode) eqn:Erc.
    + apply Z.eqb_eq in Erc.
      apply wait_unknown_val in HW; [|exact Erc].
      destruct HW as (-> & HW).
      split; [reflexivity|].
      exists (tr1 ++ tr2 ++ tr3). split; [exact Hall|].
      rewrite HT2, HT1, HW, Htr, <- !app_assoc. reflexivity.
    + apply Z.eqb_neq in Erc.
      rewrite (wait_cached wait_default p3 w3' Erc) in HW.
      inversion HW; subst; clear HW.
      split; [reflexivity|].
      exists (tr1 ++ tr2 ++ tr3). split; [exact Hall|].
      rewrite HT2, HT1, Htr, <- !app_assoc. reflexivity.
  - unfold ret in Hc4. inversion Hc4; subst; clear Hc4.
    split; [reflexivity|].
    exists (tr1 ++ tr2 ++ tr3). split; [exact Hall|].
    rewrite Htr, app_nil_r. reflexivity.
Qed.

(** X1: [Popen::close] leaves the object empty (the three handles bad, pid
    0, exit status unknown, no arguments), and a second [close] is a
    no-op: it makes no native call and changes nothing. *)
Theorem close_resets_and_is_idempotent (p p' : Popen) (w w' : World)
    (u : unit) :
  close (p, w) = (Val u, (p', w')) ->
  p' = closed_popen p
  /\ close (p', w') = (Val tt, (p', w')).
Proof.
  intros H. apply close_val_inv in H. destruct H as (-> & _).
  split; reflexivity.
Qed.

Lemma close_resets_and_is_idempotent_witness :
  fst (snd (close (ex_popen, ex_world_exit0))) = closed_popen ex_popen
  /\ close (fst (snd (close (ex_popen, ex_world_exit0))),
            snd (snd (close (ex_popen, ex_world_exit0))))
     = (Val tt,
        (fst (snd (close (ex_popen, ex_world_exit0))),
         snd (snd (close (ex_popen, ex_world_exit0))))).
Proof.
  apply (close_resets_and_is_idempotent ex_popen
           (fst (snd (close (ex_popen, ex_world_exit0))))
           ex_world_exit0
           (snd (snd (close (ex_popen, ex_world_exit0)))) tt).
  vm_compute. reflexivity.
Defined.

(** X2: a [close] that returns on a started process whose exit status is
    still unknown has waited for the child without limit and read its
    exit code before it closed the process and thread handles; these four
    native calls are the last ones it makes, after the pipe handles are
    closed. *)
Theorem close_waits_before_releasing (p p' : Popen) (w w' : World)
    (u : unit) :
  pid p > 0 ->
  returncode p = kBadReturnCode ->
  close (p, w) = (Val u, (p', w')) ->
  exists tr,
    Forall (fun c => exists h, c = N_CloseHandle h) tr
    /\ w_trace w'
       = w_trace w ++ tr
         ++ [N_WaitForSingleObject (hProcess (process_info p)) INFINITE;
             N_GetExitCodeProcess (hProcess (process_info p));
             N_CloseHandle (hProcess (process_info p));
             N_CloseHandle (hThread (process_info p))].
Proof.
  intros Hpid Hrc H. apply close_val_inv in H.
  destruct H as (_ & tr & Hall & Ht). exists tr. split; [exact Hall|].
  rewrite Ht. replace (pid p >? 0) with true by (symmetry; lia).
  rewrite Hrc, Z.eqb_refl. reflexivity.
Qed.

Lemma close_waits_before_releasing_witness :
  exists tr,
    Forall (fun c => exists h, c = N_CloseHandle h) tr
    /\ w_trace (snd (snd (close (ex_popen, ex_world_exit0))))
       = w_trace ex_world_exit0 ++ tr
         ++ [N_WaitForSingleObject (hProcess (process_info ex_popen)) INFINITE;
             N_GetExitCodeProcess (hProcess (process_info ex_popen));
             N_CloseHandle (hProcess (process_info ex_popen));
             N_CloseHandle (hThread (process_info ex_popen))].
Proof.
  apply (close_waits_before_releasing ex_popen
           (fst (snd (close (ex_popen, ex_world_exit0))))
           ex_world_exit0
           (snd (snd (close (ex_popen, ex_world_exit0)))) tt).
  - vm_compute. reflexivity.
  - vm_compute. reflexivity.
  - vm_compute. reflexivity.
Defined.

(** ** Computations that throw nothing *)

Lemma bind_exc_inv {S A B} (m : M S A) (k : A -> M S B) (s s2 : S) (e : Exn) :
  bind m k s = (Exc e, s2) ->
  m s = (Exc e, s2)
  \/ exists a s1, m s = (Val a, s1) /\ k a s1 = (Exc e, s2).
Proof.
  unfold bind. destruct (m s) as [[a| e' | |] s1]; intros H;
    try discriminate.
  - right. exists a, s1. split; [reflexivity | exact H].
  - left. inversion H; subst. reflexivity.
Qed.

Lemma quiet_bind {S A B} (m : M S A) (k : A -> M S B) :
  quiet m -> (forall a, quiet (k a)) -> quiet (bind m k).
Proof.
  intros Hm Hk s. unfold bind. specialize (Hm s).
  destruct (m s) as [[a| e | |] s1]; cbn in *; try exact Hm; try exact I.
  apply Hk.
Qed.

Lemma quiet_ret {S A} (a : A) : quiet (ret a : M S A).
Proof. intros s. exact I. Qed.

Lemma quiet_modify {S} (f : S -> S) : quiet (modify f).
Proof. intros s. exact I. Qed.

Lemma quiet_get {S} : quiet (get : M S S).
Proof. intros s. exact I. Qed.

Lemma quiet_this : quiet this.
Proof. intros s. exact I. Qed.

Lemma quiet_native_call {A} (c : NativeCall) (q : World -> list A)
    (setq : list A -> World -> World) :
  quiet (native_call c q setq).
Proof. intros w. unfold native_call. destruct (q w); exact I. Qed.

Lemma quiet_liftW {O A} (m : M World A) :
  quiet m -> quiet (liftW m : M (O * World) A).
Proof.
  intros Hm [o w]. unfold liftW. cbn. specialize (Hm w).
  destruct (m w) as [r w']. exact Hm.
Qed.

Lemma quiet_CloseHandle (h : Z) : quiet (CloseHandle h).
Proof. intros w. unfold CloseHandle. destruct (w_handles w !! h); exact I. Qed.

Lemma quiet_LastErrorString : quiet LastErrorString.
Proof. intros w. exact I. Qed.

Lemma quiet_GetChildProcessIDs (id : Z) : quiet (GetChildProcessIDs id).
Proof.
  intros w. rewrite GetChildProcessIDs_val. exact I.
Qed.

Lemma quiet_TerminateProcess (h code : Z) : quiet (TerminateProcess h code).
Proof.
  unfold TerminateProcess.
  apply quiet_bind; [apply quiet_native_call | intros ok].
  apply quiet_bind; [apply quiet_get | intros w].
  apply quiet_bind; [| intros _; apply quiet_ret].
  destruct ok, (w_terminated w); first [apply quiet_modify | apply quiet_ret].
Qed.

Lemma quiet_TerminateProcessByID (id : Z) : quiet (TerminateProcessByID id).
Proof.
  unfold TerminateProcessByID.
  apply quiet_bind; [intros w; exact I | intros h].
  destruct (negb (h =? 0)); [|apply quiet_ret].
  apply quiet_bind; [apply quiet_modify | intros _].
  apply quiet_bind; [apply quiet_CloseHandle | intros _; apply quiet_ret].
Qed.

Lemma quiet_for_each {A} (f : A -> M World unit) (l : list A) :
  (forall a, quiet (f a)) -> quiet (for_each f l).
Proof.
  intros Hf. induction l as [|a l IH]; cbn [for_each].
  - apply quiet_ret.
  - apply quiet_bind; [apply Hf | intros _; exact IH].
Qed.

Lemma quiet_send_signal (signum : SigNum) : quiet (send_signal signum).
Proof.
  unfold send_signal.
  apply quiet_bind; [apply quiet_this | intros p].
  apply quiet_bind.
  - destruct (negb (returncode p =? kBadReturnCode)); [apply quiet_ret|].
    destruct (SigNum_eqb Win32 signum PSIGKILL).
    + apply quiet_bind;
        [apply quiet_liftW, quiet_GetChildProcessIDs | intros ids].
      apply quiet_bind;
        [apply quiet_liftW, quiet_TerminateProcess | intros result].
      apply quiet_bind; [| intros _; apply quiet_ret].
      apply quiet_liftW, quiet_for_each. exact quiet_TerminateProcessByID.
    + destruct (SigNum_eqb Win32 signum PSIGINT);
        apply quiet_liftW, quiet_native_call.
  - intros result. apply quiet_bind; [| intros _; apply quiet_ret].
    destruct (negb result); [|apply quiet_ret].
    apply quiet_bind; [apply quiet_liftW, quiet_LastErrorString | intros str].
    apply quiet_liftW, quiet_modify.
Qed.

Lemma keeps_this (I : Popen * World -> Prop) :
  keeps I (fun _ => True) this.
Proof.
  intros s r s' Hs H. unfold this in H. inversion H; subst. auto.
Qed.

Lemma keeps_object_liftW {A} (p : Popen) (m : M World A) :
  keeps (fun s : Popen * World => fst s = p) (fun _ => True) (liftW m).
Proof. apply keeps_liftW. intros o w w' H. exact H. Qed.

Lemma send_signal_object (signum : SigNum) (p : Popen) :
  keeps (fun s : Popen * World => fst s = p) (fun _ => True)
    (send_signal signum).
Proof.
  unfold send_signal.
  eapply keeps_bind; [apply keeps_this | intros p0 _].
  eapply keeps_bind with (Q1 := fun _ => True).
  - destruct (negb (returncode p0 =? kBadReturnCode));
      [apply keeps_ret; exact I|].
    destruct (SigNum_eqb Win32 signum PSIGKILL).
    + eapply keeps_bind; [apply keeps_object_liftW | intros ids _].
      eapply keeps_bind; [apply keeps_object_liftW | intros result _].
      eapply keeps_bind; [apply keeps_object_liftW | intros _ _].
      apply keeps_ret. exact I.
    + destruct (SigNum_eqb Win32 signum PSIGINT); apply keeps_object_liftW.
  - intros result _.
    eapply keeps_bind with (Q1 := fun _ => True);
      [| intros _ _; apply keeps_ret; exact I].
    destruct (negb result); [|apply keeps_ret; exact I].
    eapply keeps_bind; [apply keeps_object_liftW | intros str _].
    apply keeps_object_liftW.
Qed.

(** X3: [Popen::send_signal] never throws and never changes the [Popen]
    object, whatever the signal, the state of the process and the answers
    of the operating system are: it returns a result or blocks in a native
    call. *)
Theorem send_signal_throws_nothing_and_keeps_object (signum : SigNum)
    (p : Popen) (w : World) :
  fst (snd (send_signal signum (p, w))) = p
  /\ match fst (send_signal signum (p, w)) with
     | Exc _ | Abort => False
     | Val _ | Hang => True
     end.
Proof.
  split; [|exact (quiet_send_signal signum (p, w))].
  destruct (send_signal signum (p, w)) as [r s'] eqn:E.
  exact (proj1 (send_signal_object signum p (p, w) r s' eq_refl E)).
Qed.

(** X4: on a process whose exit status is unknown, every signal other than
    the kill signal is delivered as one console control event and nothing
    else: the interrupt signal as CTRL_C_EVENT to process group 0 (the
    whole console, not the child alone), any other signal as
    CTRL_BREAK_EVENT to the group of the child's pid.  The result is the
    result of [GenerateConsoleCtrlEvent]; a failure is reported on stdout. *)
Theorem send_signal_console_event (signum : SigNum) (p : Popen) (w : World)
    (b : bool) (qc : list bool) :
  returncode p = kBadReturnCode ->
  SigNum_eqb Win32 signum PSIGKILL = false ->
  w_ctrl w = b :: qc ->
  send_signal signum (p, w)
  = (Val b,
     (p, after_ctrl_event (console_event signum) (console_group signum p)
           b qc w)).
Proof.
  intros Hrc Hk Hq. unfold console_event, console_group.
  destruct (SigNum_eqb Win32 signum PSIGINT) eqn:Hi.
  - unfold send_signal. rewrite this_bind.
    rewrite Hrc, Z.eqb_refl, Hk, Hi. cbn [negb].
    assert (GenerateConsoleCtrlEvent CTRL_C_EVENT 0 w
            = (Val b, set_ctrl qc
                        (log (N_GenerateConsoleCtrlEvent CTRL_C_EVENT 0) w)))
      as E.
    { unfold GenerateConsoleCtrlEvent, native_call. rewrite Hq. reflexivity. }
    erewrite bind_val; [|apply liftW_eq; exact E]. cbn beta.
    unfold after_ctrl_event. destruct b; reflexivity.
  - apply send_signal_break; assumption.
Qed.

Lemma send_signal_console_event_witness :
  send_signal PSIGINT (ex_popen_plain, set_ctrl [true] ex_world)
  = (Val true,
     (ex_popen_plain,
      after_ctrl_event (console_event PSIGINT)
        (console_group PSIGINT ex_popen_plain) true []
        (set_ctrl [true] ex_world))).
Proof.
  apply (send_signal_console_event PSIGINT ex_popen_plain
           (set_ctrl [true] ex_world) true []).
  - reflexivity.
  - reflexivity.
  - reflexivity.
Defined.

(** ** [poll] and [wait] *)

Lemma after_wait_exc (wr : Z) (p : Popen) (w : World) (e : Exn)
    (s' : Popen * World) :
  after_wait wr (p, w) = (Exc e, s') ->
  fst s' = p /\ is_OSError e = true.
Proof.
  unfold after_wait. intros H.
  destruct (wr =? WAIT_ABANDONED).
  { apply bind_exc_inv in H. destruct H as [H | (a & s1 & Ha & H)].
    - apply liftW_inv in H. destruct H as (w1 & H & _). discriminate.
    - apply liftW_inv in Ha. destruct Ha as (w1 & _ & ->).
      unfold throw in H. inversion H; subst. split; reflexivity. }
  destruct (wr =? WAIT_FAILED).
  { apply bind_exc_inv in H. destruct H as [H | (a & s1 & Ha & H)].
    - apply liftW_inv in H. destruct H as (w1 & H & _). discriminate.
    - apply liftW_inv in Ha. destruct Ha as (w1 & _ & ->).
      apply bind_exc_inv in H. destruct H as [H | (a2 & s2 & Ha2 & H)].
      + apply liftW_inv in H. destruct H as (w2 & H & _). discriminate.
      + apply liftW_inv in Ha2. destruct Ha2 as (w2 & _ & ->).
        unfold throw in H. inversion H; subst. split; reflexivity. }
  destruct (negb (wr =? WAIT_OBJECT_0)).
  { unfold throw in H. inversion H; subst. split; reflexivity. }
  rewrite this_bind in H.
  apply bind_exc_inv in H. destruct H as [H | ([ret_ excode] & s1 & Ha & H)].
  { apply liftW_inv in H. destruct H as (w1 & H & _).
    pose proof (GetExitCodeProcess_trace _ _ _ _ H) as _.
    unfold GetExitCodeProcess, bind, get, modify, ret, native_call in H.
    repeat case_match; simplify_eq. }
  apply liftW_inv in Ha. destruct Ha as (w1 & _ & ->).
  destruct (ret_ =? 0); [|discriminate].
  apply bind_exc_inv in H. destruct H as [H | (a & s2 & Ha & H)].
  - apply liftW_inv in H. destruct H as (w2 & H & _). discriminate.
  - apply liftW_inv in Ha. destruct Ha as (w2 & _ & ->).
    apply bind_exc_inv in H. destruct H as [H | (a2 & s3 & Ha2 & H)].
    + apply liftW_inv in H. destruct H as (w3 & H & _). discriminate.
    + apply liftW_inv in Ha2. destruct Ha2 as (w3 & _ & ->).
      unfold throw in H. inversion H; subst. split; reflexivity.
Qed.

Lemma WaitForSingleObject_no_exc (h ms : Z) (w w' : World) (e : Exn) :
  WaitForSingleObject h ms w <> (Exc e, w').
Proof.
  unfold WaitForSingleObject, bind, get, modify, ret, native_call.
  intros H. repeat case_match; simplify_eq.
Qed.

(** X5: [Popen::poll] answers true exactly when the exit status is known
    once it returns.  When it answers false it has asked the system once,
    with a zero timeout, and the object is unchanged.  The only exception
    it throws is [OSError], and then too the object is unchanged. *)
Theorem poll_result (p p' : Popen) (w w' : World) (r : Res bool) :
  poll (p, w) = (r, (p', w')) ->
  match r with
  | Val b =>
      (b = true <-> returncode p' <> kBadReturnCode)
      /\ (b = false ->
          p' = p
          /\ w_trace w'
             = w_trace w
               ++ [N_WaitForSingleObject (hProcess (process_info p)) 0])
  | Exc e => is_OSError e = true /\ p' = p
  | Hang | Abort => True
  end.
Proof.
  intros H. destruct r as [b | e | |]; [| | exact I | exact I].
  - destruct b.
    + split; [|discriminate].
      split; [intros _; eapply poll_true; exact H | reflexivity].
    + unfold poll in H. rewrite this_bind in H.
      destruct (returncode p =? kBadReturnCode) eqn:E; cbn [negb] in H;
        [|discriminate].
      apply bind_val_inv in H. destruct H as (wr & s3 & HW & H).
      apply liftW_inv in HW. destruct HW as (w3 & HW & ->).
      destruct (wr =? WAIT_TIMEOUT).
      * unfold ret in H. inversion H; subst; clear H.
        apply Z.eqb_eq in E.
        split; [split; [discriminate | intros Hn; contradiction]|].
        intros _. split; [reflexivity|].
        apply WaitForSingleObject_trace in HW. apply HW.
      * apply bind_val_inv in H. destruct H as (u & s4 & _ & H).
        discriminate.
  - unfold poll in H. rewrite this_bind in H.
    destruct (returncode p =? kBadReturnCode) eqn:E; cbn [negb] in H;
      [|discriminate].
    apply bind_exc_inv in H. destruct H as [H | (wr & s3 & HW & H)].
    { apply liftW_inv in H. destruct H as (w3 & H & _).
      exfalso. exact (WaitForSingleObject_no_exc _ _ _ _ _ H). }
    apply liftW_inv in HW. destruct HW as (w3 & HW & ->).
    destruct (wr =? WAIT_TIMEOUT); [discriminate|].
    apply bind_exc_inv in H. destruct H as [H | (u & s4 & _ & H)];
      [|discriminate].
    apply after_wait_exc in H. destruct H as (H1 & H2).
    split; [exact H2 | exact H1].
Qed.

Lemma poll_result_witness :
  (false = true <-> returncode ex_popen_plain <> kBadReturnCode)
  /\ (false = false ->
      ex_popen_plain = ex_popen_plain
      /\ w_trace (set_wait [] (log (N_WaitForSingleObject 100 0)
                                 (set_wait [WAIT_TIMEOUT] ex_world)))
         = w_trace (set_wait [WAIT_TIMEOUT] ex_world)
           ++ [N_WaitForSingleObject
                 (hProcess (process_info ex_popen_plain)) 0]).
Proof.
  apply (poll_result ex_popen_plain ex_popen_plain
           (set_wait [WAIT_TIMEOUT] ex_world)
           (set_wait [] (log (N_WaitForSingleObject 100 0)
                           (set_wait [WAIT_TIMEOUT] ex_world)))
           (Val false)).
  vm_compute. reflexivity.
Defined.

(** X6: a [wait] that throws leaves the [Popen] object as it was, and it
    throws only when the exit status is not cached: either [OSError], or
    [TimeoutExpired] carrying the millisecond count in its message and
    neither the command nor the timeout; in the second case the wait on the
    process handle is the only native call made and the child is not
    touched.  The millisecond count is the [double] product of the timeout
    with 1000.0 truncated, for a timeout whose count is in the range of
    [DWORD]. *)
Theorem wait_failure (timeout : Q) (p p' : Popen) (w w' : World) (e : Exn) :
  timeout_in_range timeout = true ->
  wait timeout (p, w) = (Exc e, (p', w')) ->
  p' = p
  /\ returncode p = kBadReturnCode
  /\ (is_OSError e = true
      \/ (e = TimeoutExpired
                ("timeout of " +:+ pretty (timeout_ms timeout) +:+ " expired")
                [] None "" ""
          /\ timeout_ms timeout = truncate (timeout_product timeout)
          /\ w_trace w'
             = w_trace w
               ++ [N_WaitForSingleObject (hProcess (process_info p))
                     (timeout_ms timeout)]
          /\ w_terminated w' = w_terminated w
          /\ w_handles w' = w_handles w)).
Proof.
  intros Hrange H. unfold wait in H. rewrite this_bind in H.
  apply bind_exc_inv in H. destruct H as [H | (u & s1 & _ & H)];
    [|discriminate].
  destruct (returncode p =? kBadReturnCode) eqn:E; [|discriminate].
  apply Z.eqb_eq in E.
  apply bind_exc_inv in H. destruct H as [H | (wr & s3 & HW & H)].
  { apply liftW_inv in H. destruct H as (w3 & H & _).
    exfalso. exact (WaitForSingleObject_no_exc _ _ _ _ _ H). }
  apply liftW_inv in HW. destruct HW as (w3 & HW & ->).
  destruct (wr =? WAIT_TIMEOUT).
  - unfold throw in H. inversion H; subst; clear H.
    split; [reflexivity|]. split; [exact E|]. right.
    split; [reflexivity|]. split.
    { apply timeout_ms_in_range. exact Hrange. }
    apply WaitForSingleObject_trace in HW. exact HW.
  - apply after_wait_exc in H. destruct H as (H1 & H2). cbn in H1.
    split; [exact H1|]. split; [exact E|]. left. exact H2.
Qed.

(** A timeout of 0.3 seconds: the [double] nearest to 0.3 is below 0.3,
    its product with 1000.0 is the [double] 300, and the wait is for 300
    milliseconds. *)
Lemma wait_failure_witness :
  ex_popen_plain = ex_popen_plain
  /\ returncode ex_popen_plain = kBadReturnCode
  /\ (is_OSError
        (TimeoutExpired "timeout of 300 expired" [] None "" "") = true
      \/ (TimeoutExpired "timeout of 300 expired" [] None "" ""
          = TimeoutExpired
              ("timeout of "
               +:+ pretty (timeout_ms (QArith_base.Qmake 3 10))
               +:+ " expired")
              [] None "" ""
          /\ timeout_ms (QArith_base.Qmake 3 10)
             = truncate (timeout_product (QArith_base.Qmake 3 10))
          /\ w_trace (set_wait [] (log (N_WaitForSingleObject 100 300)
                                     (set_wait [WAIT_TIMEOUT] ex_world)))
             = w_trace (set_wait [WAIT_TIMEOUT] ex_world)
               ++ [N_WaitForSingleObject
                     (hProcess (process_info ex_popen_plain))
                     (timeout_ms (QArith_base.Qmake 3 10))]
          /\ w_terminated
               (set_wait [] (log (N_WaitForSingleObject 100 300)
                               (set_wait [WAIT_TIMEOUT] ex_world)))
             = w_terminated (set_wait [WAIT_TIMEOUT] ex_world)
          /\ w_handles
               (set_wait [] (log (N_WaitForSingleObject 100 300)
                               (set_wait [WAIT_TIMEOUT] ex_world)))
             = w_handles (set_wait [WAIT_TIMEOUT] ex_world))).
Proof.
  apply (wait_failure (QArith_base.Qmake 3 10) ex_popen_plain ex_popen_plain
           (set_wait [WAIT_TIMEOUT] ex_world)
           (set_wait [] (log (N_WaitForSingleObject 100 300)
                           (set_wait [WAIT_TIMEOUT] ex_world)))
           (TimeoutExpired "timeout of 300 expired" [] None "" "")).
  - vm_compute. reflexivity.
  - vm_compute. reflexivity.
Defined.

(** ** The exceptions of a computation *)












Lemma quiet_fun_val {S A} (f : S -> A * S) :
  quiet (fun s => (Val (fst (f s)), snd (f s))).
Proof. intros s. exact I. Qed.


























(** ** The outcome of [run(command, options)] *)











(** ** What the constructed [Popen] records *)

Section KeepsProcess.
Variable J : Popen -> Prop.

Lemma process_is_liftW {A} (m : M World A) :
  keeps (process_is J) (fun _ => True) (liftW m).
Proof. apply keeps_liftW. intros o w w' H. exact H. Qed.

Lemma process_is_locals : keeps (process_is J) (fun _ => True) locals.
Proof.
  intros s r s' Hs H. unfold locals in H. inversion H; subst. auto.
Qed.

Lemma process_is_set_cin_pair (pp : PipePair) :
  keeps (process_is J) (fun _ => True) (set_cin_pair pp).
Proof.
  intros [l w] r s' Hs H. unfold set_cin_pair in H. inversion H; subst.
  split; [exact Hs | auto].
Qed.

Lemma process_is_set_cout_pair (pp : PipePair) :
  keeps (process_is J) (fun _ => True) (set_cout_pair pp).
Proof.
  intros [l w] r s' Hs H. unfold set_cout_pair in H. inversion H; subst.
  split; [exact Hs | auto].
Qed.

Lemma process_is_set_cerr_pair (pp : PipePair) :
  keeps (process_is J) (fun _ => True) (set_cerr_pair pp).
Proof.
  intros [l w] r s' Hs H. unfold set_cerr_pair in H. inversion H; subst.
  split; [exact Hs | auto].
Qed.

(** Closing the child's side of a pair, or a whole pair, after the spawn
    does not touch the process. *)
Lemma process_is_close_pair (b : bool) (m : M World PipePair)
    (set : PipePair -> Local unit) :
  (forall pp, keeps (process_is J) (fun _ => True) (set pp)) ->
  keeps (process_is J) (fun _ => True)
    (if b then pp <- liftW m ;; set pp else ret tt).
Proof.
  intros Hset. destruct b; [|apply keeps_ret; exact I].
  eapply keeps_bind; [apply process_is_liftW | intros pp _]. apply Hset.
Qed.
End KeepsProcess.

Lemma keeps_val {S A} (I : S -> Prop) (Q : A -> Prop) (m : M S A) (s s' : S)
    (a : A) :
  keeps I Q m -> I s -> m s = (Val a, s') -> I s'.
Proof. intros Hk Hs H. exact (proj1 (Hk _ _ _ Hs H)). Qed.

(** ** The answers of [CreateProcess]

    Nothing but [CreateProcess] consumes an answer of [CreateProcess]. *)

Lemma keeps_noexcept {S A} (I : S -> Prop) (Q : A -> Prop) (m : M S A) :
  keeps I Q m -> keeps I Q (noexcept m).
Proof.
  intros Hm s r s' Hs H. unfold noexcept in H.
  destruct (m s) as [[a | e | |] s1] eqn:E;
    inversion H; subst; destruct (Hm _ _ _ Hs E) as [H1 H2];
    (split; [exact H1|]); [exact H2 | discriminate ..].
Qed.

Ltac frame_prim :=
  intros w r w' Hq H; split; [|auto]; unfold answers_left in *;
  repeat match type of H with
         | context [match ?x with _ => _ end] => destruct x
         end;
  inversion H; subst r w'; exact Hq.

Lemma answers_left_pure (q : list (bool * PROCESS_INFORMATION)) {A} (f : World -> A) :
  keeps (answers_left q) (fun _ => True) (fun w => (Val (f w), w)).
Proof. frame_prim. Qed.

Lemma answers_left_SetHandleInformation (q : list (bool * PROCESS_INFORMATION)) (h flags : Z) :
  keeps (answers_left q) (fun _ => True) (SetHandleInformation h flags).
Proof. unfold SetHandleInformation. frame_prim. Qed.

Lemma answers_left_CloseHandle (q : list (bool * PROCESS_INFORMATION)) (h : Z) :
  keeps (answers_left q) (fun _ => True) (CloseHandle h).
Proof. unfold CloseHandle. frame_prim. Qed.

Lemma answers_left_CreatePipe (q : list (bool * PROCESS_INFORMATION)) (inh : bool) :
  keeps (answers_left q) (fun _ => True) (CreatePipe inh).
Proof.
  intros w r w' Hq H. split; [|auto]. unfold answers_left in *.
  unfold CreatePipe, bind, native_call, modify, ret in H.
  destruct (w_createpipe w) as [|[ends|] rest]; inversion H; subst r w';
    exact Hq.
Qed.

Lemma answers_left_LastErrorString (q : list (bool * PROCESS_INFORMATION)) :
  keeps (answers_left q) (fun _ => True) LastErrorString.
Proof. unfold LastErrorString, bind, GetLastError. frame_prim. Qed.

Lemma answers_left_modify (q : list (bool * PROCESS_INFORMATION)) (f : World -> World) :
  (forall w, w_createprocess (f w) = w_createprocess w) ->
  keeps (answers_left q) (fun _ => True) (modify f).
Proof.
  intros Hf w r w' Hq H. unfold modify in H. inversion H; subst.
  split; [|auto]. unfold answers_left in *. rewrite Hf. exact Hq.
Qed.

Ltac frame_step :=
  lazymatch goal with
  | |- keeps _ _ (bind _ _) =>
      eapply keeps_bind with (Q1 := fun _ => True); [| intros ? _]
  | |- keeps _ _ (ret _) => apply keeps_ret; exact I
  | |- keeps _ _ (throw _) => apply keeps_throw
  | |- keeps _ _ (if ?b then _ else _) => destruct b
  | |- keeps _ _ (match ?x with _ => _ end) => destruct x
  | |- keeps _ _ (noexcept _) => apply keeps_noexcept
  | |- keeps _ _ (CloseHandle _) => apply answers_left_CloseHandle
  | |- keeps _ _ (SetHandleInformation _ _) =>
      apply answers_left_SetHandleInformation
  | |- keeps _ _ (CreatePipe _) => apply answers_left_CreatePipe
  | |- keeps _ _ LastErrorString => apply answers_left_LastErrorString
  end.

Lemma answers_left_PipePair_close (q : list (bool * PROCESS_INFORMATION)) (pp : PipePair) :
  keeps (answers_left q) (fun _ => True) (PipePair_close Win32 pp).
Proof. unfold PipePair_close, pipe_close. repeat frame_step. Qed.

Lemma answers_left_close_input (q : list (bool * PROCESS_INFORMATION)) (pp : PipePair) :
  keeps (answers_left q) (fun _ => True) (close_input Win32 pp).
Proof. unfold close_input, pipe_close. repeat frame_step. Qed.

Lemma answers_left_close_output (q : list (bool * PROCESS_INFORMATION)) (pp : PipePair) :
  keeps (answers_left q) (fun _ => True) (close_output Win32 pp).
Proof. unfold close_output, pipe_close. repeat frame_step. Qed.

Lemma answers_left_pipe_set_inheritable (q : list (bool * PROCESS_INFORMATION)) (h : Z) (b : bool) :
  keeps (answers_left q) (fun _ => True) (pipe_set_inheritable Win32 h b).
Proof. unfold pipe_set_inheritable. repeat frame_step. Qed.

Lemma answers_left_assign_new_pair (q : list (bool * PROCESS_INFORMATION)) (pp : PipePair) :
  keeps (answers_left q) (fun _ => True) (assign_new_pair pp).
Proof.
  unfold assign_new_pair, pipe_create, PipePair_move_assign, PipePair_close,
    pipe_close.
  repeat frame_step.
Qed.

Lemma answers_left_setup_redirect_stream_in (q : list (bool * PROCESS_INFORMATION)) (v : PipeVar) (h : Z) :
  keeps (answers_left q) (fun _ => True) (setup_redirect_stream_in v h).
Proof.
  unfold setup_redirect_stream_in, pipe_thread_string, pipe_thread_istream,
    pipe_thread_file_in.
  destruct v; cbn;
    repeat first [ frame_step
                 | apply answers_left_modify; intros; reflexivity ].
Qed.

Lemma answers_left_setup_redirect_stream_out (q : list (bool * PROCESS_INFORMATION)) (h : Z) (v : PipeVar) :
  keeps (answers_left q) (fun _ => True) (setup_redirect_stream_out h v).
Proof.
  unfold setup_redirect_stream_out, pipe_thread_ostream, pipe_thread_file_out.
  destruct v; cbn;
    repeat first [ frame_step
                 | apply answers_left_modify; intros; reflexivity ].
Qed.

(** Lifted to the state of [run_command]. *)
Lemma answers_left_liftW (q : list (bool * PROCESS_INFORMATION)) {O A} (m : M World A) :
  keeps (answers_left q) (fun _ => True) m ->
  keeps (answers_left_in q : O * World -> Prop) (fun _ => True) (liftW m).
Proof.
  intros Hm [o w] r s' Hs H. apply liftW_inv in H.
  destruct H as (w' & H & ->). split; [|auto].
  exact (proj1 (Hm _ _ _ Hs H)).
Qed.

Lemma answers_left_local (q : list (bool * PROCESS_INFORMATION)) {O A} (f : O * World -> A * O) :
  keeps (answers_left_in q) (fun _ => True)
    (fun s => (Val (fst (f s)), (snd (f s), snd s))).
Proof. intros s r s' Hs H. inversion H; subst. split; [exact Hs | auto]. Qed.


Lemma answers_left_GetLastError (q : list (bool * PROCESS_INFORMATION)) :
  keeps (answers_left q) (fun _ => True) GetLastError.
Proof.
  intros w r w' Hq H. unfold GetLastError in H. inversion H; subst r w'.
  split; [exact Hq | auto].
Qed.

Lemma answers_left_WaitForSingleObject (q : list (bool * PROCESS_INFORMATION)) (h ms : Z) :
  keeps (answers_left q) (fun _ => True) (WaitForSingleObject h ms).
Proof.
  intros w r w' Hq H. split; [|auto]. unfold answers_left in *.
  unfold WaitForSingleObject, bind, get, modify, native_call, ret in H.
  destruct (w_terminated w); [inversion H; subst r w'; exact Hq|].
  cbn in H. destruct (w_wait w); inversion H; subst r w'; exact Hq.
Qed.

Lemma answers_left_GetExitCodeProcess (q : list (bool * PROCESS_INFORMATION)) (h : Z) :
  keeps (answers_left q) (fun _ => True) (GetExitCodeProcess h).
Proof.
  intros w r w' Hq H. split; [|auto]. unfold answers_left in *.
  unfold GetExitCodeProcess, bind, get, modify, native_call, ret in H.
  destruct (w_terminated w); [inversion H; subst r w'; exact Hq|].
  cbn in H. destruct (w_exitcode w); inversion H; subst r w'; exact Hq.
Qed.

Lemma answers_left_this (q : list (bool * PROCESS_INFORMATION)) :
  keeps (answers_left_in q) (fun _ => True) this.
Proof.
  intros [p w] r s' Hs H. unfold this in H. inversion H; subst r s'.
  split; [exact Hs | auto].
Qed.

Lemma answers_left_assign (q : list (bool * PROCESS_INFORMATION)) (f : Popen -> Popen) :
  keeps (answers_left_in q) (fun _ => True) (assign f).
Proof.
  intros [p w] r s' Hs H. unfold assign in H. inversion H; subst r s'.
  split; [exact Hs | auto].
Qed.

Ltac method_step :=
  lazymatch goal with
  | |- keeps _ _ (bind _ _) =>
      eapply keeps_bind with (Q1 := fun _ => True); [| intros ? _]
  | |- keeps _ _ (ret _) => apply keeps_ret; exact I
  | |- keeps _ _ (throw _) => apply keeps_throw
  | |- keeps _ _ (let '(_, _) := ?r in _) => destruct r
  | |- keeps _ _ (if ?b then _ else _) => destruct b
  | |- keeps _ _ (noexcept _) => apply keeps_noexcept
  | |- keeps _ _ this => apply answers_left_this
  | |- keeps _ _ (assign _) => apply answers_left_assign
  | |- keeps _ _ (liftW GetLastError) =>
      apply answers_left_liftW, answers_left_GetLastError
  | |- keeps _ _ (liftW LastErrorString) =>
      apply answers_left_liftW, answers_left_LastErrorString
  | |- keeps _ _ (liftW (GetExitCodeProcess _)) =>
      apply answers_left_liftW, answers_left_GetExitCodeProcess
  | |- keeps _ _ (liftW (WaitForSingleObject _ _)) =>
      apply answers_left_liftW, answers_left_WaitForSingleObject
  | |- keeps _ _ (liftW (CloseHandle _)) =>
      apply answers_left_liftW, answers_left_CloseHandle
  end.

Lemma answers_left_wait (q : list (bool * PROCESS_INFORMATION)) (timeout : Q) :
  keeps (answers_left_in q) (fun _ => True) (wait timeout).
Proof. unfold wait, after_wait. repeat method_step. Qed.

Lemma answers_left_close (q : list (bool * PROCESS_INFORMATION)) :
  keeps (answers_left_in q) (fun _ => True) close.
Proof.
  unfold close, close_cin, pipe_close.
  repeat first [ apply answers_left_wait | method_step ].
Qed.

Lemma answers_left_call_on (q : list (bool * PROCESS_INFORMATION)) {A} (o : Popen) (m : Method A) :
  keeps (answers_left_in q) (fun _ => True) m ->
  keeps (answers_left q) (fun _ => True) (call_on o m).
Proof.
  intros Hm w r w' Hq H. split; [|auto]. unfold call_on in H.
  destruct (m (o, w)) as [[a | e | |] [o1 w1]] eqn:E;
    inversion H; subst r w'; exact (proj1 (Hm (o, w) _ _ Hq E)).
Qed.

Lemma answers_left_locals (q : list (bool * PROCESS_INFORMATION)) :
  keeps (answers_left_in q) (fun _ => True) locals.
Proof.
  intros [l w] r s' Hs H. unfold locals in H. inversion H; subst r s'.
  split; [exact Hs | auto].
Qed.

Lemma answers_left_set_process (q : list (bool * PROCESS_INFORMATION)) (f : Popen -> Popen) :
  keeps (answers_left_in q) (fun _ => True) (set_process f).
Proof.
  intros [l w] r s' Hs H. unfold set_process in H. inversion H; subst r s'.
  split; [exact Hs | auto].
Qed.

Lemma answers_left_set_cin_pair (q : list (bool * PROCESS_INFORMATION)) (pp : PipePair) :
  keeps (answers_left_in q) (fun _ => True) (set_cin_pair pp).
Proof.
  intros [l w] r s' Hs H. unfold set_cin_pair in H. inversion H; subst r s'.
  split; [exact Hs | auto].
Qed.

Lemma answers_left_set_cout_pair (q : list (bool * PROCESS_INFORMATION)) (pp : PipePair) :
  keeps (answers_left_in q) (fun _ => True) (set_cout_pair pp).
Proof.
  intros [l w] r s' Hs H. unfold set_cout_pair in H. inversion H; subst r s'.
  split; [exact Hs | auto].
Qed.

Lemma answers_left_set_cerr_pair (q : list (bool * PROCESS_INFORMATION)) (pp : PipePair) :
  keeps (answers_left_in q) (fun _ => True) (set_cerr_pair pp).
Proof.
  intros [l w] r s' Hs H. unfold set_cerr_pair in H. inversion H; subst r s'.
  split; [exact Hs | auto].
Qed.

Ltac local_step :=
  lazymatch goal with
  | |- keeps _ _ (bind _ _) =>
      eapply keeps_bind with (Q1 := fun _ => True); [| intros ? _]
  | |- keeps _ _ (ret _) => apply keeps_ret; exact I
  | |- keeps _ _ (throw _) => apply keeps_throw
  | |- keeps _ _ (if ?b then _ else _) => destruct b
  | |- keeps _ _ locals => apply answers_left_locals
  | |- keeps _ _ (set_process _) => apply answers_left_set_process
  | |- keeps _ _ (set_cin_pair _) => apply answers_left_set_cin_pair
  | |- keeps _ _ (set_cout_pair _) => apply answers_left_set_cout_pair
  | |- keeps _ _ (set_cerr_pair _) => apply answers_left_set_cerr_pair
  | |- keeps _ _ (liftW (GetStdHandle _)) =>
      apply answers_left_liftW, answers_left_pure
  | |- keeps _ _ (liftW (windows_args _)) =>
      apply answers_left_liftW, answers_left_pure
  | |- keeps _ _ (liftW (create_env_block _)) =>
      apply answers_left_liftW, answers_left_pure
  | |- keeps _ _ (liftW (assign_new_pair _)) =>
      apply answers_left_liftW, answers_left_assign_new_pair
  | |- keeps _ _ (liftW (disable_inherit _)) =>
      apply answers_left_liftW, answers_left_SetHandleInformation
  | |- keeps _ _ (liftW (pipe_set_inheritable _ _ _)) =>
      apply answers_left_liftW, answers_left_pipe_set_inheritable
  | |- keeps _ _ (liftW (close_input _ _)) =>
      apply answers_left_liftW, answers_left_close_input
  | |- keeps _ _ (liftW (close_output _ _)) =>
      apply answers_left_liftW, answers_left_close_output
  | |- keeps _ _ (liftW (PipePair_close _ _)) =>
      apply answers_left_liftW, answers_left_PipePair_close
  | |- keeps _ _ (liftW LastErrorString) =>
      apply answers_left_liftW, answers_left_LastErrorString
  | |- keeps _ _ (liftW (call_on _ Popen_destroy)) =>
      apply answers_left_liftW, answers_left_call_on, keeps_noexcept,
        answers_left_close
  end.

Lemma answers_left_destructors (q : list (bool * PROCESS_INFORMATION)) :
  keeps (answers_left_in q) (fun _ => True) run_command_destructors.
Proof. unfold run_command_destructors. repeat local_step. Qed.


Lemma scoped_val_inv2 {S A} (body : M S A) (dtor : M S unit) (s s' : S)
    (a : A) :
  scoped body dtor s = (Val a, s') ->
  exists s1 u, body s = (Val a, s1) /\ dtor s1 = (Val u, s').
Proof.
  unfold scoped. destruct (body s) as [[a0| | |] s1]; intros H;
    try discriminate.
  - destruct (noexcept dtor s1) as [[u| | |] s2] eqn:E; try discriminate.
    inversion H; subst. exists s1, u. split; [reflexivity|].
    apply noexcept_val_inv. exact E.
  - destruct (noexcept dtor s1) as [[u| | |] s2]; discriminate.
Qed.

Ltac answers_step H Hprev Hnew :=
  let E := fresh "E" in
  apply bind_val_inv in H;
  destruct H as (? & ? & E & H);
  eapply (keeps_val _ (fun _ => True)) in E as Hnew;
    [| repeat local_step | exact Hprev];
  clear E.

(** The value [run_command] returns holds the process information
    [CreateProcess] answered, which is the one answer consumed. *)
Lemma run_command_body_answer (b : ProcessBuilder) (cmdline : CommandLine)
    (program : string) (l : RCLocals) (w : World) (s' : RCLocals * World)
    (p : Popen) :
  run_command_body b cmdline program (l, w) = (Val p, s') ->
  exists pi,
    w_createprocess w = (true, pi) :: w_createprocess (snd s')
    /\ process_info p = pi /\ pid p = dwProcessId pi /\ args p = cmdline.
Proof.
  unfold run_command_body. intros H.
  assert (answers_left_in (w_createprocess w) (l, w)) as A0 by reflexivity.
  answers_step H A0 A1. answers_step H A1 A2. answers_step H A2 A3.
  answers_step H A3 A4. answers_step H A4 A5. answers_step H A5 A6.
  answers_step H A6 A7. answers_step H A7 A8.
  apply bind_val_inv in H. destruct H as ([bSuccess pi] & [l9 w9] & EC & H).
  apply liftW_inv in EC. destruct EC as (w9' & EC & E9).
  unfold CreateProcess, native_call in EC.
  match type of A8 with
  | answers_left_in _ ?s => destruct s as [l8 w8]
  end.
  unfold answers_left_in in A8. cbn [snd] in A8, EC.
  destruct (w_createprocess w8) as [|a rest] eqn:Eq; [discriminate|].
  inversion EC as [[Ha Hw9]]; clear EC. subst w9'.
  inversion E9; subst l9 w9; clear E9.
  match type of H with
  | _ ?s = _ => assert (answers_left_in rest s) as B0 by reflexivity;
                  revert B0 H; generalize s; intros s9 B0 H
  end.
  apply bind_val_inv in H. destruct H as (u1 & s10 & Hs1 & H).
  apply bind_val_inv in H. destruct H as (u2 & s11 & Hs2 & H).
  assert (answers_left_in rest s11
          /\ process_is (fun P => process_info P = pi
                                  /\ pid P = dwProcessId pi) s11)
    as (B2 & J2).
  { destruct s9 as [l9 w9]. unfold set_process in Hs1, Hs2.
    inversion Hs1; subst. inversion Hs2; subst. split; [exact B0|].
    split; reflexivity. }
  clear Hs1 Hs2.
  apply bind_val_inv in H. destruct H as (l0 & s13 & Hl & H).
  eapply keeps_val in Hl as J13; [|apply process_is_locals | exact J2].
  eapply (keeps_val _ (fun _ => True)) in Hl as B13;
    [|repeat local_step | exact B2].
  apply bind_val_inv in H. destruct H as (u3 & s14 & Hc & H).
  eapply keeps_val in Hc as J14;
    [|apply process_is_close_pair, process_is_set_cin_pair | exact J13].
  eapply (keeps_val _ (fun _ => True)) in Hc as B14;
    [|repeat local_step | exact B13].
  apply bind_val_inv in H. destruct H as (u4 & s15 & Hc' & H).
  eapply keeps_val in Hc' as J15;
    [|apply process_is_close_pair, process_is_set_cout_pair | exact J14].
  eapply (keeps_val _ (fun _ => True)) in Hc' as B15;
    [|repeat local_step | exact B14].
  apply bind_val_inv in H. destruct H as (u5 & s16 & Hc'' & H).
  eapply keeps_val in Hc'' as J16;
    [|apply process_is_close_pair, process_is_set_cerr_pair | exact J15].
  eapply (keeps_val _ (fun _ => True)) in Hc'' as B16;
    [|repeat local_step | exact B15].
  apply bind_val_inv in H. destruct H as (l' & s17 & Hl' & H).
  eapply keeps_val in Hl' as J17; [|apply process_is_locals | exact J16].
  eapply (keeps_val _ (fun _ => True)) in Hl' as B17;
    [|repeat local_step | exact B16].
  apply bind_val_inv in H. destruct H as (u6 & s18 & Hd & H).
  eapply keeps_val in Hd as J18;
    [|apply process_is_close_pair, process_is_set_cin_pair | exact J17].
  eapply (keeps_val _ (fun _ => True)) in Hd as B18;
    [|repeat local_step | exact B17].
  apply bind_val_inv in H. destruct H as (u7 & s19 & Hd' & H).
  eapply keeps_val in Hd' as J19;
    [|apply process_is_close_pair, process_is_set_cout_pair | exact J18].
  eapply (keeps_val _ (fun _ => True)) in Hd' as B19;
    [|repeat local_step | exact B18].
  apply bind_val_inv in H. destruct H as (u8 & s20 & Hd'' & H).
  eapply keeps_val in Hd'' as J20;
    [|apply process_is_close_pair, process_is_set_cerr_pair | exact J19].
  eapply (keeps_val _ (fun _ => True)) in Hd'' as B20;
    [|repeat local_step | exact B19].
  apply bind_val_inv in H. destruct H as (l'' & s21 & Hl'' & H).
  eapply keeps_val in Hl'' as J21; [|apply process_is_locals | exact J20].
  eapply (keeps_val _ (fun _ => True)) in Hl'' as B21;
    [|repeat local_step | exact B20].
  apply bind_val_inv in H. destruct H as (u9 & s22 & He & H).
  eapply keeps_val in He as J22;
    [|apply process_is_set_cin_pair | exact J21].
  eapply (keeps_val _ (fun _ => True)) in He as B22;
    [|repeat local_step | exact B21].
  apply bind_val_inv in H. destruct H as (u10 & s23 & He' & H).
  eapply keeps_val in He' as J23;
    [|apply process_is_set_cout_pair | exact J22].
  eapply (keeps_val _ (fun _ => True)) in He' as B23;
    [|repeat local_step | exact B22].
  apply bind_val_inv in H. destruct H as (u11 & [l24 w24] & He'' & H).
  eapply keeps_val in He'' as J24;
    [|apply process_is_set_cerr_pair | exact J23].
  eapply (keeps_val _ (fun _ => True)) in He'' as B24;
    [|repeat local_step | exact B23].
  apply bind_val_inv in H. destruct H as (u12 & s25 & Ha' & H).
  unfold set_process in Ha'. inversion Ha'; subst s25; clear Ha'.
  destruct bSuccess; cbn [negb] in H.
  2:{ apply bind_val_inv in H. destruct H as (str & s26 & _ & H).
      discriminate. }
  apply bind_val_inv in H. destruct H as (lf & s26 & Hlf & H).
  unfold locals in Hlf. inversion Hlf; subst lf s26; clear Hlf.
  apply bind_val_inv in H. destruct H as (u13 & s27 & Hsp & H).
  unfold set_process in Hsp. inversion Hsp; subst s27; clear Hsp.
  unfold ret in H. inversion H; subst p s'; clear H.
  unfold process_is in J24. cbn in J24. destruct J24 as (Jpi & Jpid).
  unfold answers_left_in in B24. cbn in B24.
  exists pi. cbn. rewrite B24, <- A8, Ha.
  split; [reflexivity|]. auto.
Qed.

Lemma run_command_answer (resolve : string -> M World string)
    (b : ProcessBuilder) (cmdline : CommandLine) (w w' : World) (p : Popen) :
  run_command_with resolve b cmdline w = (Val p, w') ->
  exists program w0,
    resolve (List.hd ""%string cmdline) w = (Val program, w0)
    /\ w_createprocess w0 = (true, process_info p) :: w_createprocess w'
    /\ pid p = dwProcessId (process_info p)
    /\ args p = cmdline.
Proof.
  unfold run_command_with. intros H.
  apply bind_val_inv in H. destruct H as (program & w0 & Hres & H).
  destruct (String.eqb program ""); [discriminate|].
  apply bind_val_inv in H. destruct H as (u & w2 & Hi & H).
  unfold init_startup_info, g_startupInfoInit, ret in Hi.
  inversion Hi; subst u w2; clear Hi.
  destruct (scoped _ _ (RCLocals_init, w0)) as [r [l3 w3]] eqn:E.
  inversion H; subst r w3; clear H.
  apply scoped_val_inv2 in E. destruct E as (s1 & u1 & E & ED).
  apply run_command_body_answer in E.
  destruct E as (pi & Eq & Hpi & Hpid & Hargs).
  eapply (keeps_val _ (fun _ => True)) in ED as HD;
    [| apply answers_left_destructors | reflexivity].
  unfold answers_left_in in HD. cbn [snd] in HD.
  exists program, w0. split; [exact Hres|].
  rewrite Hpi, HD. auto.
Qed.

Lemma Popen_move_assign_fresh (tmp : Popen) (w : World) :
  Popen_move_assign tmp (Popen_default, w)
  = (Val (mkPopen (kBadPipeValue Win32) (kBadPipeValue Win32)
            (kBadPipeValue Win32) 0 kBadReturnCode [] (m_soft_kill tmp)
            PROCESS_INFORMATION_zero),
     (tmp, w)).
Proof. reflexivity. Qed.

Lemma Popen_destroy_moved_from (k : bool) (w : World) :
  call_on (mkPopen (kBadPipeValue Win32) (kBadPipeValue Win32)
             (kBadPipeValue Win32) 0 kBadReturnCode [] k
             PROCESS_INFORMATION_zero) Popen_destroy w
  = (Val (tt, mkPopen (kBadPipeValue Win32) (kBadPipeValue Win32)
                (kBadPipeValue Win32) 0 kBadReturnCode [] k
                PROCESS_INFORMATION_zero), w).
Proof. reflexivity. Qed.

(** X9: a [Popen] constructed from a command line and options holds the
    full command line in [args], no exit status, and in [pid] and
    [process_info] the process id and the process information that
    [CreateProcess] answered: once the program is resolved, the next
    answer of [CreateProcess] is a success with that process information,
    and it is the only answer consumed.  For a command other than
    python3 the resolution consumes none, so the answer is the first
    one. *)
Theorem Popen_ctor_records (command_ : CommandLine) (options : RunOptions)
    (w w' : World) (p : Popen) :
  Popen_ctor command_ options w = (Val p, w') ->
  args p = command_
  /\ returncode p = kBadReturnCode
  /\ pid p = dwProcessId (process_info p)
  /\ (exists program w0,
         find_program (List.hd ""%string command_) w = (Val program, w0)
         /\ w_createprocess w0
            = (true, process_info p) :: w_createprocess w')
  /\ (List.hd ""%string command_ <> "python3"%string ->
      w_createprocess w = (true, process_info p) :: w_createprocess w').
Proof.
  intros H. pose proof (Popen_ctor_val _ _ _ _ _ H) as Hrc.
  unfold Popen_ctor, Popen_ctor_with in H.
  apply bind_val_inv in H. destruct H as ([u o] & w1 & HC & H).
  unfold ret in H. inversion H; subst; clear H. cbn [snd] in *.
  apply call_on_val_inv in HC. unfold init_with in HC.
  apply bind_val_inv in HC. destruct HC as (builder & s1 & Hb & H).
  apply init_builder_val in Hb as Hs1. destruct Hs1 as (-> & _).
  apply bind_val_inv in H. destruct H as (tmp & [p2 w2] & HR & H).
  apply liftW_inv in HR. destruct HR as (w2' & HR & Heq).
  inversion Heq; subst p2 w2'; clear Heq.
  apply run_command_answer in HR.
  destruct HR as (program & w0 & Hres & Hq & Hp & Ha).
  rewrite (bind_val _ _ _ _ _ (Popen_move_assign_fresh tmp w2)) in H.
  rewrite (liftW_bind _ _ _ _ _ _ (Popen_destroy_moved_from _ _)) in H.
  rewrite this_bind in H.
  apply bind_val_inv in H. destruct H as (fed & s5 & HF & H).
  apply liftW_inv in HF. destruct HF as (w5 & HF & ->).
  eapply (keeps_val _ (fun _ => True)) in HF as Q5;
    [| apply answers_left_setup_redirect_stream_in | reflexivity].
  apply bind_val_inv in H. destruct H as (u6 & [p6 w6] & HA & H).
  assert (args p6 = command_ /\ pid p6 = dwProcessId (process_info p6)
          /\ process_info p6 = process_info tmp /\ w6 = w5)
    as (Ha6 & Hp6 & Hi6 & ->).
  { destruct fed.
    - unfold assign in HA. inversion HA; subst. cbn. auto.
    - unfold ret in HA. inversion HA; subst. cbn. auto. }
  rewrite this_bind in H.
  apply bind_val_inv in H. destruct H as (u7 & s7 & HO & H).
  apply liftW_inv in HO. destruct HO as (w7 & HO & ->).
  eapply (keeps_val _ (fun _ => True)) in HO as Q7;
    [| apply answers_left_setup_redirect_stream_out | exact Q5].
  apply liftW_inv in H. destruct H as (w8 & HE & E). inversion E; subst.
  eapply (keeps_val _ (fun _ => True)) in HE as Q8;
    [| apply answers_left_setup_redirect_stream_out | exact Q7].
  unfold answers_left in Q8.
  assert (w_createprocess w0
          = (true, process_info p6) :: w_createprocess w8) as Hq8
      by (rewrite Hi6, Q8; exact Hq).
  split; [exact Ha6|]. split; [exact Hrc|]. split; [exact Hp6|].
  split.
  - exists program, w0. split; [exact Hres | exact Hq8].
  - intros Hn. rewrite (find_program_other _ Hn) in Hres.
    unfold find_program_in_path in Hres. inversion Hres; subst program w0.
    exact Hq8.
Qed.

Lemma Popen_ctor_records_witness :
  args (mkPopen 0 0 0 4242 kBadReturnCode ["sleep"; "3"]%string false
          ex_process_info) = ["sleep"; "3"]%string
  /\ returncode (mkPopen 0 0 0 4242 kBadReturnCode ["sleep"; "3"]%string
                   false ex_process_info) = kBadReturnCode
  /\ pid (mkPopen 0 0 0 4242 kBadReturnCode ["sleep"; "3"]%string false
            ex_process_info)
     = dwProcessId
         (process_info
            (mkPopen 0 0 0 4242 kBadReturnCode ["sleep"; "3"]%string false
               ex_process_info))
  /\ (exists program w0,
         find_program (List.hd ""%string ["sleep"; "3"]%string)
           ex_world_spawn_timeout
         = (Val program, w0)
         /\ w_createprocess w0
            = (true,
               process_info
                 (mkPopen 0 0 0 4242 kBadReturnCode ["sleep"; "3"]%string
                    false ex_process_info))
              :: w_createprocess
                   (snd (Popen_ctor ["sleep"; "3"]%string ex_options_timeout
                           ex_world_spawn_timeout)))
  /\ (List.hd ""%string ["sleep"; "3"]%string <> "python3"%string ->
      w_createprocess ex_world_spawn_timeout
      = (true,
         process_info
           (mkPopen 0 0 0 4242 kBadReturnCode ["sleep"; "3"]%string false
              ex_process_info))
        :: w_createprocess
             (snd (Popen_ctor ["sleep"; "3"]%string ex_options_timeout
                     ex_world_spawn_timeout))).
Proof.
  apply (Popen_ctor_records ["sleep"; "3"]%string ex_options_timeout
           ex_world_spawn_timeout
           (snd (Popen_ctor ["sleep"; "3"]%string ex_options_timeout
                   ex_world_spawn_timeout))).
  vm_compute. reflexivity.
Defined.

(** The command python3 where the program found for python is a Python 3:
    the run of [C:/bin/python --version] takes the first answer of
    [CreateProcess], and the process constructed is the one of the second
    answer. *)
Example Popen_ctor_python3 :
  fst (Popen_ctor ["python3"; "-V"]%string ex_options_timeout
         ex_world_python3)
  = Val (mkPopen 0 0 0 4242 kBadReturnCode ["python3"; "-V"]%string false
           ex_process_info).
Proof. vm_compute. reflexivity. Qed.

(** ** Redirections set up after the spawn *)

(** The first steps of [init] once the builder is configured and the child
    is spawned: the object takes over the spawned process and the
    temporary is destroyed without a native call. *)
Lemma init_spawned (command_ : CommandLine) (options : RunOptions)
    (b : ProcessBuilder) (tmp : Popen) (w w1 : World) :
  init_builder options (Popen_default, w) = (Val b, (Popen_default, w)) ->
  run_command b command_ w = (Val tmp, w1) ->
  init command_ options (Popen_default, w)
  = (fed <- liftW (setup_redirect_stream_in (ro_cin options) (cin tmp)) ;;
     (if fed then assign (with_cin (kBadPipeValue Win32)) else ret tt) ;;;
     p <- this ;;
     liftW (setup_redirect_stream_out (cout p) (ro_cout options)) ;;;
     liftW (setup_redirect_stream_out (cerr p) (ro_cerr options))) (tmp, w1).
Proof.
  intros Hb Hr. unfold init, init_with.
  erewrite bind_val; [|exact Hb]. cbn beta.
  erewrite bind_val; [|apply liftW_eq; exact Hr]. cbn beta.
  erewrite bind_val; [|apply Popen_move_assign_fresh]. cbn beta.
  erewrite bind_val; [|apply liftW_eq, Popen_destroy_moved_from]. cbn beta.
  rewrite this_bind. reflexivity.
Qed.

(** X10: a redirection that makes no sense (the child's stdin fed from a
    [std::ostream]) is rejected with [std::domain_error] only after the
    child has been spawned: the constructor throws and leaves the world
    exactly as the successful spawn left it, with no handle closed and the
    child not waited for. *)
Theorem Popen_ctor_rejects_ostream_after_spawn (command_ : CommandLine)
    (options : RunOptions) (ptr : Z) (b : ProcessBuilder) (tmp : Popen)
    (w w1 : World) :
  ro_cin options = PV_ostream ptr ->
  init_builder options (Popen_default, w) = (Val b, (Popen_default, w)) ->
  run_command b command_ w = (Val tmp, w1) ->
  Popen_ctor command_ options w
  = (Exc (domain_error "reading from std::ostream doesn't make sense"), w1).
Proof.
  intros Hc Hb Hr. unfold Popen_ctor, Popen_ctor_with, bind, call_on.
  change (init_with find_program) with init.
  rewrite (init_spawned _ _ _ _ _ _ Hb Hr). rewrite Hc. reflexivity.
Qed.

Lemma Popen_ctor_rejects_ostream_after_spawn_witness :
  Popen_ctor ["cat"%string] (ex_options_cin (PV_ostream 1)) ex_world_spawn_cin
  = (Exc (domain_error "reading from std::ostream doesn't make sense"),
     snd (run_command
            (mkProcessBuilder PO_inherit 0 PO_pipe 0 PO_inherit 0 false false
               false [] ∅ "")
            ["cat"%string] ex_world_spawn_cin)).
Proof.
  apply (Popen_ctor_rejects_ostream_after_spawn ["cat"%string]
           (ex_options_cin (PV_ostream 1)) 1
           (mkProcessBuilder PO_inherit 0 PO_pipe 0 PO_inherit 0 false false
              false [] ∅ "")
           (mkPopen 11 0 0 4242 kBadReturnCode ["cat"%string] false
              ex_process_info)
           ex_world_spawn_cin).
  - reflexivity.
  - vm_compute. reflexivity.
  - vm_compute. reflexivity.
Defined.

Lemma setup_redirect_stream_out_val (input_ : Z) (output_ : PipeVar)
    (w w' : World) (u : unit) :
  setup_redirect_stream_out input_ output_ w = (Val u, w') ->
  exists l, w_threads w' = w_threads w ++ l.
Proof.
  unfold setup_redirect_stream_out, pipe_thread_ostream,
    pipe_thread_file_out, modify, ret, throw.
  intros H. destruct output_; cbn in H; inversion H; subst; cbn;
    first [ exists []; rewrite app_nil_r; reflexivity
          | eexists; reflexivity ].
Qed.

(** X11: when the child's stdin is fed from a string, a stream or a file,
    the constructor hands the write end of the stdin pipe to a detached
    thread that closes it when it is done, and the constructed [Popen] no
    longer holds that handle; its stdout and stderr handles are the ones
    the spawn produced. *)
Theorem Popen_ctor_feeds_stdin (command_ : CommandLine)
    (options : RunOptions) (b : ProcessBuilder) (tmp p : Popen)
    (w w1 w' : World) (t : Thread) :
  feed_thread (ro_cin options) (cin tmp) = Some t ->
  init_builder options (Popen_default, w) = (Val b, (Popen_default, w)) ->
  run_command b command_ w = (Val tmp, w1) ->
  Popen_ctor command_ options w = (Val p, w') ->
  p = with_cin (kBadPipeValue Win32) tmp
  /\ exists l, w_threads w' = w_threads w1 ++ t :: l.
Proof.
  intros Ht Hb Hr H. unfold Popen_ctor, Popen_ctor_with in H.
  apply bind_val_inv in H. destruct H as ([u o] & w2 & HC & H).
  unfold ret in H. inversion H; subst; clear H. cbn [snd].
  apply call_on_val_inv in HC.
  change (init_with find_program) with init in HC.
  rewrite (init_spawned _ _ _ _ _ _ Hb Hr) in HC.
  apply bind_val_inv in HC. destruct HC as (fed & [p3 w3] & HF & H).
  assert (fed = true /\ p3 = tmp /\ w_threads w3 = w_threads w1 ++ [t])
    as (-> & -> & Hth).
  { unfold feed_thread in Ht.
    destruct (ro_cin options); try discriminate;
      inversion Ht; subst; clear Ht;
      cbn in HF; inversion HF; subst; auto. }
  apply bind_val_inv in H. destruct H as (u1 & s4 & HA & H).
  unfold assign in HA. inversion HA; subst; clear HA.
  rewrite this_bind in H. cbn [fst snd] in H.
  apply bind_val_inv in H. destruct H as (u2 & s5 & HO & H).
  apply liftW_inv in HO. destruct HO as (w5 & HO & ->).
  apply liftW_inv in H. destruct H as (w6 & HE & E).
  inversion E; subst; clear E.
  split; [reflexivity|].
  apply setup_redirect_stream_out_val in HO. destruct HO as (l1 & HO).
  apply setup_redirect_stream_out_val in HE. destruct HE as (l2 & HE).
  exists (l1 ++ l2). rewrite HE, HO, Hth, <- !app_assoc. reflexivity.
Qed.

Lemma Popen_ctor_feeds_stdin_witness :
  mkPopen 0 0 0 4242 kBadReturnCode ["cat"%string] false ex_process_info
  = with_cin (kBadPipeValue Win32)
      (mkPopen 11 0 0 4242 kBadReturnCode ["cat"%string] false
         ex_process_info)
  /\ exists l,
       w_threads (snd (Popen_ctor ["cat"%string]
                         (ex_options_cin (PV_string "hello"))
                         ex_world_spawn_cin))
       = w_threads
           (snd (run_command
                   (mkProcessBuilder PO_inherit 0 PO_pipe 0 PO_inherit 0
                      false false false [] ∅ "")
                   ["cat"%string] ex_world_spawn_cin))
         ++ T_string_to_pipe "hello" 11 true :: l.
Proof.
  apply (Popen_ctor_feeds_stdin ["cat"%string]
           (ex_options_cin (PV_string "hello"))
           (mkProcessBuilder PO_inherit 0 PO_pipe 0 PO_inherit 0 false false
              false [] ∅ "")
           (mkPopen 11 0 0 4242 kBadReturnCode ["cat"%string] false
              ex_process_info)
           (mkPopen 0 0 0 4242 kBadReturnCode ["cat"%string] false
              ex_process_info)
           ex_world_spawn_cin
           (snd (run_command
                   (mkProcessBuilder PO_inherit 0 PO_pipe 0 PO_inherit 0
                      false false false [] ∅ "")
                   ["cat"%string] ex_world_spawn_cin))
           (snd (Popen_ctor ["cat"%string]
                   (ex_options_cin (PV_string "hello"))
                   ex_world_spawn_cin))
           (T_string_to_pipe "hello" 11 true)).
  - reflexivity.
  - vm_compute. reflexivity.
  - vm_compute. reflexivity.
  - vm_compute. reflexivity.
Defined.

(** * Further properties of the pipes *)

Lemma append_assoc (a b c : string) : (a +:+ b) +:+ c = a +:+ (b +:+ c).
Proof.
  induction a as [|x a IH]; [reflexivity|].
  change (String x ((a +:+ b) +:+ c) = String x (a +:+ (b +:+ c))).
  f_equal. exact IH.
Qed.

Lemma append_empty_r (a : string) : a +:+ "" = a.
Proof.
  induction a as [|x a IH]; [reflexivity|].
  change (String x (a +:+ "") = String x a). f_equal. exact IH.
Qed.

Lemma substring_all (s : string) : String.substring 0 (String.length s) s = s.
Proof. induction s as [|x s IH]; [reflexivity|]. cbn. f_equal. exact IH. Qed.

Lemma length_substring_head (s : string) (n : nat) :
  (n <= String.length s)%nat ->
  String.length (String.substring 0 n s) = n.
Proof.
  revert n. induction s as [|x s IH]; intros n Hn; cbn in *.
  - destruct n; [reflexivity | lia].
  - destruct n as [|n]; [reflexivity|]. cbn. f_equal. apply IH. lia.
Qed.

Lemma substring_split (s : string) (n : nat) :
  (n <= String.length s)%nat ->
  String.substring 0 n s +:+ String.substring n (String.length s - n) s = s.
Proof.
  revert n. induction s as [|x s IH]; intros n Hn; cbn in *.
  - destruct n; reflexivity.
  - destruct n as [|n].
    + change (String x (String.substring 0 (String.length s) s)
              = String x s).
      f_equal. apply substring_all.
    + change (String x (String.substring 0 n s
                        +:+ String.substring n (String.length s - n) s)
              = String x s).
      f_equal. apply IH. lia.
Qed.

Lemma substring_head_idem (s : string) (n : nat) :
  (n <= String.length s)%nat ->
  String.substring 0 n (String.substring 0 n s) = String.substring 0 n s.
Proof.
  intros Hn.
  rewrite <- (length_substring_head s n Hn) at 1. apply substring_all.
Qed.

(** The loop of [pipe_read_all] on the fork/exec platform: it returns what
    it had plus all the bytes of the pipe. *)
Lemma pipe_read_all_loop_posix (fuel : nat) (h : Z) (acc : string)
    (w : World) (p : Pipe) (inh : bool) :
  w_handles w !! h = Some (mkHandle (K_read p) inh) ->
  p_writer_closed p = true ->
  (pending_bytes p < fuel)%nat ->
  exists w',
    pipe_read_all_loop Posix fuel h acc w = (Val (acc +:+ pipe_data p), w')
    /\ at_eof Posix w' h = true.
Proof.
  revert acc w p. induction fuel as [|fuel IH]; intros acc w p Hh Hc Hlt;
    [lia|].
  cbn [pipe_read_all_loop]. unfold bind, pipe_read, posix_read.
  rewrite Hh. change (2048 =? 0) with false. cbv iota.
  unfold pending_bytes in Hlt.
  destruct (pipe_data p) as [|a d] eqn:Ed.
  - rewrite Hc. change (0 >? 0) with false. cbv iota.
    eexists. split; [unfold ret; rewrite append_empty_r; reflexivity|].
    unfold at_eof. cbn [w_handles log]. rewrite Hh.
    unfold pending_bytes. rewrite Ed, Hc. reflexivity.
  - cbv beta iota zeta.
    assert (1 <= String.length (String a d))%nat as Hd by (cbn; lia).
    revert Hd Hlt. generalize (String a d) as data. intros data Hd Hlt.
    unfold split_bytes.
    set (n := Nat.min (Z.to_nat 2048) (String.length data)).
    assert (1 <= n <= String.length data)%nat as Hn by (subst n; lia).
    replace (Z.of_nat n >? 0) with true by (symmetry; lia).
    set (p' := mkPipe
                 (push_back
                    (String.substring n (String.length data - n) data) [])
                 (p_writer_closed p)).
    set (w1 := set_handles (insert h (mkHandle (K_read p') inh))
                 (log (N_read h 2048) w)).
    assert (pipe_data p'
            = String.substring n (String.length data - n) data) as Hp'.
    { subst p'. rewrite pipe_data_push_back. apply append_empty_r. }
    destruct (IH (acc +:+ String.substring 0 (Z.to_nat (Z.of_nat n))
                            (String.substring 0 n data)) w1 p')
      as (w' & E & He).
    + subst w1. cbn [w_handles set_handles log]. apply lookup_insert_eq.
    + exact Hc.
    + unfold pending_bytes. rewrite Hp', length_substring_tail by lia. lia.
    + exists w'. split; [|exact He]. rewrite E. f_equal. f_equal.
      rewrite Nat2Z.id, substring_head_idem by lia.
      rewrite Hp', append_assoc, substring_split by lia. reflexivity.
Qed.

(** The same loop on the handle/console-event platform, when the peer
    makes no zero-byte write. *)
Lemma pipe_read_all_loop_win32 (fuel : nat) (h : Z) (acc : string)
    (w : World) (p : Pipe) (inh : bool) :
  w_handles w !! h = Some (mkHandle (K_read p) inh) ->
  p_writer_closed p = true ->
  Forall (fun c => c <> ""%string) (p_chunks p) ->
  (pending_bytes p < fuel)%nat ->
  exists w',
    pipe_read_all_loop Win32 fuel h acc w = (Val (acc +:+ pipe_data p), w')
    /\ at_eof Win32 w' h = true.
Proof.
  revert acc w p. induction fuel as [|fuel IH]; intros acc w p Hh Hc Hne Hlt;
    [lia|].
  cbn [pipe_read_all_loop]. unfold bind at 1. unfold pipe_read, bind, ReadFile.
  rewrite Hh. cbv iota.
  destruct p as [chunks closed]. cbn [p_chunks p_writer_closed] in *.
  subst closed.
  destruct chunks as [|c rest].
  - cbv iota beta. unfold ret. change (-1 >? 0) with false. cbv iota.
    eexists. split; [rewrite append_empty_r; reflexivity|].
    unfold at_eof. cbn [w_handles log]. rewrite Hh. reflexivity.
  - inversion Hne as [|c0 rest0 Hc0 Hrest]; subst.
    assert (1 <= String.length c)%nat as Hlen.
    { destruct c; [contradiction | cbn; lia]. }
    cbv beta iota zeta. unfold split_bytes.
    change (Z.to_nat (dword 2048)) with (Z.to_nat 2048).
    set (n := Nat.min (Z.to_nat 2048) (String.length c)).
    assert (1 <= n <= String.length c)%nat as Hn by (subst n; lia).
    unfold ret. cbv beta iota.
    replace (Z.of_nat n >? 0) with true by (symmetry; lia).
    set (p' := mkPipe
                 (push_back (String.substring n (String.length c - n) c) rest)
                 true).
    set (w1 := set_handles (insert h (mkHandle (K_read p') inh))
                 (log (N_ReadFile h (dword 2048)) w)).
    assert (pipe_data p'
            = String.substring n (String.length c - n) c
              +:+ pipe_data (mkPipe rest true)) as Hp'.
    { subst p'. apply pipe_data_push_back. }
    assert (pipe_data (mkPipe (c :: rest) true)
            = c +:+ pipe_data (mkPipe rest true)) as Hp by reflexivity.
    unfold pending_bytes in Hlt. rewrite Hp, length_append in Hlt.
    destruct (IH (acc +:+ String.substring 0 (Z.to_nat (Z.of_nat n))
                            (String.substring 0 n c)) w1 p')
      as (w' & E & He).
    + subst w1. cbn [w_handles set_handles log]. apply lookup_insert_eq.
    + reflexivity.
    + subst p'. cbn [p_chunks]. unfold push_back.
      destruct (String.substring n (String.length c - n) c) eqn:Es;
        [exact Hrest|].
      constructor; [discriminate | exact Hrest].
    + unfold pending_bytes.
      rewrite Hp', length_append, length_substring_tail by lia. lia.
    + exists w'. split; [|exact He]. rewrite E. f_equal. f_equal.
      rewrite Nat2Z.id, substring_head_idem by lia.
      rewrite Hp', Hp, append_assoc.
      rewrite <- (append_assoc (String.substring 0 n c)).
      rewrite substring_split by lia. reflexivity.
Qed.

(** X12: on a pipe whose writers have closed, [pipe_read_all] returns all
    the bytes of the pipe, in order, and leaves the pipe at end of stream
    (it does not close the handle).  On the handle/console-event platform
    this needs the peer to make no zero-byte write. *)
Theorem pipe_read_all_drains (pf : Platform) (h : Z) (w : World) (p : Pipe)
    (inh : bool) :
  h <> kBadPipeValue pf ->
  w_handles w !! h = Some (mkHandle (K_read p) inh) ->
  p_writer_closed p = true ->
  (pf = Win32 -> Forall (fun c => c <> ""%string) (p_chunks p)) ->
  exists w',
    pipe_read_all pf h w = (Val (pipe_data p), w')
    /\ at_eof pf w' h = true.
Proof.
  intros Hh Hl Hc Hz. unfold pipe_read_all.
  replace (h =? kBadPipeValue pf) with false by (symmetry; lia).
  cbn [negb]. unfold bind, get. rewrite Hl.
  destruct pf.
  - destruct (pipe_read_all_loop_win32 (S (pending_bytes p)) h "" w p inh Hl
                Hc (Hz eq_refl) ltac:(lia)) as (w' & E & He).
    exists w'. split; assumption.
  - destruct (pipe_read_all_loop_posix (S (pending_bytes p)) h "" w p inh Hl
                Hc ltac:(lia)) as (w' & E & He).
    exists w'. split; assumption.
Qed.

Lemma pipe_read_all_drains_witness :
  exists w',
    pipe_read_all Win32 7 ex_world_data
    = (Val (pipe_data (mkPipe ["ab"; "c"]%string true)), w')
    /\ at_eof Win32 w' 7 = true.
Proof.
  apply (pipe_read_all_drains Win32 7 ex_world_data
           (mkPipe ["ab"; "c"]%string true) false).
  - vm_compute. discriminate.
  - vm_compute. reflexivity.
  - reflexivity.
  - intros _. repeat constructor; discriminate.
Defined.

(** X13: on the handle/console-event platform the thread
    [pipe_ignore_and_close] starts comes to an end on every pipe whose
    writers have closed: after at most one read per pending byte and per
    pending write plus one, it has closed the handle, and no other handle
    is touched. *)
Theorem ignore_and_close_thread_closes (fuel : nat) (h : Z) (w : World)
    (p : Pipe) (inh : bool) :
  w_handles w !! h = Some (mkHandle (K_read p) inh) ->
  p_writer_closed p = true ->
  (List.length (p_chunks p) + pending_bytes p < fuel)%nat ->
  exists w',
    ignore_and_close_thread Win32 fuel h w = (Val (Some tt), w')
    /\ w_handles w' = delete h (w_handles w).
Proof.
  revert w p. induction fuel as [|fuel IH]; intros w p Hh Hc Hlt; [lia|].
  cbn [ignore_and_close_thread]. unfold bind at 1.
  unfold pipe_read, bind, ReadFile. rewrite Hh. cbv iota.
  destruct p as [chunks closed]. cbn [p_chunks p_writer_closed] in *.
  subst closed.
  destruct chunks as [|c rest].
  - cbv iota beta. unfold ret. cbn [fst]. change (-1 >=? 0) with false.
    cbv iota. unfold pipe_close, CloseHandle.
    cbn [w_handles log]. rewrite Hh.
    eexists. split; [reflexivity|]. reflexivity.
  - cbv beta iota zeta. unfold split_bytes.
    change (Z.to_nat (dword 1024)) with (Z.to_nat 1024).
    set (n := Nat.min (Z.to_nat 1024) (String.length c)).
    assert (n <= String.length c)%nat as Hn by (subst n; lia).
    unfold ret. cbv beta iota. cbn [fst].
    replace (Z.of_nat n >=? 0) with true by (symmetry; lia).
    set (p' := mkPipe
                 (push_back (String.substring n (String.length c - n) c) rest)
                 true).
    set (w1 := set_handles (insert h (mkHandle (K_read p') inh))
                 (log (N_ReadFile h (dword 1024)) w)).
    assert (pipe_data (mkPipe (c :: rest) true)
            = c +:+ pipe_data (mkPipe rest true)) as Hp by reflexivity.
    unfold pending_bytes in Hlt. rewrite Hp, length_append in Hlt.
    cbn [List.length] in Hlt.
    destruct (IH w1 p') as (w' & E & He).
    + subst w1. cbn [w_handles set_handles log]. apply lookup_insert_eq.
    + reflexivity.
    + unfold pending_bytes. subst p'.
      rewrite pipe_data_push_back, length_append.
      rewrite length_substring_tail by lia. cbn [p_chunks].
      fold (pipe_data (mkPipe rest true)).
      assert (List.length
                (push_back (String.substring n (String.length c - n) c) rest)
              <= S (List.length rest))%nat as Hl.
      { unfold push_back.
        destruct (String.substring n (String.length c - n) c); cbn; lia. }
      destruct (Nat.eq_dec n 0%nat) as [Hz | Hz].
      * assert (String.length c = 0)%nat as Hc0 by (subst n; lia).
        destruct c; [|discriminate]. clearbody n. subst n. cbn in *. lia.
      * lia.
    + exists w'. split; [exact E|]. rewrite He. subst w1.
      cbn [w_handles set_handles log]. apply delete_insert_eq.
Qed.

Lemma ignore_and_close_thread_closes_witness :
  exists w',
    ignore_and_close_thread Win32 6 7 ex_world_data = (Val (Some tt), w')
    /\ w_handles w' = delete 7 (w_handles ex_world_data).
Proof.
  apply (ignore_and_close_thread_closes 6 7 ex_world_data
           (mkPipe ["ab"; "c"]%string true) false).
  - vm_compute. reflexivity.
  - reflexivity.
  - vm_compute. lia.
Defined.

(** ** Inheritance flags and pairs *)

Lemma testbit_clear_cloexec (flags : Z) :
  Z.testbit (Z.land flags (Z.lnot FD_CLOEXEC)) 0 = false.
Proof.
  rewrite Z.land_spec, Z.lnot_spec by lia. unfold FD_CLOEXEC.
  change (Z.testbit 1 0) with true. cbn. apply andb_false_r.
Qed.

Lemma testbit_set_cloexec (flags : Z) :
  Z.testbit (Z.lor flags FD_CLOEXEC) 0 = true.
Proof.
  rewrite Z.lor_spec. unfold FD_CLOEXEC.
  change (Z.testbit 1 0) with true. apply orb_true_r.
Qed.

(** [pipe_set_inheritable] on an open handle, on either platform: the
    handle keeps its object and gets the flag asked for. *)
Lemma pipe_set_inheritable_open (pf : Platform) (h : Z) (b : bool) (w : World)
    (o : KObj) (i : bool) :
  h <> kBadPipeValue pf ->
  w_handles w !! h = Some (mkHandle o i) ->
  exists w',
    pipe_set_inheritable pf h b w = (Val tt, w')
    /\ w_handles w' = <[h := mkHandle o b]> (w_handles w)
    /\ w_createpipe w' = w_createpipe w
    /\ w_last_error w' = w_last_error w.
Proof.
  intros Hh Hl. unfold pipe_set_inheritable.
  replace (h =? kBadPipeValue pf) with false by (symmetry; lia).
  destruct pf.
  - unfold bind, SetHandleInformation. rewrite Hl. cbn [negb].
    eexists. split; [reflexivity|]. cbn [w_handles set_handles log].
    split; [|split; reflexivity].
    destruct b; reflexivity.
  - unfold bind at 1. unfold fcntl_GETFD. rewrite Hl.
    assert (((if i then 0 else FD_CLOEXEC) <? 0) = false) as ->
        by (destruct i; reflexivity).
    unfold bind at 1. unfold ret at 1. unfold bind, fcntl_SETFD.
    cbn [w_handles log]. rewrite Hl.
    change (0 <? -1) with false. cbv iota.
    eexists. split; [reflexivity|]. cbn [w_handles set_handles log].
    split; [|split; reflexivity].
    destruct b.
    + rewrite testbit_clear_cloexec. reflexivity.
    + rewrite testbit_set_cloexec. reflexivity.
Qed.

(** X14: on either platform, [pipe_set_inheritable] on an open handle sets
    its inherit flag to the value asked for, whatever it was, and changes
    nothing else in the handle table. *)
Theorem pipe_set_inheritable_sets_flag (pf : Platform) (h : Z) (b : bool)
    (w : World) (o : KObj) (i : bool) :
  h <> kBadPipeValue pf ->
  w_handles w !! h = Some (mkHandle o i) ->
  exists w',
    pipe_set_inheritable pf h b w = (Val tt, w')
    /\ w_handles w' = <[h := mkHandle o b]> (w_handles w).
Proof.
  intros Hh Hl.
  destruct (pipe_set_inheritable_open pf h b w o i Hh Hl)
    as (w' & E & Ht & _).
  exists w'. split; assumption.
Qed.

Lemma pipe_set_inheritable_sets_flag_witness :
  exists w',
    pipe_set_inheritable Posix 7 true ex_world_data = (Val tt, w')
    /\ w_handles w'
       = <[7 := mkHandle (K_read (mkPipe ["ab"; "c"]%string true)) true]>
           (w_handles ex_world_data).
Proof.
  apply (pipe_set_inheritable_sets_flag Posix 7 true ex_world_data
           (K_read (mkPipe ["ab"; "c"]%string true)) false).
  - vm_compute. discriminate.
  - vm_compute. reflexivity.
Defined.

(** X15: on either platform, a [pipe_create] that the system grants
    returns the two new handles, both open and both with the inherit flag
    asked for; on the fork/exec platform, where new descriptors are
    inherited, a pipe asked not to be is marked close-on-exec on both
    ends. *)
Theorem pipe_create_inherit_flag (pf : Platform) (inheritable : bool)
    (w : World) (rd wr : Z) (p : Pipe)
    (q : list (option (Z * Z * Pipe))) :
  w_createpipe w = Some (rd, wr, p) :: q ->
  rd <> kBadPipeValue pf -> wr <> kBadPipeValue pf -> rd <> wr ->
  exists w',
    pipe_create pf inheritable w = (Val (mkPipePair rd wr), w')
    /\ w_handles w'
       = <[wr := mkHandle K_write inheritable]>
           (<[rd := mkHandle (K_read p) inheritable]> (w_handles w)).
Proof.
  intros Hq Hrd Hwr Hne. unfold pipe_create. destruct pf.
  - unfold bind, CreatePipe, bind, native_call. rewrite Hq.
    cbv beta iota. unfold modify, ret. cbn [fst snd].
    eexists. split; [reflexivity|]. reflexivity.
  - unfold bind at 1. unfold posix_pipe, bind, native_call. rewrite Hq.
    cbv beta iota. unfold modify, ret. cbn [fst snd].
    set (w1 := set_handles (open_pipe true (rd, wr, p))
                 (set_createpipe q (log N_pipe w))).
    assert (w_handles w1
            = <[wr := mkHandle K_write true]>
                (<[rd := mkHandle (K_read p) true]> (w_handles w))) as Hw1
        by reflexivity.
    destruct inheritable.
    + cbn [negb]. eexists. split; [reflexivity|]. exact Hw1.
    + cbn [negb].
      destruct (pipe_set_inheritable_open Posix rd false w1 (K_read p) true
                  Hrd)
        as (w2 & E2 & Ht2 & _).
      { rewrite Hw1, lookup_insert_ne by congruence.
        apply lookup_insert_eq. }
      destruct (pipe_set_inheritable_open Posix wr false w2 K_write true Hwr)
        as (w3 & E3 & Ht3 & _).
      { rewrite Ht2, lookup_insert_ne by congruence.
        rewrite Hw1. apply lookup_insert_eq. }
      rewrite E2, E3. eexists. split; [reflexivity|].
      rewrite Ht3, Ht2, Hw1.
      apply map_eq. intros k.
      destruct (decide (k = wr)) as [-> | Hk1].
      { rewrite !lookup_insert_eq. reflexivity. }
      destruct (decide (k = rd)) as [-> | Hk2].
      { rewrite !(lookup_insert_ne _ wr), !lookup_insert_eq by congruence.
        reflexivity. }
      rewrite !lookup_insert_ne by congruence. reflexivity.
Qed.

Lemma pipe_create_inherit_flag_witness :
  exists w',
    pipe_create Posix false
      (set_createpipe [Some (10, 11, mkPipe [] false)] ex_world)
    = (Val (mkPipePair 10 11), w')
    /\ w_handles w'
       = <[11 := mkHandle K_write false]>
           (<[10 := mkHandle (K_read (mkPipe [] false)) false]>
              (w_handles
                 (set_createpipe [Some (10, 11, mkPipe [] false)] ex_world))).
Proof.
  apply (pipe_create_inherit_flag Posix false
           (set_createpipe [Some (10, 11, mkPipe [] false)] ex_world)
           10 11 (mkPipe [] false) []).
  - reflexivity.
  - vm_compute. discriminate.
  - vm_compute. discriminate.
  - discriminate.
Defined.

Lemma pipe_close_handles (pf : Platform) (h : Z) (w : World) :
  h <> kBadPipeValue pf ->
  exists b w',
    pipe_close pf h w = (Val b, w')
    /\ w_handles w' = delete h (w_handles w).
Proof.
  intros Hh. unfold pipe_close. destruct pf.
  - unfold CloseHandle. destruct (w_handles w !! h) eqn:E.
    + eexists _, _. split; reflexivity.
    + eexists _, _. split; [reflexivity|]. cbn [w_handles log].
      symmetry. apply delete_id. exact E.
  - replace (h =? kBadPipeValue Posix) with false by (symmetry; lia).
    unfold bind, posix_close. destruct (w_handles w !! h) eqn:E.
    + eexists _, _. split; reflexivity.
    + eexists _, _. split; [reflexivity|]. cbn [w_handles log].
      symmetry. apply delete_id. exact E.
Qed.

(** X16: on either platform [PipePair::close] closes both ends of the
    pair, leaves every other handle alone and leaves the pair disowned; on
    a disowned pair it does nothing at all, so closing twice is closing
    once. *)
Theorem PipePair_close_closes_both (pf : Platform) (pp : PipePair)
    (w : World) :
  input pp <> kBadPipeValue pf ->
  output pp <> kBadPipeValue pf ->
  exists w',
    PipePair_close pf pp w = (Val (PipePair_default pf), w')
    /\ w_handles w' = delete (output pp) (delete (input pp) (w_handles w))
    /\ PipePair_close pf (PipePair_default pf) w'
       = (Val (PipePair_default pf), w').
Proof.
  intros Hi Ho. unfold PipePair_close at 1.
  replace (input pp =? kBadPipeValue pf) with false by (symmetry; lia).
  replace (output pp =? kBadPipeValue pf) with false by (symmetry; lia).
  cbn [negb].
  destruct (pipe_close_handles pf (input pp) w Hi) as (b1 & w1 & E1 & H1).
  destruct (pipe_close_handles pf (output pp) w1 Ho) as (b2 & w2 & E2 & H2).
  exists w2. split; [|split].
  - unfold bind. rewrite E1. unfold ret at 1. rewrite E2. reflexivity.
  - rewrite H2, H1. reflexivity.
  - unfold PipePair_close, PipePair_default. cbn [input output].
    rewrite Z.eqb_refl. reflexivity.
Qed.

Lemma PipePair_close_closes_both_witness :
  exists w',
    PipePair_close Win32 (mkPipePair 7 8) ex_world_data
    = (Val (PipePair_default Win32), w')
    /\ w_handles w' = delete 8 (delete 7 (w_handles ex_world_data))
    /\ PipePair_close Win32 (PipePair_default Win32) w'
       = (Val (PipePair_default Win32), w').
Proof.
  apply (PipePair_close_closes_both Win32 (mkPipePair 7 8) ex_world_data).
  - vm_compute. discriminate.
  - vm_compute. discriminate.
Defined.

(** * The wiring of the three pipes in [run_command] *)

Lemma CreatePipe_view (inh : bool) (w : World) (T : gmap Z Handle)
    (rd wr : Z) (p : Pipe) qp qc :
  world_view w T (Some (rd, wr, p) :: qp) qc ->
  exists w',
    CreatePipe inh w = (Val (Some (rd, wr)), w')
    /\ world_view w' (open_pipe inh (rd, wr, p) T) qp qc.
Proof.
  intros (HT & Hp & Hc). unfold CreatePipe, bind, native_call. rewrite Hp.
  cbv beta iota. unfold modify, ret. eexists. split; [reflexivity|].
  unfold world_view. cbn [w_handles w_createpipe w_createprocess set_handles
                            set_createpipe log fst snd].
  rewrite HT, Hc. auto.
Qed.

Lemma SetHandleInformation_view (h flags : Z) (w : World) (T : gmap Z Handle)
    (o : KObj) (i : bool) qp qc :
  world_view w T qp qc ->
  T !! h = Some (mkHandle o i) ->
  exists w',
    SetHandleInformation h flags w = (Val true, w')
    /\ world_view w' (<[h := mkHandle o (Z.testbit flags 0)]> T) qp qc.
Proof.
  intros (HT & Hp & Hc) Hl. unfold SetHandleInformation.
  rewrite HT, Hl. eexists. split; [reflexivity|].
  unfold world_view. cbn [w_handles w_createpipe w_createprocess set_handles
                            log].
  rewrite HT. auto.
Qed.

Lemma CloseHandle_view (h : Z) (w : World) (T : gmap Z Handle) qp qc :
  world_view w T qp qc ->
  exists b w',
    CloseHandle h w = (Val b, w') /\ world_view w' (delete h T) qp qc.
Proof.
  intros (HT & Hp & Hc). unfold CloseHandle. rewrite HT.
  destruct (T !! h) eqn:E.
  - eexists _, _. split; [reflexivity|].
    unfold world_view. cbn [w_handles w_createpipe w_createprocess
                              set_handles log].
    rewrite HT. auto.
  - eexists _, _. split; [reflexivity|].
    unfold world_view. cbn [w_handles w_createpipe w_createprocess log].
    rewrite HT, delete_id by exact E. auto.
Qed.

Lemma CreateProcess_view (a : CreateProcessArgs) (w : World)
    (T : gmap Z Handle) (r : bool * PROCESS_INFORMATION) qp qc :
  world_view w T qp (r :: qc) ->
  exists w', CreateProcess a w = (Val r, w') /\ world_view w' T qp qc.
Proof.
  intros (HT & Hp & Hc). unfold CreateProcess, native_call. rewrite Hc.
  eexists. split; [reflexivity|].
  unfold world_view. cbn [w_handles w_createpipe w_createprocess
                            set_createprocess log].
  auto.
Qed.

Lemma world_view_log (c : NativeCall) (w : World) T qp qc :
  world_view w T qp qc -> world_view (log c w) T qp qc.
Proof. exact (fun H => H). Qed.

Lemma assign_new_pair_view (w : World) (T : gmap Z Handle) (rd wr : Z)
    (p : Pipe) qp qc :
  world_view w T (Some (rd, wr, p) :: qp) qc ->
  exists w',
    assign_new_pair (PipePair_default Win32) w = (Val (mkPipePair rd wr), w')
    /\ world_view w' (open_pipe true (rd, wr, p) T) qp qc.
Proof.
  intros Hv. destruct (CreatePipe_view true w T rd wr p qp qc Hv)
    as (w' & E & Hv').
  exists w'. split; [|exact Hv'].
  unfold assign_new_pair, pipe_create, bind. rewrite E. reflexivity.
Qed.

Lemma locals_bind {B} (k : RCLocals -> Local B) (l : RCLocals) (w : World) :
  bind locals k (l, w) = k l (l, w).
Proof. reflexivity. Qed.

(** The block of [run_command] for a piped stdin: a new pipe, whose write
    end goes to the process and is made not inheritable; the child gets
    the read end. *)
Lemma piped_cin_block (l : RCLocals) (w : World) (T : gmap Z Handle)
    (rd wr : Z) (p : Pipe) qp qc :
  l_cin_pair l = PipePair_default Win32 ->
  world_view w T (Some (rd, wr, p) :: qp) qc ->
  exists w',
    (l <- locals ;;
     pp <- liftW (assign_new_pair (l_cin_pair l)) ;;
     set_cin_pair pp ;;;
     set_process (with_cin (output pp)) ;;;
     _ <- liftW (disable_inherit (output pp)) ;;
     ret (input pp)) (l, w)
    = (Val rd,
       (mkRCLocals (with_cin wr (l_process l)) (mkPipePair rd wr)
          (l_cout_pair l) (l_cerr_pair l), w'))
    /\ world_view w'
         (<[wr := mkHandle K_write false]>
            (<[rd := mkHandle (K_read p) true]> T)) qp qc.
Proof.
  intros Hl Hv. rewrite locals_bind, Hl.
  destruct (assign_new_pair_view w T rd wr p qp qc Hv) as (w1 & E1 & Hv1).
  rewrite (liftW_bind _ _ _ _ _ _ E1).
  unfold set_cin_pair at 1, bind at 1. cbn [fst snd].
  unfold set_process at 1, bind at 1.
  cbn [fst snd l_process l_cin_pair l_cout_pair l_cerr_pair output input].
  destruct (SetHandleInformation_view wr 0 w1 _ K_write true qp qc Hv1)
    as (w2 & E2 & Hv2).
  { unfold open_pipe. apply lookup_insert_eq. }
  unfold disable_inherit. rewrite (liftW_bind _ _ _ _ _ _ E2).
  exists w2. split; [reflexivity|].
  unfold open_pipe in Hv2. rewrite insert_insert_eq in Hv2. exact Hv2.
Qed.

(** The block for a piped stdout or stderr: the read end goes to the
    process and is made not inheritable; the child gets the write end. *)
Lemma piped_out_block (pair : RCLocals -> PipePair)
    (set_pair : PipePair -> Local unit) (with_member : Z -> Popen -> Popen)
    (upd : PipePair -> RCLocals -> RCLocals)
    (l : RCLocals) (w : World) (T : gmap Z Handle)
    (rd wr : Z) (p : Pipe) qp qc :
  (forall pp l0 w0, set_pair pp (l0, w0) = (Val tt, (upd pp l0, w0))) ->
  (forall pp l0, l_process (upd pp l0) = l_process l0) ->
  pair l = PipePair_default Win32 ->
  rd <> wr ->
  world_view w T (Some (rd, wr, p) :: qp) qc ->
  exists w',
    (l <- locals ;;
     pp <- liftW (assign_new_pair (pair l)) ;;
     set_pair pp ;;;
     set_process (with_member (input pp)) ;;;
     _ <- liftW (disable_inherit (input pp)) ;;
     ret (output pp)) (l, w)
    = (Val wr,
       (let l1 := upd (mkPipePair rd wr) l in
        mkRCLocals (with_member rd (l_process l1)) (l_cin_pair l1)
          (l_cout_pair l1) (l_cerr_pair l1), w'))
    /\ world_view w'
         (<[rd := mkHandle (K_read p) false]>
            (<[wr := mkHandle K_write true]> T)) qp qc.
Proof.
  intros Hset Hupd Hl Hne Hv. rewrite locals_bind, Hl.
  destruct (assign_new_pair_view w T rd wr p qp qc Hv) as (w1 & E1 & Hv1).
  rewrite (liftW_bind _ _ _ _ _ _ E1).
  unfold bind at 1. rewrite Hset.
  unfold set_process at 1, bind at 1. cbn [fst snd input output].
  destruct (SetHandleInformation_view rd 0 w1 _ (K_read p) true qp qc Hv1)
    as (w2 & E2 & Hv2).
  { unfold open_pipe. rewrite lookup_insert_ne by congruence.
    apply lookup_insert_eq. }
  unfold disable_inherit. rewrite (liftW_bind _ _ _ _ _ _ E2).
  exists w2. split; [reflexivity|].
  unfold open_pipe in Hv2.
  replace (<[rd:=mkHandle (K_read p) false]>
             (<[wr:=mkHandle K_write true]> T))
    with (<[rd:=mkHandle (K_read p) (Z.testbit 0 0)]>
            (<[wr:=mkHandle K_write true]>
               (<[rd:=mkHandle (K_read p) true]> T))); [exact Hv2|].
  change (Z.testbit 0 0) with false.
  rewrite (insert_insert_ne _ wr rd) by congruence.
  rewrite insert_insert_eq. reflexivity.
Qed.

Lemma set_process_bind {B} (f : Popen -> Popen) (k : unit -> Local B)
    (l : RCLocals) (w : World) :
  bind (set_process f) k (l, w)
  = k tt (mkRCLocals (f (l_process l)) (l_cin_pair l) (l_cout_pair l)
            (l_cerr_pair l), w).
Proof. reflexivity. Qed.

Lemma set_cin_pair_bind {B} (pp : PipePair) (k : unit -> Local B)
    (l : RCLocals) (w : World) :
  bind (set_cin_pair pp) k (l, w)
  = k tt (mkRCLocals (l_process l) pp (l_cout_pair l) (l_cerr_pair l), w).
Proof. reflexivity. Qed.

Lemma set_cout_pair_bind {B} (pp : PipePair) (k : unit -> Local B)
    (l : RCLocals) (w : World) :
  bind (set_cout_pair pp) k (l, w)
  = k tt (mkRCLocals (l_process l) (l_cin_pair l) pp (l_cerr_pair l), w).
Proof. reflexivity. Qed.

Lemma set_cerr_pair_bind {B} (pp : PipePair) (k : unit -> Local B)
    (l : RCLocals) (w : World) :
  bind (set_cerr_pair pp) k (l, w)
  = k tt (mkRCLocals (l_process l) (l_cin_pair l) (l_cout_pair l) pp, w).
Proof. reflexivity. Qed.

Lemma ret_bind {S A B} (a : A) (k : A -> M S B) (s : S) :
  bind (ret a) k s = k a s.
Proof. reflexivity. Qed.

Lemma close_input_view (rd wr : Z) (w : World) (T : gmap Z Handle) qp qc :
  rd <> kBadPipeValue Win32 ->
  world_view w T qp qc ->
  exists w',
    close_input Win32 (mkPipePair rd wr) w
    = (Val (mkPipePair (kBadPipeValue Win32) wr), w')
    /\ world_view w' (delete rd T) qp qc.
Proof.
  intros Hn Hv. unfold close_input. cbn [input output].
  replace (rd =? kBadPipeValue Win32) with false by (symmetry; lia).
  cbn [negb]. destruct (CloseHandle_view rd w T qp qc Hv) as (b & w' & E & Hv').
  exists w'. split; [|exact Hv'].
  unfold bind, pipe_close. rewrite E. reflexivity.
Qed.

Lemma close_output_view (rd wr : Z) (w : World) (T : gmap Z Handle) qp qc :
  wr <> kBadPipeValue Win32 ->
  world_view w T qp qc ->
  exists w',
    close_output Win32 (mkPipePair rd wr) w
    = (Val (mkPipePair rd (kBadPipeValue Win32)), w')
    /\ world_view w' (delete wr T) qp qc.
Proof.
  intros Hn Hv. unfold close_output. cbn [input output].
  replace (wr =? kBadPipeValue Win32) with false by (symmetry; lia).
  cbn [negb]. destruct (CloseHandle_view wr w T qp qc Hv) as (b & w' & E & Hv').
  exists w'. split; [|exact Hv'].
  unfold bind, pipe_close. rewrite E. reflexivity.
Qed.

Lemma LastErrorString_view (w : World) T qp qc :
  world_view w T qp qc ->
  exists w',
    LastErrorString w = (Val (w_last_error_string w), w')
    /\ world_view w' T qp qc.
Proof. intros Hv. eexists. split; [reflexivity | exact Hv]. Qed.

(** The handle table once the three pipes are created and the child's
    ends are closed again in the parent. *)
Lemma piped_table (T : gmap Z Handle) (r1 w1 r2 w2 r3 w3 : Z)
    (p1 p2 p3 : Pipe) :
  fresh_handles T [r1; w1; r2; w2; r3; w3] ->
  delete w3
    (delete w2
       (delete r1
          (<[r3 := mkHandle (K_read p3) false]>
             (<[w3 := mkHandle K_write true]>
                (<[r2 := mkHandle (K_read p2) false]>
                   (<[w2 := mkHandle K_write true]>
                      (<[w1 := mkHandle K_write false]>
                         (<[r1 := mkHandle (K_read p1) true]> T))))))))
  = piped_handles T w1 r2 r3 p2 p3.
Proof.
  intros (Hnd & Hf). unfold piped_handles.
  rewrite !NoDup_cons, !not_elem_of_cons in Hnd.
  rewrite !Forall_cons in Hf.
  destruct_and!.
  apply map_eq. intros k.
  destruct (decide (k = r1)) as [-> | ?];
    [simplify_map_eq; congruence|].
  destruct (decide (k = w1)) as [-> | ?];
    [simplify_map_eq; congruence|].
  destruct (decide (k = r2)) as [-> | ?];
    [simplify_map_eq; congruence|].
  destruct (decide (k = w2)) as [-> | ?];
    [simplify_map_eq; congruence|].
  destruct (decide (k = r3)) as [-> | ?];
    [simplify_map_eq; congruence|].
  destruct (decide (k = w3)) as [-> | ?];
    [simplify_map_eq; congruence|].
  simplify_map_eq. reflexivity.
Qed.

Lemma GetStdHandle_bind {O B} (n : Z) (k : Z -> M (O * World) B) (o : O)
    (w : World) :
  bind (liftW (GetStdHandle n)) k (o, w) = k (w_std_handle w n) (o, w).
Proof. reflexivity. Qed.

Lemma windows_args_bind {O B} (cmd : CommandLine)
    (k : string -> M (O * World) B) (o : O) (w : World) :
  bind (liftW (windows_args cmd)) k (o, w)
  = k (windows_args_loop (w_escape_shell_arg w) true cmd "") (o, w).
Proof. reflexivity. Qed.

Lemma create_env_block_bind {O B} (m : gmap string string)
    (k : list Z -> M (O * World) B) (o : O) (w : World) :
  bind (liftW (create_env_block m)) k (o, w)
  = k (w_create_env_block w m) (o, w).
Proof. reflexivity. Qed.

(** [run_command] with the three streams piped, up to the end of its body:
    the process holds the parent's ends, the child's ends are closed again
    and the pairs are disowned. *)
Lemma run_command_body_piped (b : ProcessBuilder) (cmdline : CommandLine)
    (program : string) (w : World) (T : gmap Z Handle)
    (r1 w1 r2 w2 r3 w3 : Z) (p1 p2 p3 : Pipe) qp (ok : bool)
    (pi : PROCESS_INFORMATION) qc :
  piped_builder b ->
  fresh_handles T [r1; w1; r2; w2; r3; w3] ->
  world_view w T
    (Some (r1, w1, p1) :: Some (r2, w2, p2) :: Some (r3, w3, p3) :: qp)
    ((ok, pi) :: qc) ->
  let P := mkPopen w1 r2 r3 (dwProcessId pi) kBadReturnCode cmdline false pi in
  exists w',
    run_command_body b cmdline program (RCLocals_init, w)
    = ((if ok then Val P
        else Exc (SpawnError ("CreateProcess failed: "
                                +:+ w_last_error_string w'))),
       (mkRCLocals (if ok then Popen_default else P)
          (PipePair_default Win32) (PipePair_default Win32)
          (PipePair_default Win32), w'))
    /\ world_view w' (piped_handles T w1 r2 r3 p2 p3) qp qc.
Proof.
  intros (Hci & Hco & Hce) Hfresh Hv P.
  pose proof Hfresh as (Hnd & Hf).
  rewrite !NoDup_cons, !not_elem_of_cons in Hnd.
  rewrite !Forall_cons in Hf.
  destruct_and!.
  unfold run_command_body.
  rewrite !GetStdHandle_bind.
  rewrite Hci, Hco, Hce. cbn [PipeOption_eqb].
  destruct (piped_cin_block RCLocals_init w T r1 w1 p1 _ _ eq_refl Hv)
    as (wa & Ea & Hva).
  rewrite (bind_val _ _ _ _ _ Ea). clear Ea.
  cbn [RCLocals_init l_process l_cin_pair l_cout_pair l_cerr_pair].
  match goal with
  | |- context [bind _ _ (?l, wa)] =>
      destruct (piped_out_block l_cout_pair set_cout_pair with_cout
                  (fun pp l0 => mkRCLocals (l_process l0) (l_cin_pair l0) pp
                                  (l_cerr_pair l0))
                  l wa _ r2 w2 p2 _ _
                  (fun _ _ _ => eq_refl) (fun _ _ => eq_refl) eq_refl
                  ltac:(congruence) Hva)
        as (wb & Eb & Hvb)
  end.
  rewrite (bind_val _ _ _ _ _ Eb). clear Eb.
  cbv zeta. cbn [l_process l_cin_pair l_cout_pair l_cerr_pair].
  match goal with
  | |- context [bind _ _ (?l, wb)] =>
      destruct (piped_out_block l_cerr_pair set_cerr_pair with_cerr
                  (fun pp l0 => mkRCLocals (l_process l0) (l_cin_pair l0)
                                  (l_cout_pair l0) pp)
                  l wb _ r3 w3 p3 _ _
                  (fun _ _ _ => eq_refl) (fun _ _ => eq_refl) eq_refl
                  ltac:(congruence) Hvb)
        as (wc & Ec & Hvc)
  end.
  rewrite (bind_val _ _ _ _ _ Ec). clear Ec.
  cbv zeta. cbn [l_process l_cin_pair l_cout_pair l_cerr_pair].
  rewrite windows_args_bind.
  match goal with
  | |- context [bind (if bool_decide (env b = ∅) then _ else _) _ (?l, wc)] =>
      assert (exists e,
                (if bool_decide (env b = ∅)
                 then ret None
                 else envblock <- liftW (create_env_block (env b)) ;;
                      ret (Some envblock)) (l, wc)
                = (Val e, (l, wc))) as (e & Ee)
        by (destruct (bool_decide (env b = ∅)); eexists; reflexivity)
  end.
  rewrite (bind_val _ _ _ _ _ Ee). clear Ee.
  match goal with
  | |- context [CreateProcess ?a] =>
      destruct (CreateProcess_view a wc _ (ok, pi) qp qc Hvc)
        as (wd & Ed & Hvd)
  end.
  rewrite (liftW_bind _ _ _ _ _ _ Ed). clear Ed. cbv beta iota.
  rewrite !set_process_bind, locals_bind.
  cbn [l_process l_cin_pair l_cout_pair l_cerr_pair].
  unfold PipePair_bool. cbn [input output].
  rewrite (proj2 (Z.eqb_neq r1 w1)), (proj2 (Z.eqb_neq r2 w2)),
    (proj2 (Z.eqb_neq r3 w3)) by assumption.
  cbn [negb].
  destruct (close_input_view r1 w1 wd _ qp qc ltac:(assumption) Hvd)
    as (we & Ee & Hve).
  rewrite (bind_val _ _ _ _ _
             (bind_val _ _ _ _ _ (liftW_eq _ _ _ _ _ Ee))).
  cbn [fst snd l_process l_cin_pair l_cout_pair l_cerr_pair]. clear Ee.
  destruct (close_output_view r2 w2 we _ qp qc ltac:(assumption) Hve)
    as (wf & Ef & Hvf).
  rewrite (bind_val _ _ _ _ _
             (bind_val _ _ _ _ _ (liftW_eq _ _ _ _ _ Ef))).
  cbn [fst snd l_process l_cin_pair l_cout_pair l_cerr_pair]. clear Ef.
  destruct (close_output_view r3 w3 wf _ qp qc ltac:(assumption) Hvf)
    as (wg & Eg & Hvg).
  rewrite (bind_val _ _ _ _ _
             (bind_val _ _ _ _ _ (liftW_eq _ _ _ _ _ Eg))).
  cbn [fst snd l_process l_cin_pair l_cout_pair l_cerr_pair]. clear Eg.
  rewrite locals_bind, !ret_bind, locals_bind.
  rewrite set_cin_pair_bind, set_cout_pair_bind, set_cerr_pair_bind,
    set_process_bind.
  cbn [fst snd l_process l_cin_pair l_cout_pair l_cerr_pair].
  rewrite piped_table in Hvg by exact Hfresh.
  destruct ok; cbn [negb].
  - exists wg. split; [reflexivity | exact Hvg].
  - destruct (LastErrorString_view wg _ qp qc Hvg) as (wh & Eh & Hvh).
    rewrite (liftW_bind _ _ _ _ _ _ Eh).
    exists wh. split; [|exact Hvh].
    assert (w_last_error_string wh = w_last_error_string wg) as ->
        by (inversion Eh; reflexivity).
    reflexivity.
Qed.

Lemma find_program_bind {B} (name : string) (k : string -> M World B)
    (w : World) :
  name <> "python3"%string ->
  bind (find_program name) k w
  = k (w_find_program w name) (log (N_find_program_in_path name) w).
Proof. intros H. rewrite (find_program_other _ H). reflexivity. Qed.

(** X17: a spawn with the three standard streams piped that succeeds, for
    a command other than python3 (whose resolution starts a process of
    its own first), returns a process holding the write end of the stdin
    pipe and the read ends of the stdout and stderr pipes, the process id
    and the process information being those [CreateProcess] answered;
    afterwards these three handles are open and not inheritable, the three
    ends given to the child are closed in the parent, and no other handle
    has changed. *)
Theorem run_command_piped_success (b : ProcessBuilder)
    (cmdline : CommandLine) (w : World) (r1 w1 r2 w2 r3 w3 : Z)
    (p1 p2 p3 : Pipe) qp (pi : PROCESS_INFORMATION) qc :
  piped_builder b ->
  List.hd ""%string cmdline <> "python3"%string ->
  w_find_program w (List.hd ""%string cmdline) <> ""%string ->
  fresh_handles (w_handles w) [r1; w1; r2; w2; r3; w3] ->
  w_createpipe w
  = Some (r1, w1, p1) :: Some (r2, w2, p2) :: Some (r3, w3, p3) :: qp ->
  w_createprocess w = (true, pi) :: qc ->
  exists w',
    run_command b cmdline w
    = (Val (mkPopen w1 r2 r3 (dwProcessId pi) kBadReturnCode cmdline false
              pi), w')
    /\ w_handles w' = piped_handles (w_handles w) w1 r2 r3 p2 p3.
Proof.
  intros Hb Hname Hprog Hfresh Hqp Hqc.
  unfold run_command, run_command_with.
  rewrite (find_program_bind _ _ _ Hname).
  rewrite (proj2 (String.eqb_neq _ _) Hprog).
  unfold init_startup_info, g_startupInfoInit. rewrite ret_bind.
  destruct (run_command_body_piped b cmdline
              (w_find_program w (List.hd ""%string cmdline))
              (log (N_find_program_in_path (List.hd ""%string cmdline)) w)
              (w_handles w) r1 w1 r2 w2 r3 w3 p1 p2 p3 qp true pi qc Hb
              Hfresh)
    as (w' & E & Hv & _).
  { unfold world_view. cbn [w_handles w_createpipe w_createprocess log].
    auto. }
  exists w'. split; [|exact Hv].
  unfold scoped. rewrite E. reflexivity.
Qed.

Lemma run_command_piped_success_witness :
  exists w',
    run_command ex_builder_piped ["cat"%string]
      (ex_world_spawn3 true ex_process_info)
    = (Val (mkPopen 11 20 30 (dwProcessId ex_process_info) kBadReturnCode
              ["cat"%string] false ex_process_info), w')
    /\ w_handles w'
       = piped_handles (w_handles (ex_world_spawn3 true ex_process_info))
           11 20 30 (mkPipe ["out"%string] true) (mkPipe [] true).
Proof.
  apply (run_command_piped_success ex_builder_piped ["cat"%string]
           (ex_world_spawn3 true ex_process_info) 10 11 20 21 30 31
           (mkPipe [] false) (mkPipe ["out"%string] true) (mkPipe [] true)
           [] ex_process_info []).
  - repeat split.
  - vm_compute. discriminate.
  - vm_compute. discriminate.
  - split.
    + repeat constructor; rewrite ?not_elem_of_cons, ?elem_of_nil;
        intuition lia.
    + repeat constructor; vm_compute; discriminate.
  - reflexivity.
  - reflexivity.
Defined.

Lemma close_member_view (member : Popen -> Z) (f : Popen -> Popen)
    (p0 : Popen) (w0 : World) (T : gmap Z Handle) qp qc :
  member p0 <> kBadPipeValue Win32 ->
  world_view w0 T qp qc ->
  exists w1,
    (if negb (member p0 =? kBadPipeValue Win32)
     then _ <- liftW (pipe_close Win32 (member p0)) ;; assign f
     else ret tt) (p0, w0) = (Val tt, (f p0, w1))
    /\ world_view w1 (delete (member p0) T) qp qc.
Proof.
  intros Hm Hv. rewrite (proj2 (Z.eqb_neq _ _) Hm). cbn [negb].
  destruct (CloseHandle_view (member p0) w0 T qp qc Hv)
    as (b & w1 & E & Hv1).
  exists w1. split; [|exact Hv1].
  rewrite (liftW_bind (pipe_close Win32 (member p0)) _ _ _ _ _ E).
  reflexivity.
Qed.

(** [Popen::close] on a process that was never started and holds three
    pipe handles: the three handles are closed and nothing is waited
    for. *)
Lemma close_unstarted (p : Popen) (w : World) (T : gmap Z Handle) qp qc :
  cin p <> kBadPipeValue Win32 ->
  cout p <> kBadPipeValue Win32 ->
  cerr p <> kBadPipeValue Win32 ->
  pid p = 0 ->
  world_view w T qp qc ->
  exists w',
    close (p, w) = (Val tt, (closed_popen p, w'))
    /\ world_view w' (delete (cerr p) (delete (cout p) (delete (cin p) T)))
         qp qc.
Proof.
  intros Hi Ho He Hp Hv. destruct p as [ci co ce pd rc ar sk pinf].
  cbn [cin cout cerr pid] in *. subst pd.
  set (p0 := mkPopen ci co ce 0 rc ar sk pinf).
  destruct (close_member_view cin (with_cin (kBadPipeValue Win32)) p0 w T
              qp qc Hi Hv) as (wa & Ea & Hva).
  destruct (close_member_view cout (with_cout (kBadPipeValue Win32))
              (with_cin (kBadPipeValue Win32) p0) wa _ qp qc Ho Hva)
    as (wb & Eb & Hvb).
  destruct (close_member_view cerr (with_cerr (kBadPipeValue Win32))
              (with_cout (kBadPipeValue Win32)
                 (with_cin (kBadPipeValue Win32) p0)) wb _ qp qc He Hvb)
    as (wc & Ec & Hvc).
  exists wc. split; [|exact Hvc].
  unfold close.
  assert (close_cin (p0, w)
          = (Val tt, (with_cin (kBadPipeValue Win32) p0, wa))) as E1.
  { unfold close_cin. rewrite this_bind. exact Ea. }
  rewrite (bind_val _ _ _ _ _ E1). rewrite this_bind.
  rewrite (bind_val _ _ _ _ _ Eb). rewrite this_bind.
  rewrite (bind_val _ _ _ _ _ Ec). rewrite this_bind.
  reflexivity.
Qed.

Lemma released_table (T : gmap Z Handle) (r1 w1 r2 w2 r3 w3 : Z)
    (p2 p3 : Pipe) :
  fresh_handles T [r1; w1; r2; w2; r3; w3] ->
  delete r3 (delete r2 (delete w1 (piped_handles T w1 r2 r3 p2 p3))) = T.
Proof.
  intros (Hnd & Hf). unfold piped_handles.
  rewrite !NoDup_cons, !not_elem_of_cons in Hnd.
  rewrite !Forall_cons in Hf.
  destruct_and!.
  apply map_eq. intros k.
  destruct (decide (k = w1)) as [-> | ?];
    [simplify_map_eq; congruence|].
  destruct (decide (k = r2)) as [-> | ?];
    [simplify_map_eq; congruence|].
  destruct (decide (k = r3)) as [-> | ?];
    [simplify_map_eq; congruence|].
  simplify_map_eq. reflexivity.
Qed.

(** X18: when [CreateProcess] fails in a spawn with the three standard
    streams piped, for a command other than python3 (whose resolution
    starts a process of its own first), [run_command] throws [SpawnError]
    and leaves no handle behind: the six pipe handles it created are
    closed again and the handle table is what it was before the call. *)
Theorem run_command_piped_failure (b : ProcessBuilder)
    (cmdline : CommandLine) (w : World) (r1 w1 r2 w2 r3 w3 : Z)
    (p1 p2 p3 : Pipe) qp (pi : PROCESS_INFORMATION) qc :
  piped_builder b ->
  List.hd ""%string cmdline <> "python3"%string ->
  w_find_program w (List.hd ""%string cmdline) <> ""%string ->
  fresh_handles (w_handles w) [r1; w1; r2; w2; r3; w3] ->
  w_createpipe w
  = Some (r1, w1, p1) :: Some (r2, w2, p2) :: Some (r3, w3, p3) :: qp ->
  w_createprocess w = (false, pi) :: qc ->
  dwProcessId pi = 0 ->
  exists msg w',
    run_command b cmdline w = (Exc (SpawnError msg), w')
    /\ w_handles w' = w_handles w.
Proof.
  intros Hb Hname Hprog Hfresh Hqp Hqc Hpid.
  unfold run_command, run_command_with.
  rewrite (find_program_bind _ _ _ Hname).
  rewrite (proj2 (String.eqb_neq _ _) Hprog).
  unfold init_startup_info, g_startupInfoInit. rewrite ret_bind.
  destruct (run_command_body_piped b cmdline
              (w_find_program w (List.hd ""%string cmdline))
              (log (N_find_program_in_path (List.hd ""%string cmdline)) w)
              (w_handles w) r1 w1 r2 w2 r3 w3 p1 p2 p3 qp false pi qc Hb
              Hfresh)
    as (w' & E & Hv).
  { unfold world_view. cbn [w_handles w_createpipe w_createprocess log].
    auto. }
  pose proof Hfresh as (Hnd & Hf).
  rewrite !Forall_cons in Hf. destruct_and!.
  set (P := mkPopen w1 r2 r3 (dwProcessId pi) kBadReturnCode cmdline false pi)
    in *.
  destruct (close_unstarted P w' _ qp qc ltac:(assumption) ltac:(assumption)
              ltac:(assumption) Hpid Hv)
    as (w'' & Ec & Hvc).
  cbn [cin cout cerr P] in Hvc.
  rewrite (released_table _ r1 w1 r2 w2 r3 w3 p2 p3 Hfresh) in Hvc.
  eexists. exists w''. split; [|exact (proj1 Hvc)].
  unfold scoped. rewrite E.
  unfold noexcept, run_command_destructors.
  rewrite locals_bind.
  cbn [l_process l_cin_pair l_cout_pair l_cerr_pair].
  assert (forall w0, PipePair_close Win32 (PipePair_default Win32) w0
                     = (Val (PipePair_default Win32), w0)) as Hpc
      by reflexivity.
  rewrite (liftW_bind _ _ _ _ _ _ (Hpc w')).
  rewrite (liftW_bind _ _ _ _ _ _ (Hpc w')).
  rewrite (liftW_bind _ _ _ _ _ _ (Hpc w')).
  assert (call_on P Popen_destroy w' = (Val (tt, closed_popen P), w'')) as Hd.
  { unfold call_on, Popen_destroy, noexcept. rewrite Ec. reflexivity. }
  rewrite (liftW_bind _ _ _ _ _ _ Hd).
  reflexivity.
Qed.

Lemma run_command_piped_failure_witness :
  exists msg w',
    run_command ex_builder_piped ["cat"%string]
      (ex_world_spawn3 false PROCESS_INFORMATION_zero)
    = (Exc (SpawnError msg), w')
    /\ w_handles w'
       = w_handles (ex_world_spawn3 false PROCESS_INFORMATION_zero).
Proof.
  apply (run_command_piped_failure ex_builder_piped ["cat"%string]
           (ex_world_spawn3 false PROCESS_INFORMATION_zero) 10 11 20 21 30 31
           (mkPipe [] false) (mkPipe ["out"%string] true) (mkPipe [] true)
           [] PROCESS_INFORMATION_zero []).
  - repeat split.
  - vm_compute. discriminate.
  - vm_compute. discriminate.
  - split.
    + repeat constructor; rewrite ?not_elem_of_cons, ?elem_of_nil;
        intuition lia.
    + repeat constructor; vm_compute; discriminate.
  - reflexivity.
  - reflexivity.
  - reflexivity.
Defined.

(** The command python3 is a case of its own: its program is not the one
    the path holds for python3 but the one found for python, accepted
    when it is a Python 3.  Here the path holds a program for python3 and
    none for python; the run that asks for the version of the empty path
    fails, and the spawn ends in [CommandNotFoundError] for the empty
    command, before any pipe is created. *)
Example run_command_python3_unresolved :
  w_find_program ex_world_only_python3 "python3" <> ""%string
  /\ run_command ex_builder_piped ["python3"%string] ex_world_only_python3
     = (Exc (CommandNotFoundError
               ("Command " +:+ dquote +:+ dquote +:+ " not found.")),
        with_trace [N_find_program_in_path "python";
                    N_find_program_in_path ""]
          ex_world_only_python3).
Proof. split; [vm_compute; discriminate | vm_compute; reflexivity]. Qed.

(** * Properties of the string functions *)

Lemma append_nil_l (s : string) : "" +:+ s = s.
Proof. reflexivity. Qed.

Lemma append_cons (c : ascii) (a b : string) :
  String c a +:+ b = String c (a +:+ b).
Proof. reflexivity. Qed.

(** The loop of [windows_args] after its first iteration: every argument
    is preceded by a space. *)
Lemma windows_args_loop_rest (escape : string -> string) (cmd : CommandLine)
    (acc : string) :
  windows_args_loop escape false cmd acc
  = acc +:+ List.fold_right
              (fun a r => " " +:+ escape a +:+ r) ""%string cmd.
Proof.
  revert acc. induction cmd as [|a cmd IH]; intros acc; cbn [windows_args_loop
                                                              fold_right].
  - symmetry. apply append_empty_r.
  - rewrite IH. rewrite !append_assoc. reflexivity.
Qed.

Lemma concat_cons (sep a : string) (l : list string) :
  String.concat sep (a :: l)
  = a +:+ List.fold_right (fun x r => sep +:+ x +:+ r) ""%string l.
Proof.
  revert a. induction l as [|b l IH]; intros a.
  - cbn. symmetry. apply append_empty_r.
  - change (String.concat sep (a :: b :: l))
      with (a +:+ sep +:+ String.concat sep (b :: l)).
    rewrite IH. cbn [fold_right]. reflexivity.
Qed.

(** X19: [windows_args] is the arguments, each escaped, joined by single
    spaces: no space before the first or after the last, and the empty
    command line gives the empty string. *)
Theorem windows_args_joins (escape : string -> string) (cmd : CommandLine) :
  windows_args_loop escape true cmd ""
  = String.concat " " (List.map escape cmd).
Proof.
  destruct cmd as [|a cmd]; [reflexivity|].
  cbn [windows_args_loop List.map]. rewrite windows_args_loop_rest.
  rewrite concat_cons. rewrite append_nil_l. f_equal.
  induction cmd as [|b cmd IH]; [reflexivity|].
  cbn [fold_right List.map]. rewrite IH. reflexivity.
Qed.

(** ** [escape_shell_arg] *)

(** The escaped form of the characters of [arg]. *)
Lemma escape_loop_acc (arg result : string) :
  escape_loop arg result = result +:+ escape_loop arg "".
Proof.
  revert result. induction arg as [|ch arg IH]; intros result;
    cbn [escape_loop].
  - symmetry. apply append_empty_r.
  - rewrite IH. rewrite (IH (_ +:+ String ch "")).
    destruct (Ascii.eqb ch char_dquote || Ascii.eqb ch char_backslash);
      rewrite ?append_nil_l, ?append_assoc; reflexivity.
Qed.

Lemma escape_loop_cons (ch : ascii) (arg : string) :
  escape_loop (String ch arg) ""
  = (if Ascii.eqb ch char_dquote || Ascii.eqb ch char_backslash
     then String char_backslash (String ch (escape_loop arg ""))
     else String ch (escape_loop arg "")).
Proof.
  cbn [escape_loop]. rewrite escape_loop_acc.
  destruct (Ascii.eqb ch char_dquote || Ascii.eqb ch char_backslash);
    reflexivity.
Qed.

Lemma escape_loop_length (arg : string) :
  (String.length arg <= String.length (escape_loop arg ""))%nat.
Proof.
  induction arg as [|ch arg IH]; [cbn; lia|].
  rewrite escape_loop_cons.
  destruct (Ascii.eqb ch char_dquote || Ascii.eqb ch char_backslash);
    cbn [String.length]; lia.
Qed.

Lemma needs_quote_spec (arg : string) :
  needs_quote arg = false
  <-> forall c, In c (list_ascii_of_string arg) -> quote_trigger c = false.
Proof.
  induction arg as [|ch arg IH]; cbn [needs_quote list_ascii_of_string].
  - split; [intros _ c [] | reflexivity].
  - destruct (quote_trigger ch) eqn:E.
    + split; [discriminate|]. intros H.
      rewrite (H ch) in E; [discriminate | left; reflexivity].
    + rewrite IH. split.
      * intros H c [<- | Hc]; [exact E | exact (H c Hc)].
      * intros H c Hc. apply H. right. exact Hc.
Qed.

(** X20: [escape_shell_arg] returns its argument unchanged exactly when no
    character of it is alphanumeric or one of [. _ - + /]; every other
    argument comes back between double quotes, longer by at least two
    characters.  (So the empty string and a string of blanks are passed
    unquoted, and a plain word is quoted.) *)
Theorem escape_shell_arg_unchanged_iff (arg : string) :
  (escape_shell_arg arg = arg
   <-> forall c, In c (list_ascii_of_string arg) -> quote_trigger c = false)
  /\ (escape_shell_arg arg <> arg ->
      exists body,
        escape_shell_arg arg = dquote +:+ body +:+ dquote
        /\ (String.length arg <= String.length body)%nat).
Proof.
  rewrite <- needs_quote_spec. unfold escape_shell_arg.
  destruct (needs_quote arg) eqn:E; cbn [negb].
  - assert (escape_loop arg dquote +:+ dquote
            = dquote +:+ escape_loop arg "" +:+ dquote) as Eq.
    { rewrite escape_loop_acc, append_assoc. reflexivity. }
    split.
    + split; [|discriminate]. intros H. exfalso.
      apply (f_equal String.length) in H. rewrite Eq in H.
      rewrite !length_append in H. pose proof (escape_loop_length arg).
      cbn in H. lia.
    + intros _. exists (escape_loop arg ""). split; [exact Eq|].
      apply escape_loop_length.
  - split; [split; reflexivity|]. intros H. contradiction.
Qed.

(** The characters of [arg] can be read back from its escaped form. *)
Lemma escape_loop_inj (a b : string) :
  escape_loop a "" = escape_loop b "" -> a = b.
Proof.
  revert b. induction a as [|x a IH]; intros b H.
  - destruct b as [|y b]; [reflexivity|].
    rewrite escape_loop_cons in H. cbn [escape_loop] in H.
    destruct (Ascii.eqb y char_dquote || Ascii.eqb y char_backslash);
      discriminate.
  - destruct b as [|y b].
    + rewrite escape_loop_cons in H. cbn [escape_loop] in H.
      destruct (Ascii.eqb x char_dquote || Ascii.eqb x char_backslash);
        discriminate.
    + rewrite !escape_loop_cons in H.
      destruct (Ascii.eqb x char_dquote || Ascii.eqb x char_backslash) eqn:Ex;
        destruct (Ascii.eqb y char_dquote || Ascii.eqb y char_backslash)
          eqn:Ey.
      * inversion H as [[Hxy Hab]]. f_equal. apply IH. exact Hab.
      * inversion H as [[Hy Hab]]. subst y.
        rewrite Ascii.eqb_refl, orb_true_r in Ey. discriminate.
      * inversion H as [[Hx Hab]]. subst x.
        rewrite Ascii.eqb_refl, orb_true_r in Ex. discriminate.
      * inversion H as [[Hxy Hab]]. f_equal. apply IH. exact Hab.
Qed.

Lemma append_inj_r (a b c : string) : a +:+ c = b +:+ c -> a = b.
Proof.
  revert b. induction a as [|x a IH]; intros b H.
  - destruct b as [|y b]; [reflexivity|].
    apply (f_equal String.length) in H.
    rewrite append_nil_l, length_append in H. cbn in H. lia.
  - destruct b as [|y b].
    + apply (f_equal String.length) in H.
      rewrite append_nil_l, length_append in H. cbn in H. lia.
    + rewrite !append_cons in H. inversion H as [[Hxy Hab]].
      f_equal. apply IH. exact Hab.
Qed.

Lemma needs_quote_escape_loop (arg : string) :
  needs_quote arg = true -> needs_quote (escape_loop arg "") = true.
Proof.
  induction arg as [|ch arg IH]; [discriminate|].
  cbn [needs_quote]. rewrite escape_loop_cons.
  destruct (quote_trigger ch) eqn:E.
  - intros _.
    destruct (Ascii.eqb ch char_dquote || Ascii.eqb ch char_backslash);
      cbn [needs_quote]; rewrite E;
      destruct (quote_trigger char_backslash); reflexivity.
  - intros H. specialize (IH H).
    destruct (Ascii.eqb ch char_dquote || Ascii.eqb ch char_backslash);
      cbn [needs_quote]; rewrite E, IH;
      destruct (quote_trigger char_backslash); reflexivity.
Qed.

Lemma needs_quote_append (a b : string) :
  needs_quote (a +:+ b) = needs_quote a || needs_quote b.
Proof.
  induction a as [|x a IH]; [reflexivity|].
  rewrite append_cons. cbn [needs_quote].
  destruct (quote_trigger x); [reflexivity | exact IH].
Qed.

(** X21: [escape_shell_arg] is injective: two different arguments never
    have the same escaped form, so the argument can be recovered from what
    is put on the command line. *)
Theorem escape_shell_arg_injective (a b : string) :
  escape_shell_arg a = escape_shell_arg b -> a = b.
Proof.
  assert (forall x y,
            needs_quote x = false -> needs_quote y = true ->
            x <> escape_loop y dquote +:+ dquote) as Hmixed.
  { intros x y Hx Hy E. rewrite E in Hx.
    rewrite escape_loop_acc, !needs_quote_append in Hx.
    rewrite (needs_quote_escape_loop y Hy) in Hx.
    rewrite orb_true_r in Hx. discriminate. }
  unfold escape_shell_arg.
  destruct (needs_quote a) eqn:Ea; destruct (needs_quote b) eqn:Eb;
    cbn [negb]; intros H.
  - apply append_inj_r in H.
    rewrite (escape_loop_acc a), (escape_loop_acc b) in H.
    apply String.app_inj in H. apply escape_loop_inj. exact H.
  - exfalso. exact (Hmixed b a Eb Ea (eq_sym H)).
  - exfalso. exact (Hmixed a b Ea Eb H).
  - exact H.
Qed.

Lemma escape_shell_arg_injective_witness : "a b"%string = "a b"%string.
Proof.
  apply (escape_shell_arg_injective "a b" "a b"). reflexivity.
Defined.

(** ** [split] *)

Lemma string_eqb_empty (s : string) :
  String.eqb s "" = match s with EmptyString => true | _ => false end.
Proof. destruct s; reflexivity. Qed.

Lemma getline_no_delim (ss : string) (delim : ascii) (item : string) :
  contains delim ss = false ->
  getline ss delim item
  = (negb (String.eqb (item +:+ ss) ""), item +:+ ss, ""%string).
Proof.
  revert item. induction ss as [|c ss IH]; intros item H;
    cbn [getline contains] in *.
  - rewrite append_empty_r. reflexivity.
  - apply orb_false_iff in H. destruct H as (Hc & Hss).
    rewrite Hc. rewrite (IH _ Hss).
    rewrite append_assoc. reflexivity.
Qed.

Lemma getline_delim (pre rest : string) (delim : ascii) (item : string) :
  contains delim pre = false ->
  getline (pre +:+ String delim rest) delim item
  = (true, item +:+ pre, rest).
Proof.
  revert item. induction pre as [|c pre IH]; intros item H;
    cbn [contains] in H.
  - rewrite append_nil_l. cbn [getline]. rewrite Ascii.eqb_refl.
    rewrite append_empty_r. reflexivity.
  - apply orb_false_iff in H. destruct H as (Hc & Hpre).
    rewrite append_cons. cbn [getline]. rewrite Hc.
    rewrite (IH _ Hpre). rewrite append_assoc. reflexivity.
Qed.

(** A string either holds no delimiter or splits at its first one. *)
Lemma first_delim (delim : ascii) (ss : string) :
  contains delim ss = false
  \/ exists pre rest,
       ss = pre +:+ String delim rest /\ contains delim pre = false.
Proof.
  induction ss as [|c ss IH]; [left; reflexivity|].
  cbn [contains]. destruct (Ascii.eqb c delim) eqn:Ec.
  - right. apply Ascii.eqb_eq in Ec. subst c.
    exists ""%string, ss. split; reflexivity.
  - destruct IH as [IH | (pre & rest & -> & Hpre)].
    + left. exact IH.
    + right. exists (String c pre), rest. split; [reflexivity|].
      cbn [contains]. rewrite Ec. exact Hpre.
Qed.

Lemma ends_with_no_delim (delim : ascii) (s : string) :
  contains delim s = false -> ends_with delim s = false.
Proof.
  induction s as [|c s IH]; [reflexivity|].
  cbn [contains]. intros H. apply orb_false_iff in H.
  destruct H as (Hc & Hs). destruct s as [|c' s]; [exact Hc|].
  exact (IH Hs).
Qed.

Lemma ends_with_at_delim (delim : ascii) (pre rest : string) :
  ends_with delim (pre +:+ String delim rest)
  = match rest with
    | EmptyString => true
    | _ => ends_with delim rest
    end.
Proof.
  induction pre as [|c pre IH].
  - rewrite append_nil_l. destruct rest as [|c' rest].
    + cbn. apply Ascii.eqb_refl.
    + reflexivity.
  - rewrite append_cons.
    destruct (pre +:+ String delim rest) as [|c' s'] eqn:E.
    + destruct pre; discriminate.
    + change (ends_with delim (String c (String c' s')))
        with (ends_with delim (String c' s')).
      exact IH.
Qed.

Lemma length_at_delim (delim : ascii) (pre rest : string) :
  String.length (pre +:+ String delim rest)
  = S (String.length pre + String.length rest).
Proof. rewrite length_append. cbn. lia. Qed.

(** The loop of [split] with enough fuel: the items it appends hold no
    delimiter, and terminating each by the delimiter gives the input back,
    up to one delimiter at the end. *)
Lemma split_loop_spec (delim : ascii) (fuel : nat) (ss : string)
    (result : list string) :
  (String.length ss < fuel)%nat ->
  exists items,
    split_loop fuel ss delim result = result ++ items
    /\ Forall (fun item => contains delim item = false) items
    /\ terminate_items delim items = delimited delim ss
    /\ (items = [] <-> ss = ""%string).
Proof.
  revert ss result. induction fuel as [|fuel IH]; intros ss result Hlt; [lia|].
  cbn [split_loop].
  destruct (first_delim delim ss) as [Hno | (pre & rest & -> & Hpre)].
  - rewrite (getline_no_delim ss delim "" Hno), append_nil_l.
    destruct ss as [|c ss].
    + cbn [String.eqb negb]. exists []. rewrite app_nil_r.
      repeat split; try reflexivity. constructor.
    + rewrite string_eqb_empty. cbn [negb].
      destruct fuel as [|fuel]; [cbn in Hlt; lia|].
      cbn [split_loop getline String.eqb negb].
      exists [String c ss]. split; [reflexivity|].
      split; [repeat constructor; exact Hno|].
      split.
      * unfold delimited. rewrite string_eqb_empty.
        rewrite (ends_with_no_delim _ _ Hno). reflexivity.
      * split; discriminate.
  - rewrite (getline_delim pre rest delim "" Hpre), append_nil_l.
    rewrite length_at_delim in Hlt.
    destruct (IH rest (result ++ [pre]) ltac:(lia))
      as (items & E & Hall & Ht & Hnil).
    exists (pre :: items). rewrite E, <- app_assoc.
    split; [reflexivity|].
    split; [constructor; assumption|].
    split.
    + cbn [terminate_items]. rewrite Ht. unfold delimited.
      rewrite (string_eqb_empty (pre +:+ _)).
      destruct (pre +:+ String delim rest) eqn:Ep;
        [destruct pre; discriminate|].
      rewrite <- Ep. rewrite ends_with_at_delim.
      rewrite string_eqb_empty. destruct rest as [|c' rest'];
        [reflexivity|].
      destruct (ends_with delim (String c' rest')); [reflexivity|].
      rewrite append_assoc. reflexivity.
    + split; [discriminate|]. intros H. destruct pre; discriminate.
Qed.

(** X22: the items [split] returns hold no delimiter; terminating each
    item by the delimiter gives the input back, with one delimiter added
    at the end unless the input is empty or already ends with one; there
    is no item exactly when the input is empty.  The fallback at the end
    of [split] (one item, the whole input, when the loop extracted
    nothing from a non-empty input) is therefore never taken. *)
Theorem split_items (s : string) (delim : ascii) :
  split s delim = split_loop (S (String.length s)) s delim []
  /\ Forall (fun item => contains delim item = false) (split s delim)
  /\ terminate_items delim (split s delim) = delimited delim s
  /\ (split s delim = [] <-> s = ""%string).
Proof.
  destruct (split_loop_spec delim (S (String.length s)) s [] ltac:(lia))
    as (items & E & Hall & Ht & Hnil).
  rewrite app_nil_l in E.
  assert (split s delim = items) as Hs.
  { unfold split. rewrite E. destruct items as [|i items]; [|reflexivity].
    rewrite (proj1 Hnil eq_refl). reflexivity. }
  rewrite Hs, E. repeat split; try assumption; apply Hnil.
Qed.

(** * Properties of [StopWatch] *)

Lemma monotonic_seconds_last (steady : nat -> Q)
    (st : MonotonicStatics * nat) :
  last_value (fst (snd (monotonic_seconds steady st)))
  = fst (monotonic_seconds steady st)
  /\ QArith_base.Qle (last_value (fst st)) (fst (monotonic_seconds steady st)).
Proof.
  destruct st as [s t]. unfold monotonic_seconds.
  destruct (needs_init s); cbv zeta beta iota;
    match goal with
    | |- context [Qlt_bool ?r ?l] => destruct (Qlt_bool r l) eqn:E
    end; cbn [fst snd last_value];
    (split; [reflexivity|]);
    try apply QArith_base.Qle_refl;
    unfold Qlt_bool in E; apply negb_false_iff in E;
    apply QArith_base.Qle_bool_iff in E; exact E.
Qed.

Lemma other_calls_last (steady : nat -> Q) (k : nat)
    (st : MonotonicStatics * nat) :
  QArith_base.Qle (last_value (fst st))
    (last_value (fst (other_calls steady k st))).
Proof.
  revert st. induction k as [|k IH]; intros st; cbn [other_calls].
  - apply QArith_base.Qle_refl.
  - eapply QArith_base.Qle_trans; [|apply IH].
    destruct (monotonic_seconds_last steady st) as (-> & H). exact H.
Qed.

(** X23: the time a [StopWatch] reports is never negative, whatever the
    steady clock returns (even if it runs backwards), whatever the state
    of the statics of [monotonic_seconds] when the watch is started, and
    however many readings other watches take in between: the readings of
    [monotonic_seconds] never decrease. *)
Theorem StopWatch_seconds_nonnegative (steady : nat -> Q)
    (st : MonotonicStatics * nat) (k : nat) :
  let '(watch, st1) := StopWatch_Start steady st in
  QArith_base.Qle (QArith_base.inject_Z 0)
    (fst (StopWatch_seconds steady watch (other_calls steady k st1))).
Proof.
  unfold StopWatch_Start, StopWatch_seconds.
  destruct (monotonic_seconds_last steady st) as (H1 & _).
  destruct (monotonic_seconds steady st) as [r st1]. cbn [fst snd] in H1.
  pose proof (other_calls_last steady k st1) as H2.
  destruct (monotonic_seconds_last steady (other_calls steady k st1))
    as (_ & H3).
  destruct (monotonic_seconds steady (other_calls steady k st1)) as [r2 st2].
  cbn [fst snd m_start] in *.
  rewrite H1 in H2.
  apply (proj1 (QArith_base.Qle_minus_iff r r2)).
  eapply QArith_base.Qle_trans; eassumption.
Qed.

(** * Properties of [clean_path] *)

Lemma contains_replace_backslashes (path : string) :
  contains char_backslash (replace_backslashes path) = false.
Proof.
  induction path as [|c path IH]; [reflexivity|].
  cbn [replace_backslashes contains]. rewrite IH, orb_false_r.
  destruct (Ascii.eqb c char_backslash) eqn:E; [reflexivity | exact E].
Qed.

Lemma replace_backslashes_id (path : string) :
  contains char_backslash path = false -> replace_backslashes path = path.
Proof.
  induction path as [|c path IH]; [reflexivity|].
  cbn [replace_backslashes contains]. intros H.
  apply orb_false_iff in H. destruct H as (Hc & Hp).
  rewrite Hc, (IH Hp). reflexivity.
Qed.

Lemma contains_append (c : ascii) (a b : string) :
  contains c (a +:+ b) = contains c a || contains c b.
Proof.
  induction a as [|x a IH]; [reflexivity|].
  rewrite append_cons. cbn [contains]. rewrite IH, orb_assoc. reflexivity.
Qed.

Lemma contains_substring_head (c : ascii) (s : string) (n : nat) :
  contains c s = false -> contains c (String.substring 0 n s) = false.
Proof.
  revert n. induction s as [|x s IH]; intros n H.
  - destruct n; reflexivity.
  - cbn [contains] in H. apply orb_false_iff in H. destruct H as (Hx & Hs).
    destruct n as [|n]; [reflexivity|].
    cbn [String.substring contains]. rewrite Hx, (IH n Hs). reflexivity.
Qed.

Lemma strip_slashes_contains (c : ascii) (fuel : nat) (path : string) :
  contains c path = false -> contains c (strip_slashes fuel path) = false.
Proof.
  revert path. induction fuel as [|fuel IH]; intros path H; [exact H|].
  cbn [strip_slashes]. destruct (ends_in_two_slashes path); [|exact H].
  apply IH, contains_substring_head, H.
Qed.

Lemma strip_slashes_done (fuel : nat) (path : string) :
  (String.length path <= fuel)%nat ->
  ends_in_two_slashes (strip_slashes fuel path) = false.
Proof.
  revert path. induction fuel as [|fuel IH]; intros path Hlen.
  - cbn [strip_slashes]. unfold ends_in_two_slashes.
    replace (2 <=? String.length path)%nat with false; [reflexivity|].
    symmetry. apply Nat.leb_gt. lia.
  - cbn [strip_slashes]. destruct (ends_in_two_slashes path) eqn:E;
      [|exact E].
    apply IH. unfold ends_in_two_slashes in E.
    apply andb_true_iff in E. destruct E as (E & _).
    apply andb_true_iff in E. destruct E as (E & _).
    apply Nat.leb_le in E.
    rewrite length_substring_head by lia. lia.
Qed.

Lemma strip_slashes_fixed (fuel : nat) (path : string) :
  ends_in_two_slashes path = false -> strip_slashes fuel path = path.
Proof. intros H. destruct fuel; cbn [strip_slashes]; rewrite ?H; reflexivity. Qed.

Lemma char_at_substring_head (s : string) (n i : nat) :
  (i < n)%nat -> char_at i (String.substring 0 n s) = char_at i s.
Proof.
  intros H. unfold char_at. rewrite substring_correct1 by exact H.
  rewrite Nat.add_0_r. reflexivity.
Qed.

(** What the last loop leaves is the path itself or ends with a slash. *)
Lemma strip_slashes_last (fuel : nat) (path : string) :
  strip_slashes fuel path = path
  \/ (1 <= String.length (strip_slashes fuel path))%nat
     /\ char_at (String.length (strip_slashes fuel path) - 1)
          (strip_slashes fuel path) = "/"%char.
Proof.
  revert path. induction fuel as [|fuel IH]; intros path; [left; reflexivity|].
  cbn [strip_slashes]. destruct (ends_in_two_slashes path) eqn:E;
    [|left; reflexivity].
  right. unfold ends_in_two_slashes in E.
  apply andb_true_iff in E. destruct E as (E & E2).
  apply andb_true_iff in E. destruct E as (E0 & E1).
  apply Nat.leb_le in E0. apply Ascii.eqb_eq in E2.
  set (q := String.substring 0 (String.length path - 1) path).
  assert (String.length q = String.length path - 1)%nat as Hq
      by (subst q; apply length_substring_head; lia).
  assert (char_at (String.length q - 1) q = "/"%char) as Hlast.
  { rewrite Hq. subst q. rewrite char_at_substring_head by lia.
    replace (String.length path - 1 - 1)%nat
      with (String.length path - 2)%nat by lia.
    exact E2. }
  destruct (IH q) as [-> | H]; [|exact H].
  split; [lia | exact Hlast].
Qed.

(** X24: the path [clean_path] returns holds no backslash and does not
    end in two slashes. *)
Theorem clean_path_shape (pf : Platform) (path : string) :
  contains char_backslash (clean_path pf path) = false
  /\ ends_in_two_slashes (clean_path pf path) = false.
Proof.
  unfold clean_path. split.
  - apply strip_slashes_contains.
    destruct (kIsWin32 pf && bare_drive (replace_backslashes path)).
    + rewrite contains_append, contains_replace_backslashes. reflexivity.
    + apply contains_replace_backslashes.
  - apply strip_slashes_done. lia.
Qed.

(** X25: [clean_path] is idempotent on both platforms: cleaning a cleaned
    path changes nothing (in particular a cleaned path is never a bare
    drive letter with its colon). *)
Theorem clean_path_idempotent (pf : Platform) (path : string) :
  clean_path pf (clean_path pf path) = clean_path pf path.
Proof.
  assert (contains char_backslash (clean_path pf path) = false) as Hbs.
  { unfold clean_path. apply strip_slashes_contains.
    destruct (kIsWin32 pf && bare_drive (replace_backslashes path)).
    - rewrite contains_append, contains_replace_backslashes. reflexivity.
    - apply contains_replace_backslashes. }
  assert (ends_in_two_slashes (clean_path pf path) = false) as Hend
      by (unfold clean_path; apply strip_slashes_done; lia).
  unfold clean_path at 1.
  rewrite (replace_backslashes_id _ Hbs).
  assert (kIsWin32 pf && bare_drive (clean_path pf path) = false) as ->.
  { destruct (kIsWin32 pf) eqn:Ew; [|reflexivity]. cbn [andb].
    destruct (bare_drive (clean_path pf path)) eqn:Ed; [|reflexivity].
    exfalso. unfold clean_path in Ed. rewrite Ew in Ed. cbn [andb] in Ed.
    set (p' := replace_backslashes path) in *.
    destruct (bare_drive p') eqn:Ep.
    - destruct (strip_slashes_last (String.length (p' +:+ "/")) (p' +:+ "/"))
        as [Hs | (Hl & Hs)].
      + rewrite Hs in Ed. unfold bare_drive in Ed, Ep.
        rewrite length_append in Ed.
        apply andb_true_iff in Ep. destruct Ep as (Ep & _).
        apply andb_true_iff in Ep. destruct Ep as (Ep & _).
        apply Nat.eqb_eq in Ep. rewrite Ep in Ed. discriminate.
      + unfold bare_drive in Ed.
        apply andb_true_iff in Ed. destruct Ed as (Ed & Ec).
        apply andb_true_iff in Ed. destruct Ed as (Ed & _).
        apply Nat.eqb_eq in Ed. rewrite Ed in Hs. cbn in Hs.
        rewrite Hs in Ec. discriminate.
    - destruct (strip_slashes_last (String.length p') p')
        as [Hs | (Hl & Hs)].
      + rewrite Hs in Ed. congruence.
      + unfold bare_drive in Ed.
        apply andb_true_iff in Ed. destruct Ed as (Ed & Ec).
        apply andb_true_iff in Ed. destruct Ed as (Ed & _).
        apply Nat.eqb_eq in Ed. rewrite Ed in Hs. cbn in Hs.
        rewrite Hs in Ec. discriminate. }
  apply strip_slashes_fixed. exact Hend.
Qed.

(** * Properties of the environment functions *)

Lemma EnvironSetter_assign_lookup (pf : Platform) (name : string)
    (str : option string) (environ : EnvMap) (n : string) :
  EnvironSetter_assign pf name str environ !! n
  = if bool_decide (n = name)
    then match str with
         | Some s => if String.eqb s "" then None else Some s
         | None => None
         end
    else environ !! n.
Proof.
  unfold EnvironSetter_assign.
  destruct (bool_decide (n = name)) eqn:E.
  - apply bool_decide_eq_true in E. subst n.
    destruct pf, str as [s|]; cbn [String.eqb];
      try (destruct (String.eqb s "")); simplify_map_eq; reflexivity.
  - apply bool_decide_eq_false in E.
    destruct pf, str as [s|]; cbn [String.eqb];
      try (destruct (String.eqb s "")); simplify_map_eq; reflexivity.
Qed.

(** X26: when an [EnvGuard] is destroyed, every variable that was not in
    the saved environment is removed, and every saved variable gets its
    saved value back, with one exception: a variable saved with an empty
    value whose value has changed (or that was removed) is removed, not
    restored, because assigning the empty string removes a variable.  So
    a saved environment without empty values is restored exactly. *)
Theorem EnvGuard_restores (pf : Platform) (m_env environ : EnvMap) :
  (forall name,
     EnvGuard_destroy pf m_env environ !! name
     = match m_env !! name with
       | Some value => restored value (environ !! name)
       | None => None
       end)
  /\ ((forall name, m_env !! name <> Some ""%string) ->
      EnvGuard_destroy pf m_env environ = m_env).
Proof.
  assert (forall name,
            EnvGuard_destroy pf m_env environ !! name
            = match m_env !! name with
              | Some value => restored value (environ !! name)
              | None => None
              end) as Hlookup.
  { unfold EnvGuard_destroy.
    set (f1 := fun (name : string) (_ : string) (env : EnvMap) =>
                 if bool_decide (m_env !! name = None)
                 then EnvironSetter_assign pf name None env
                 else env).
    assert (forall n,
              map_fold f1 environ environ !! n
              = match m_env !! n with
                | Some _ => environ !! n
                | None => None
                end) as H1.
    { assert (forall mp,
                (forall n,
                   map_fold f1 environ mp !! n
                   = match mp !! n with
                     | Some _ =>
                         match m_env !! n with
                         | Some _ => environ !! n
                         | None => None
                         end
                     | None => environ !! n
                     end)) as Hgen.
      { intros mp.
        apply (map_fold_weak_ind
                 (fun r mp => forall n,
                      r !! n = match mp !! n with
                               | Some _ =>
                                   match m_env !! n with
                                   | Some _ => environ !! n
                                   | None => None
                                   end
                               | None => environ !! n
                               end)).
        - intros n. rewrite lookup_empty. reflexivity.
        - intros i x m r Hi IH n. unfold f1.
          destruct (decide (n = i)) as [-> | Hn].
          + rewrite lookup_insert_eq.
            destruct (bool_decide (m_env !! i = None)) eqn:Eb.
            * apply bool_decide_eq_true in Eb.
              rewrite EnvironSetter_assign_lookup, bool_decide_eq_true_2
                by reflexivity.
              rewrite Eb. reflexivity.
            * apply bool_decide_eq_false in Eb. rewrite IH, Hi.
              destruct (m_env !! i); [reflexivity | contradiction]. 
          + rewrite lookup_insert_ne by congruence.
            destruct (bool_decide (m_env !! i = None)).
            * rewrite EnvironSetter_assign_lookup, bool_decide_eq_false_2
                by exact Hn.
              apply IH.
            * apply IH. }
      intros n. rewrite Hgen.
      destruct (environ !! n) eqn:En; [reflexivity|].
      destruct (m_env !! n); reflexivity. }
    set (E1 := map_fold f1 environ environ) in *.
    set (f2 := fun (name value : string) (env : EnvMap) =>
                 if bool_decide (environ !! name = None)
                    || negb (bool_decide (environ !! name = Some value))
                 then EnvironSetter_assign pf name (Some value) env
                 else env).
    assert (forall mp,
              (forall n v, mp !! n = Some v -> m_env !! n = Some v) ->
              forall n,
                map_fold f2 E1 mp !! n
                = match mp !! n with
                  | Some value => restored value (environ !! n)
                  | None => E1 !! n
                  end) as Hgen.
    { intros mp.
      apply (map_fold_weak_ind
               (fun r mp =>
                  (forall n v, mp !! n = Some v -> m_env !! n = Some v) ->
                  forall n,
                    r !! n = match mp !! n with
                             | Some value => restored value (environ !! n)
                             | None => E1 !! n
                             end)).
      - intros _ n. rewrite lookup_empty. reflexivity.
      - intros i x m r Hi IH Hsub n.
        assert (forall n v, m !! n = Some v -> m_env !! n = Some v) as Hsub'.
        { intros n0 v0 H0. apply Hsub.
          destruct (decide (n0 = i)) as [-> | ?]; [congruence|].
          rewrite lookup_insert_ne by congruence. exact H0. }
        specialize (IH Hsub'). unfold f2.
        destruct (decide (n = i)) as [-> | Hn].
        + rewrite lookup_insert_eq. unfold restored.
          assert (m_env !! i = Some x) as Hmi
              by (apply Hsub, lookup_insert_eq).
          destruct (bool_decide (environ !! i = Some x)) eqn:Eb.
          * apply bool_decide_eq_true in Eb.
            rewrite (bool_decide_eq_false_2 (environ !! i = None))
              by congruence.
            cbn [orb negb]. rewrite IH, Hi, H1, Hmi. exact Eb.
          * rewrite orb_true_r.
            rewrite EnvironSetter_assign_lookup, bool_decide_eq_true_2
              by reflexivity.
            reflexivity.
        + rewrite lookup_insert_ne by congruence.
          destruct (bool_decide (environ !! i = None)
                    || negb (bool_decide (environ !! i = Some x))).
          * rewrite EnvironSetter_assign_lookup, bool_decide_eq_false_2
              by exact Hn.
            apply IH.
          * apply IH. }
    intros name. rewrite (Hgen m_env (fun _ _ H => H)).
    destruct (m_env !! name) eqn:Em; [reflexivity|].
    rewrite H1, Em. reflexivity. }
  split; [exact Hlookup|].
  intros Hne. apply map_eq. intros name. rewrite Hlookup.
  destruct (m_env !! name) as [value|] eqn:Em; [|reflexivity].
  unfold restored.
  destruct (bool_decide (environ !! name = Some value)); [reflexivity|].
  destruct value; [|reflexivity].
  exfalso. exact (Hne name Em).
Qed.

Lemma name_end_line (name rest : string) :
  contains "=" name = false ->
  name_end (name +:+ String "=" rest) = String.length name.
Proof.
  induction name as [|c name IH]; intros H.
  - reflexivity.
  - cbn [contains] in H. apply orb_false_iff in H. destruct H as (Hc & Hn).
    rewrite append_cons. cbn [name_end String.length]. rewrite Hc.
    f_equal. exact (IH Hn).
Qed.

Lemma char_at_append (a : string) (c : ascii) (b : string) :
  char_at (String.length a) (a +:+ String c b) = c.
Proof.
  unfold char_at. induction a as [|x a IH]; [reflexivity|].
  rewrite append_cons. cbn [String.length String.get]. exact IH.
Qed.

Lemma substring_append_head (a b : string) :
  String.substring 0 (String.length a) (a +:+ b) = a.
Proof.
  induction a as [|x a IH]; [destruct b; reflexivity|].
  rewrite append_cons. cbn [String.length String.substring].
  f_equal. exact IH.
Qed.

Lemma substring_append_tail (a : string) (c : ascii) (b : string) :
  String.substring (S (String.length a))
    (String.length (a +:+ String c b) - S (String.length a))
    (a +:+ String c b) = b.
Proof.
  induction a as [|x a IH].
  - rewrite append_nil_l. cbn [String.length String.substring Nat.sub].
    rewrite ?Nat.sub_0_r. apply substring_all.
  - rewrite append_cons. cbn [String.length String.substring Nat.sub].
    exact IH.
Qed.

Lemma parse_entry_line (result : EnvMap) (name value : string) :
  valid_name name ->
  parse_entry result (env_line (name, value)) = <[name := value]> result.
Proof.
  intros (Hne & Hc). unfold parse_entry, env_line. cbn [fst snd].
  change (name +:+ "=" +:+ value) with (name +:+ String "=" value).
  rewrite (name_end_line name value Hc), char_at_append.
  rewrite Ascii.eqb_refl.
  replace (String.length name =? 0)%nat with false.
  - cbn [andb negb].
    rewrite substring_append_head, substring_append_tail. reflexivity.
  - symmetry. apply Nat.eqb_neq. destruct name; [contradiction | discriminate].
Qed.

Lemma fold_left_parse_entries (l : list (string * string)) (acc : EnvMap) :
  Forall (fun e => valid_name (fst e)) l ->
  List.fold_left parse_entry (List.map env_line l) acc
  = List.fold_left (fun r e => <[fst e := snd e]> r) l acc.
Proof.
  revert acc. induction l as [|[n v] l IH]; intros acc H; [reflexivity|].
  inversion H as [|e l' Hv Hl]; subst.
  cbn [List.map List.fold_left]. rewrite (parse_entry_line acc n v Hv).
  apply IH. exact Hl.
Qed.

Lemma fold_left_insert_map (m : EnvMap) (entries : list (string * string)) :
  entries ≡ₚ map_to_list m ->
  List.fold_left (fun r e => <[fst e := snd e]> r) entries ∅ = m.
Proof.
  intros Hp. rewrite <- fold_left_rev_right.
  transitivity (list_to_map (map_to_list m) : EnvMap);
    [|apply list_to_map_to_list].
  transitivity (list_to_map (rev entries) : EnvMap);
    [reflexivity|].
  assert (rev entries ≡ₚ map_to_list m) as Hperm
      by (rewrite <- Hp; symmetry; apply Permutation_rev).
  apply list_to_map_proper; [|exact Hperm].
  rewrite Hperm. apply NoDup_fst_map_to_list.
Qed.

Lemma insert_entry_perm (entry : string * string)
    (entries : list (string * string)) :
  insert_entry entry entries ≡ₚ entry :: entries.
Proof.
  induction entries as [|e rest IH]; [reflexivity|].
  cbn [insert_entry]. destruct (String.leb (fst entry) (fst e));
    [reflexivity|].
  rewrite IH. apply Permutation_swap.
Qed.

Lemma entries_in_order_perm (m : EnvMap) :
  entries_in_order m ≡ₚ map_to_list m.
Proof.
  unfold entries_in_order.
  induction (map_to_list m) as [|e l IH]; [reflexivity|].
  cbn [fold_right]. rewrite insert_entry_perm, IH. reflexivity.
Qed.

(** [entries_in_order] is the order of the names. *)
Lemma insert_entry_sorted (entry : string * string)
    (entries : list (string * string)) :
  Sorted.Sorted (fun a b => String.leb (fst a) (fst b) = true) entries ->
  Sorted.Sorted (fun a b => String.leb (fst a) (fst b) = true)
    (insert_entry entry entries).
Proof.
  induction entries as [|e rest IH]; intros Hs.
  - repeat constructor.
  - cbn [insert_entry].
    destruct (String.leb (fst entry) (fst e)) eqn:E.
    + constructor; [exact Hs | constructor; exact E].
    + inversion Hs as [|e' rest' Hrest Hhd]; subst.
      constructor; [exact (IH Hrest)|].
      assert (String.leb (fst e) (fst entry) = true) as Hle.
      { destruct (String.leb_total (fst entry) (fst e)) as [H | H];
          [congruence | exact H]. }
      destruct rest as [|e2 rest2]; [constructor; exact Hle|].
      cbn [insert_entry].
      destruct (String.leb (fst entry) (fst e2));
        [constructor; exact Hle|].
      inversion Hhd; subst. constructor. assumption.
Qed.

Lemma entries_in_order_sorted (m : EnvMap) :
  Sorted.Sorted (fun a b => String.leb (fst a) (fst b) = true) (entries_in_order m).
Proof.
  unfold entries_in_order.
  induction (map_to_list m) as [|e l IH]; [constructor|].
  cbn [fold_right]. apply insert_entry_sorted. exact IH.
Qed.

Lemma strlen16_line (us rest : list Z) :
  Forall (fun u => u <> 0) us ->
  strlen16 (us ++ 0 :: rest) = List.length us
  /\ List.firstn (List.length us) (us ++ 0 :: rest) = us
  /\ List.skipn (S (List.length us)) (us ++ 0 :: rest) = rest.
Proof.
  induction us as [|u us IH]; intros H.
  - repeat split.
  - inversion H as [|u' us' Hu Hus]; subst.
    destruct (IH Hus) as (H1 & H2 & H3).
    cbn [app strlen16 List.length List.firstn List.skipn].
    rewrite (proj2 (Z.eqb_neq u 0) Hu).
    rewrite H1, H2. repeat split. exact H3.
Qed.

Lemma parse_env_block_lines (utf8_to_utf16 : string -> list Z)
    (utf16_to_utf8 : list Z -> string) (l : list (string * string))
    (fuel : nat) (result : EnvMap) :
  Forall (fun e =>
            utf8_to_utf16 (env_line e) <> []
            /\ Forall (fun u => u <> 0) (utf8_to_utf16 (env_line e))
            /\ utf16_to_utf8 (utf8_to_utf16 (env_line e)) = env_line e) l ->
  (List.length l <= fuel)%nat ->
  parse_env_block utf16_to_utf8 fuel
    (List.fold_right
       (fun entry rest => utf8_to_utf16 (env_line entry) ++ 0 :: rest)
       [0] l) result
  = List.fold_left parse_entry (List.map env_line l) result.
Proof.
  revert fuel result. induction l as [|e l IH]; intros fuel result H Hf.
  - destruct fuel; reflexivity.
  - inversion H as [|e' l' (Hne & Hnz & Hrt) Hl]; subst.
    destruct fuel as [|fuel]; [cbn in Hf; lia|].
    cbn [fold_right List.map List.fold_left].
    set (rest := fold_right
                   (fun entry rest =>
                      utf8_to_utf16 (env_line entry) ++ 0 :: rest) [0] l).
    destruct (strlen16_line (utf8_to_utf16 (env_line e)) rest Hnz)
      as (H1 & H2 & H3).
    destruct (utf8_to_utf16 (env_line e)) as [|u us] eqn:Eu;
      [contradiction|].
    inversion Hnz as [|u' us' Hu Hus]; subst.
    cbn [parse_env_block app].
    rewrite (proj2 (Z.eqb_neq u 0) Hu).
    change (u :: us ++ 0 :: rest) with ((u :: us) ++ 0 :: rest).
    rewrite H1, H2, H3, Hrt.
    apply IH; [exact Hl | cbn in Hf; lia].
Qed.

Lemma length_env_block (utf8_to_utf16 : string -> list Z)
    (l : list (string * string)) :
  le (List.length l)
    (List.length
       (List.fold_right
          (fun entry rest => utf8_to_utf16 (env_line entry) ++ 0 :: rest)
          [0] l)).
Proof.
  induction l as [|e l IH]; cbn [fold_right List.length]; [lia|].
  rewrite length_app. cbn [List.length]. lia.
Qed.

(** X27: the environment block [create_env_block] builds, its lines in
    the order of the names, is read back by [current_env_copy] as the same
    map, provided every name is non-empty and without ['='], and the
    conversion to UTF-16 of every line gives a non-empty sequence without
    null unit that converts back to the line.  A value may hold ['=']: the
    name ends at the first one.  The same holds of the lines themselves
    read as the entries of [environ], in whatever order they come. *)
Theorem env_block_round_trip (utf8_to_utf16 : string -> list Z)
    (utf16_to_utf8 : list Z -> string) (map : EnvMap) :
  (forall name value, map !! name = Some value -> valid_name name) ->
  (forall name value,
     map !! name = Some value ->
     utf8_to_utf16 (env_line (name, value)) <> []
     /\ Forall (fun u => u <> 0) (utf8_to_utf16 (env_line (name, value)))
     /\ utf16_to_utf8 (utf8_to_utf16 (env_line (name, value)))
        = env_line (name, value)) ->
  current_env_copy_block utf16_to_utf8 (create_env_block_of utf8_to_utf16 map)
  = map
  /\ forall entries,
       entries ≡ₚ map_to_list map ->
       current_env_copy (List.map env_line entries) = map.
Proof.
  intros Hvalid Hconv.
  assert (forall entries : list (string * string),
             entries ≡ₚ map_to_list map ->
             Forall (fun e => valid_name (fst e)) entries) as Hall.
  { intros entries Hp. apply Forall_forall. intros [n v] Hin.
    rewrite Hp in Hin.
    apply elem_of_map_to_list in Hin. exact (Hvalid n v Hin). }
  split.
  - unfold current_env_copy_block, create_env_block_of.
    rewrite (parse_env_block_lines utf8_to_utf16 utf16_to_utf8).
    + rewrite fold_left_parse_entries.
      * apply fold_left_insert_map, entries_in_order_perm.
      * apply Hall, entries_in_order_perm.
    + apply Forall_forall. intros [n v] Hin.
      rewrite entries_in_order_perm in Hin.
      apply elem_of_map_to_list in Hin. exact (Hconv n v Hin).
    + apply length_env_block.
  - intros entries Hp. unfold current_env_copy.
    rewrite (fold_left_parse_entries _ _ (Hall _ Hp)).
    apply fold_left_insert_map. exact Hp.
Qed.

Lemma env_block_round_trip_witness :
  current_env_copy_block units_ascii
    (create_env_block_of ascii_units
       (<["PATH"%string := "/bin"%string]>
          (<["OPTS"%string := "a=b"%string]> ∅)))
  = <["PATH"%string := "/bin"%string]> (<["OPTS"%string := "a=b"%string]> ∅)
  /\ forall entries,
       entries
       ≡ₚ map_to_list
            (<["PATH"%string := "/bin"%string]>
               (<["OPTS"%string := "a=b"%string]> (∅ : EnvMap))) ->
       current_env_copy (List.map env_line entries)
       = <["PATH"%string := "/bin"%string]>
           (<["OPTS"%string := "a=b"%string]> ∅).
Proof.
  apply (env_block_round_trip ascii_units units_ascii
           (<["PATH"%string := "/bin"%string]>
              (<["OPTS"%string := "a=b"%string]> ∅))).
  - intros name value H.
    apply lookup_insert_Some in H. destruct H as [(<- & <-) | (_ & H)].
    { split; [discriminate | reflexivity]. }
    apply lookup_insert_Some in H. destruct H as [(<- & <-) | (_ & H)].
    { split; [discriminate | reflexivity]. }
    rewrite lookup_empty in H. discriminate.
  - intros name value H.
    apply lookup_insert_Some in H. destruct H as [(<- & <-) | (_ & H)].
    { split; [discriminate|]. split; [|reflexivity].
      repeat constructor; discriminate. }
    apply lookup_insert_Some in H. destruct H as [(<- & <-) | (_ & H)].
    { split; [discriminate|]. split; [|reflexivity].
      repeat constructor; discriminate. }
    rewrite lookup_empty in H. discriminate.
Defined.

(** The block built for the names PATH and OPTS begins with the line of
    OPTS. *)
Example create_env_block_order :
  create_env_block_of ascii_units
    (<["PATH"%string := "/bin"%string]>
       (<["OPTS"%string := "a=b"%string]> ∅))
  = ascii_units "OPTS=a=b" ++ 0 :: ascii_units "PATH=/bin" ++ [0; 0].
Proof. vm_compute. reflexivity. Qed.

(** * Capturing the output of a process *)

Lemma pipe_read_frame (h size : Z) (w w' : World) (r : Res (Z * string)) :
  pipe_read Win32 h size w = (r, w') ->
  same_process_answers w w'
  /\ forall k, k <> h -> w_handles w' !! k = w_handles w !! k.
Proof.
  unfold pipe_read, bind, ReadFile, same_process_answers. intros H.
  destruct (w_handles w !! h) as [[[p| |] inh]|] eqn:Eh;
    try (inversion H; subst; cbn; auto; fail).
  destruct (p_chunks p) as [|c rest].
  - destruct (p_writer_closed p); inversion H; subst; cbn; auto.
  - unfold split_bytes in H. cbv beta iota zeta in H. unfold ret in H.
    inversion H; subst; clear H. cbn [w_terminated w_wait w_exitcode
                                      w_handles set_handles log].
    repeat split. intros k Hk. apply lookup_insert_ne. congruence.
Qed.

Lemma same_process_answers_trans (w1 w2 w3 : World) :
  same_process_answers w1 w2 -> same_process_answers w2 w3 ->
  same_process_answers w1 w3.
Proof.
  unfold same_process_answers. intros (A1 & A2 & A3) (B1 & B2 & B3).
  repeat split; congruence.
Qed.

Lemma pipe_read_all_loop_frame (fuel : nat) (h : Z) (acc : string)
    (w w' : World) (r : Res string) :
  pipe_read_all_loop Win32 fuel h acc w = (r, w') ->
  same_process_answers w w'
  /\ forall k, k <> h -> w_handles w' !! k = w_handles w !! k.
Proof.
  revert acc w. induction fuel as [|fuel IH]; intros acc w H.
  - cbn in H. unfold hang in H. inversion H; subst.
    split; [repeat split | auto].
  - cbn [pipe_read_all_loop] in H. unfold bind in H.
    destruct (pipe_read Win32 h 2048 w) as [[[t buf]| e | |] w1] eqn:E;
      apply pipe_read_frame in E; destruct E as (Ha & Hh);
      try (inversion H; subst; split; assumption).
    destruct (t >? 0).
    + apply IH in H. destruct H as (Ha' & Hh').
      split; [eapply same_process_answers_trans; eassumption|].
      intros k Hk. rewrite Hh', Hh by exact Hk. reflexivity.
    + unfold ret in H. inversion H; subst. split; assumption.
Qed.

(** One of the two threads of [run]: it reads the pipe to its end, closes
    the handle and forgets it. *)
Lemma capture_thread_captures (member : Popen -> Z)
    (with_member : Z -> Popen -> Popen) (p : Popen) (w : World)
    (pp : Pipe) :
  drainable w (member p) pp ->
  exists w',
    capture_thread member with_member (p, w)
    = (Val (pipe_data pp), (with_member (kBadPipeValue Win32) p, w'))
    /\ w_handles w' = delete (member p) (w_handles w)
    /\ same_process_answers w w'.
Proof.
  intros (Hh & (inh & Hl) & Hc & Hz).
  destruct (pipe_read_all_loop_win32 (S (pending_bytes pp)) (member p) "" w
              pp inh Hl Hc Hz ltac:(lia)) as (w1 & E0 & _).
  assert (pipe_read_all Win32 (member p) w = (Val (pipe_data pp), w1)) as E.
  { unfold pipe_read_all. rewrite (proj2 (Z.eqb_neq _ _) Hh). cbn [negb].
    unfold bind, get. rewrite Hl. exact E0. }
  assert (same_process_answers w w1
          /\ forall k, k <> member p ->
                       w_handles w1 !! k = w_handles w !! k) as (Ha & Hf).
  { unfold pipe_read_all in E.
    rewrite (proj2 (Z.eqb_neq _ _) Hh) in E. cbn [negb] in E.
    unfold bind at 1, get in E.
    eapply pipe_read_all_loop_frame. exact E. }
  unfold capture_thread. rewrite this_bind.
  rewrite (proj2 (Z.eqb_neq _ _) Hh). cbn [negb].
  assert (try_catch (liftW (pipe_read_all Win32 (member p)))
            (fun _ => true) (fun _ => ret ""%string) (p, w)
          = (Val (pipe_data pp), (p, w1))) as Et.
  { unfold try_catch. rewrite (liftW_eq _ _ _ _ _ E). reflexivity. }
  rewrite (bind_val _ _ _ _ _ Et). rewrite this_bind.
  unfold pipe_close, CloseHandle, bind at 1, liftW at 1. cbn [fst snd].
  destruct (w_handles w1 !! member p) eqn:E1.
  - eexists. split; [reflexivity|].
    cbn [fst snd w_handles set_handles log w_terminated w_wait w_exitcode].
    split; [|exact Ha]. apply map_eq. intros k.
    destruct (decide (k = member p)) as [-> | Hk].
    + rewrite !lookup_delete_eq. reflexivity.
    + rewrite !lookup_delete_ne by congruence. apply Hf. exact Hk.
  - eexists. split; [reflexivity|].
    cbn [fst snd w_handles set_handles log w_terminated w_wait w_exitcode].
    split; [|exact Ha]. apply map_eq. intros k.
    destruct (decide (k = member p)) as [-> | Hk].
    + rewrite lookup_delete_eq. exact E1.
    + rewrite lookup_delete_ne by congruence. apply Hf. exact Hk.
Qed.

(** X28: [run(popen, false)] on a process whose stdout and stderr pipes
    the child has written and closed (without zero-byte writes), and that
    exits with a code the system reports, returns a snapshot with all the
    bytes of the two pipes, the exit code and the command line without
    its first element; afterwards the two handles are closed and forgotten
    by the [Popen], and the exit code is cached in it. *)
Theorem run_Popen_captures (p : Popen) (w : World) (p1 p2 : Pipe)
    (ret_ code : Z) (qw : list Z) (qe : list (Z * Z)) :
  drainable w (cout p) p1 ->
  drainable w (cerr p) p2 ->
  cout p <> cerr p ->
  returncode p = kBadReturnCode ->
  w_terminated w = None ->
  w_wait w = WAIT_OBJECT_0 :: qw ->
  w_exitcode w = (ret_, code) :: qe ->
  ret_ <> 0 ->
  exists w',
    run_Popen false (p, w)
    = (Val (mkCompleted (List.tl (args p)) (dword code) (pipe_data p1)
              (pipe_data p2)),
       (with_returncode (dword code)
          (with_cerr (kBadPipeValue Win32)
             (with_cout (kBadPipeValue Win32) p)), w'))
    /\ w_handles w' = delete (cerr p) (delete (cout p) (w_handles w)).
Proof.
  intros Hd1 Hd2 Hne Hrc Ht Hw He Hret.
  destruct (capture_thread_captures cout with_cout p w p1 Hd1)
    as (w1 & E1 & Hh1 & (A1 & A2 & A3)).
  set (q1 := with_cout (kBadPipeValue Win32) p) in *.
  assert (drainable w1 (cerr q1) p2) as Hd2'.
  { destruct Hd2 as (Hb & (inh & Hl) & Hc & Hz).
    split; [exact Hb|]. split; [|split; assumption].
    exists inh. rewrite Hh1. change (cerr q1) with (cerr p).
    rewrite lookup_delete_ne by congruence. exact Hl. }
  destruct (capture_thread_captures cerr with_cerr q1 w1 p2 Hd2')
    as (w2 & E2 & Hh2 & (B1 & B2 & B3)).
  set (q2 := with_cerr (kBadPipeValue Win32) q1) in *.
  assert (returncode q2 = kBadReturnCode) as Hrc2 by exact Hrc.
  assert (w_terminated w2 = None) as Ht2 by congruence.
  assert (w_wait w2 = WAIT_OBJECT_0 :: qw) as Hw2 by congruence.
  pose proof (WaitForSingleObject_answer (hProcess (process_info q2))
                (timeout_ms wait_default) WAIT_OBJECT_0 qw w2 Ht2 Hw2)
    as EW.
  set (w3 := set_wait qw
               (log (N_WaitForSingleObject (hProcess (process_info q2))
                       (timeout_ms wait_default)) w2)) in *.
  assert (w_exitcode w3 = (ret_, code) :: qe) as He3
      by (subst w3; cbn [w_exitcode set_wait log]; congruence).
  pose proof (GetExitCodeProcess_answer (hProcess (process_info q2)) ret_
                code qe w3 Ht2 He3) as EG.
  pose proof (wait_exited wait_default q2 w2 w3 _ ret_ (dword code) Hrc2 EW
                EG Hret) as Ewait.
  eexists. split.
  - unfold run_Popen.
    rewrite (bind_val _ _ _ _ _ E1), (bind_val _ _ _ _ _ E2),
      (bind_val _ _ _ _ _ Ewait).
    rewrite this_bind. reflexivity.
  - cbn [w_handles set_exitcode set_wait log]. subst w3.
    cbn [w_handles set_exitcode set_wait log].
    rewrite Hh2, Hh1. reflexivity.
Qed.

Lemma run_Popen_captures_witness :
  exists w',
    run_Popen false (ex_popen, ex_world_exit3)
    = (Val (mkCompleted (List.tl (args ex_popen)) (dword 3)
              (pipe_data (mkPipe ["out"%string] true))
              (pipe_data (mkPipe ["err"%string] true))),
       (with_returncode (dword 3)
          (with_cerr (kBadPipeValue Win32)
             (with_cout (kBadPipeValue Win32) ex_popen)), w'))
    /\ w_handles w'
       = delete (cerr ex_popen)
           (delete (cout ex_popen) (w_handles ex_world_exit3)).
Proof.
  apply (run_Popen_captures ex_popen ex_world_exit3
           (mkPipe ["out"%string] true) (mkPipe ["err"%string] true)
           1 3 [] []).
  - split; [vm_compute; discriminate|].
    split; [exists false; vm_compute; reflexivity|].
    split; [reflexivity | repeat constructor; discriminate].
  - split; [vm_compute; discriminate|].
    split; [exists false; vm_compute; reflexivity|].
    split; [reflexivity | repeat constructor; discriminate].
  - vm_compute. discriminate.
  - reflexivity.
  - reflexivity.
  - reflexivity.
  - reflexivity.
  - discriminate.
Defined.

(** * Ownership of the process and killing its tree *)

(** X29: move assignment of a [Popen] transfers the process: the target
    is first closed exactly as [close] does, then it is the source; the
    object the source is left as is empty, so that destroying it makes no
    native call and leaves the process to the target alone. *)
Theorem Popen_move_assign_transfers (other other' p p' : Popen)
    (w w' : World) :
  Popen_move_assign other (p, w) = (Val other', (p', w')) ->
  p' = other
  /\ close (p, w) = (Val tt, (closed_popen p, w'))
  /\ forall w2, Popen_destroy (other', w2) = (Val tt, (other', w2)).
Proof.
  intros H. unfold Popen_move_assign in H. apply noexcept_val_inv in H.
  apply bind_val_inv in H. destruct H as ([] & [p1 w1] & Hc & H).
  pose proof (close_val_inv _ _ _ _ _ Hc) as (-> & _).
  apply bind_val_inv in H. destruct H as (u & s2 & Ha & H).
  unfold assign in Ha. inversion Ha; subst; clear Ha.
  unfold ret in H. inversion H; subst; clear H.
  split; [reflexivity|]. split; [exact Hc|].
  intros w2. reflexivity.
Qed.

Lemma Popen_move_assign_transfers_witness :
  fst (snd (Popen_move_assign ex_popen_plain (ex_popen, ex_world_exit0)))
  = ex_popen_plain
  /\ close (ex_popen, ex_world_exit0)
     = (Val tt,
        (closed_popen ex_popen,
         snd (snd (Popen_move_assign ex_popen_plain
                     (ex_popen, ex_world_exit0)))))
  /\ forall w2,
       Popen_destroy
         (mkPopen 0 0 0 0 kBadReturnCode [] false PROCESS_INFORMATION_zero, w2)
       = (Val tt,
          (mkPopen 0 0 0 0 kBadReturnCode [] false PROCESS_INFORMATION_zero,
           w2)).
Proof.
  apply (Popen_move_assign_transfers ex_popen_plain
           (mkPopen 0 0 0 0 kBadReturnCode [] false PROCESS_INFORMATION_zero)
           ex_popen
           (fst (snd (Popen_move_assign ex_popen_plain
                        (ex_popen, ex_world_exit0))))
           ex_world_exit0
           (snd (snd (Popen_move_assign ex_popen_plain
                        (ex_popen, ex_world_exit0))))).
  vm_compute. reflexivity.
Defined.

Lemma TerminateProcessByID_trace (id : Z) (w : World) :
  exists w',
    TerminateProcessByID id w = (Val tt, w')
    /\ w_trace w' = w_trace w ++ kill_child_calls w id
    /\ same_system w w'.
Proof.
  unfold TerminateProcessByID, bind, OpenProcess, modify, CloseHandle, ret,
    kill_child_calls, same_system.
  cbn. destruct (negb (w_open_process w id =? 0)); cbn.
  - destruct (w_handles w !! w_open_process w id); cbn;
      (eexists; split; [reflexivity|]; cbn;
       rewrite <- !app_assoc; repeat split).
  - eexists. split; [reflexivity|]. cbn. repeat split.
Qed.

Lemma same_system_trans (w1 w2 w3 : World) :
  same_system w1 w2 -> same_system w2 w3 -> same_system w1 w3.
Proof.
  unfold same_system. intros (A1 & A2 & A3 & A4) (B1 & B2 & B3 & B4).
  repeat split; congruence.
Qed.

Lemma for_each_TerminateProcessByID_trace (ids : list Z) (w : World) :
  exists w',
    for_each TerminateProcessByID ids w = (Val tt, w')
    /\ w_trace w' = w_trace w ++ flat_map (kill_child_calls w) ids
    /\ same_system w w'.
Proof.
  revert w. induction ids as [|id ids IH]; intros w; cbn [for_each flat_map].
  - exists w. unfold ret. rewrite app_nil_r. repeat split.
  - destruct (TerminateProcessByID_trace id w) as (w1 & E & Ht & Hs).
    destruct (IH w1) as (w2 & E2 & Ht2 & Hs2).
    exists w2. rewrite (bind_val _ _ _ _ _ E). rewrite E2.
    split; [reflexivity|]. split.
    + rewrite Ht2, Ht, <- app_assoc. f_equal. f_equal.
      apply flat_map_ext. intros a. unfold kill_child_calls.
      destruct Hs as (-> & _). reflexivity.
    + eapply same_system_trans; eassumption.
Qed.

Lemma after_snapshot_frame (w : World) :
  w_trace (after_snapshot w) = w_trace w ++ snapshot_calls w
  /\ w_terminate (after_snapshot w) = w_terminate w
  /\ w_terminated (after_snapshot w) = w_terminated w
  /\ same_system w (after_snapshot w).
Proof.
  unfold after_snapshot, same_system.
  destruct (w_snapshot w) as [[h entries]|]; cbn; repeat split.
Qed.

(** X30: the kill signal on a process whose exit status is unknown takes
    the snapshot of the system first, walks its entries with
    [Process32First] and [Process32Next] and closes it, then terminates
    the process with exit code 137, then terminates with exit code 0 every
    process of the snapshot whose parent it is, closing each handle it
    opened for that; this happens whether or not the process itself could
    be terminated.  The result is the result of the first
    [TerminateProcess]; a failure is reported on stdout after the children
    are dealt with. *)
Theorem send_signal_kill_tree (p : Popen) (w : World) (b : bool)
    (q : list bool) :
  returncode p = kBadReturnCode ->
  w_terminate w = b :: q ->
  exists w',
    send_signal PSIGKILL (p, w) = (Val b, (p, w'))
    /\ w_trace w'
       = w_trace w
         ++ snapshot_calls w
         ++ [N_TerminateProcess (hProcess (process_info p)) 137]
         ++ flat_map (kill_child_calls w)
              (children_of w (dwProcessId (process_info p)))
         ++ (if b then []
             else [N_GetLastError; N_FormatMessage (w_last_error w)])
    /\ w_cout w'
       = w_cout w
         ++ (if b then []
             else ["error: " +:+ w_last_error_string w +:+ nl]).
Proof.
  intros Hrc Hq. unfold send_signal. rewrite this_bind.
  rewrite Hrc, Z.eqb_refl. cbn [negb].
  change (SigNum_eqb Win32 PSIGKILL PSIGKILL) with true. cbv iota.
  set (ids := children_of w (dwProcessId (process_info p))).
  pose proof (GetChildProcessIDs_val (dwProcessId (process_info p)) w) as E1.
  fold ids in E1.
  destruct (after_snapshot_frame w) as (Ht1 & Hq1 & _ & Hs1).
  set (w1 := after_snapshot w) in *.
  assert (exists w2,
            TerminateProcess (hProcess (process_info p)) 137 w1 = (Val b, w2)
            /\ w_trace w2
               = w_trace w1
                 ++ [N_TerminateProcess (hProcess (process_info p)) 137]
            /\ same_system w1 w2) as (w2 & E2 & Ht2 & Hs2).
  { unfold TerminateProcess, bind, native_call, get, modify, ret.
    rewrite Hq1, Hq.
    destruct b; cbn [w_terminated set_terminate log];
      destruct (w_terminated w1);
      (eexists; split; [reflexivity|]; cbn; repeat split). }
  destruct (for_each_TerminateProcessByID_trace ids w2)
    as (w3 & E3 & Ht3 & Hs3).
  assert (same_system w w3) as (S1 & S2 & S3 & S4).
  { eapply same_system_trans; [|exact Hs3].
    eapply same_system_trans; [|exact Hs2]. exact Hs1. }
  assert ((ids0 <- liftW (GetChildProcessIDs
                            (dwProcessId (process_info p))) ;;
           result <- liftW (TerminateProcess
                              (hProcess (process_info p)) 137) ;;
           liftW (for_each TerminateProcessByID ids0) ;;;
           ret result) (p, w) = (Val b, (p, w3))) as Ek.
  { rewrite (liftW_bind _ _ _ _ _ _ E1), (liftW_bind _ _ _ _ _ _ E2),
      (liftW_bind _ _ _ _ _ _ E3).
    reflexivity. }
  rewrite (bind_val _ _ _ _ _ Ek).
  assert (w_trace w3
          = w_trace w
            ++ snapshot_calls w
            ++ [N_TerminateProcess (hProcess (process_info p)) 137]
            ++ flat_map (kill_child_calls w) ids) as Ht.
  { rewrite Ht3, Ht2, Ht1.
    rewrite <- !app_assoc. f_equal. f_equal. f_equal.
    apply flat_map_ext. intros a. unfold kill_child_calls.
    destruct Hs2 as (-> & _). destruct Hs1 as (-> & _). reflexivity. }
  destruct b; cbn [negb].
  - exists w3. split; [reflexivity|].
    rewrite Ht, !app_nil_r. split; [reflexivity | exact S4].
  - eexists. split; [reflexivity|].
    cbn [fst snd w_trace w_cout print log w_last_error w_last_error_string].
    rewrite Ht, S2, S3, S4, <- !app_assoc. split; reflexivity.
Qed.

Lemma send_signal_kill_tree_witness :
  exists w',
    send_signal PSIGKILL (ex_popen_plain, ex_world_tree)
    = (Val false, (ex_popen_plain, w'))
    /\ w_trace w'
       = w_trace ex_world_tree
         ++ snapshot_calls ex_world_tree
         ++ [N_TerminateProcess (hProcess (process_info ex_popen_plain)) 137]
         ++ flat_map (kill_child_calls ex_world_tree)
              (children_of ex_world_tree
                 (dwProcessId (process_info ex_popen_plain)))
         ++ [N_GetLastError; N_FormatMessage (w_last_error ex_world_tree)]
    /\ w_cout w'
       = w_cout ex_world_tree
         ++ ["error: " +:+ w_last_error_string ex_world_tree +:+ nl].
Proof.
  apply (send_signal_kill_tree ex_popen_plain ex_world_tree false []).
  - reflexivity.
  - reflexivity.
Defined.

(** The calls of that kill, one by one: the snapshot holds three
    processes, two of them children of the process, of which the second
    cannot be opened. *)
Example send_signal_kill_tree_calls :
  w_trace (snd (snd (send_signal PSIGKILL (ex_popen_plain, ex_world_tree))))
  = [N_CreateToolhelp32Snapshot; N_Process32First 900;
     N_Process32Next 900; N_Process32Next 900; N_Process32Next 900;
     N_CloseHandle 900;
     N_TerminateProcess 100 137;
     N_OpenProcess 5000; N_TerminateProcess 77 0; N_CloseHandle 77;
     N_OpenProcess 5002;
     N_GetLastError; N_FormatMessage 5].
Proof. vm_compute. reflexivity. Qed.
